(** * Comment creation and cursor pagination of the micro-blogging backend

    A shallow embedding of the two Lambda handlers
    [backend/src/functions/comments/createComment.js] and
    [backend/src/functions/comments/getComments.js], together with the
    ECMAScript built-ins they call ([String.prototype.trim], [parseInt],
    [JSON.parse], [JSON.stringify], [encodeURIComponent],
    [decodeURIComponent]), of the authentication wrapper
    [backend/src/common/middleware.js] around the first of them, and of
    the front end that calls them: the comments API of
    [frontend/src/services/api.ts], the form
    [frontend/src/components/CommentInput.tsx] and the relative time of
    [frontend/src/components/CommentItem.tsx].

    JavaScript strings are sequences of UTF-16 code units; they are
    modelled as lists of [N].  A value that may be [undefined] is an
    [option].  An operation that may throw returns a sum whose left
    summand is the exception. *)

From Stdlib Require Import String Ascii NArith ZArith List Bool Lia.
From Stdlib Require Import Sorting.Sorted Sorting.Permutation.
Import ListNotations.

Set Implicit Arguments.
Set Warnings "-register-all".
Local Open Scope N_scope.

(** ** Strings *)

Definition jsstring := list N.

(** Every code unit fits in sixteen bits. *)
Definition wf16 (s : jsstring) : Prop := Forall (fun c => c < 65536) s.

(** Source literals are ASCII; [lit] turns one into code units. *)
Definition lit (s : string) : jsstring :=
  map N_of_ascii (list_ascii_of_string s).

Fixpoint str_eqb (a b : jsstring) : bool :=
  match a, b with
  | [], [] => true
  | x :: a', y :: b' => (x =? y) && str_eqb a' b'
  | _, _ => false
  end.

(** Code-unit wise comparison, the order of [<] on JavaScript strings. *)
Fixpoint str_cmp (a b : jsstring) : comparison :=
  match a, b with
  | [], [] => Eq
  | [], _ :: _ => Lt
  | _ :: _, [] => Gt
  | x :: a', y :: b' =>
      match x ?= y with
      | Eq => str_cmp a' b'
      | r => r
      end
  end.

(** [WhiteSpace] and [LineTerminator] code points of ECMA-262, the set
    stripped by [trim] and skipped by [parseInt]. *)
Definition is_ws (c : N) : bool :=
  ((9 <=? c) && (c <=? 13))            (* TAB LF VT FF CR *)
  || (c =? 32) || (c =? 160)           (* SP NBSP *)
  || (c =? 5760)                       (* U+1680 *)
  || ((8192 <=? c) && (c <=? 8202))    (* U+2000 .. U+200A *)
  || (c =? 8232) || (c =? 8233)        (* LS PS *)
  || (c =? 8239) || (c =? 8287)        (* U+202F U+205F *)
  || (c =? 12288) || (c =? 65279).     (* U+3000 U+FEFF *)

Fixpoint trimStart (s : jsstring) : jsstring :=
  match s with
  | [] => []
  | c :: s' => if is_ws c then trimStart s' else s
  end.

Definition trimEnd (s : jsstring) : jsstring := rev (trimStart (rev s)).

(** [String.prototype.trim]. *)
Definition trim (s : jsstring) : jsstring := trimEnd (trimStart s).

(** ** [parseInt] with the radix left out

    The result is the mathematical value of the longest digit prefix,
    [None] standing for [NaN].  JavaScript holds the double nearest to
    that value; the two agree below [2^53], and they are zero together,
    so the truthiness test of the handler is exact. *)

Definition digit_val (radix c : N) : option N :=
  let v :=
    if (48 <=? c) && (c <=? 57) then Some (c - 48)
    else if (97 <=? c) && (c <=? 122) then Some (c - 87)
    else if (65 <=? c) && (c <=? 90) then Some (c - 55)
    else None in
  match v with
  | Some d => if d <? radix then Some d else None
  | None => None
  end.

(** Longest prefix of digits; [None] when there is no digit at all. *)
Fixpoint digits_prefix (radix : N) (acc : option N) (s : jsstring) : option N :=
  match s with
  | [] => acc
  | c :: s' =>
      match digit_val radix c with
      | Some d =>
          digits_prefix radix
            (Some (match acc with Some a => a * radix + d | None => d end)) s'
      | None => acc
      end
  end.

Definition parseInt (input : jsstring) : option Z :=
  let s := trimStart input in
  let '(neg, s) :=
    match s with
    | 45 :: s' => (true, s')
    | 43 :: s' => (false, s')
    | _ => (false, s)
    end in
  let '(radix, s) :=
    match s with
    | 48 :: x :: s' => if (x =? 120) || (x =? 88) then (16, s') else (10, s)
    | _ => (10, s)
    end in
  match digits_prefix radix None s with
  | None => None
  | Some n => Some (if neg then (- Z.of_N n)%Z else Z.of_N n)
  end.

(** ** JSON values

    What [JSON.parse] can return.  A number keeps the decimal literal it
    was read from, [(-1)^neg * mant * 10^exp10]; the only use the handlers
    make of a number is its truthiness.  An object is the list of its own
    properties in creation order. *)

Record JsNumber := mkNum { num_neg : bool; num_mant : N; num_exp10 : Z }.

Inductive JsValue :=
| JNull
| JBool (b : bool)
| JNum (d : JsNumber)
| JStr (s : jsstring)
| JArr (elems : list JsValue)
| JObj (props : list (jsstring * JsValue)).

(** The double nearest to a decimal literal is zero exactly when the
    literal does not exceed half the least subnormal, [2^-1075]. *)
Definition rounds_to_zero (d : JsNumber) : bool :=
  (num_mant d =? 0)
  || ((num_exp10 d <? 0)%Z
      && (Z.of_N (num_mant d) * 2 ^ 1075 <=? 10 ^ (- num_exp10 d))%Z).

(** [ToBoolean]. *)
Definition truthy (v : JsValue) : bool :=
  match v with
  | JNull => false
  | JBool b => b
  | JNum d => negb (rounds_to_zero d)
  | JStr s => match s with [] => false | _ => true end
  | JArr _ | JObj _ => true
  end.

(** [ToBoolean] of a value that may be [undefined]. *)
Definition truthy_opt (v : option JsValue) : bool :=
  match v with
  | Some v => truthy v
  | None => false
  end.

Fixpoint lookup (k : jsstring) (props : list (jsstring * JsValue)) : option JsValue :=
  match props with
  | [] => None
  | (k', v) :: rest => if str_eqb k k' then Some v else lookup k rest
  end.

(** [CreateDataProperty] on an ordinary object: a repeated name keeps its
    place and takes the new value. *)
Fixpoint obj_set (props : list (jsstring * JsValue)) (k : jsstring) (v : JsValue)
  : list (jsstring * JsValue) :=
  match props with
  | [] => [(k, v)]
  | (k', v') :: rest =>
      if str_eqb k k' then (k', v) :: rest else (k', v') :: obj_set rest k v
  end.

(** ** [JSON.parse]: the lexer *)

Inductive token :=
| TLBrace | TRBrace | TLBrack | TRBrack | TColon | TComma
| TStr (s : jsstring)
| TNum (d : JsNumber)
| TTrue | TFalse | TNull.

(** Where the lexer stands inside a number literal. *)
Inductive numphase :=
| NMinus    (* after the sign, a digit must follow *)
| NZero     (* after a leading zero *)
| NInt      (* inside the integer digits *)
| NDot      (* after the point, a digit must follow *)
| NFrac     (* inside the fraction digits *)
| NE        (* after e or E *)
| NESign    (* after the sign of the exponent *)
| NExp.     (* inside the exponent digits *)

Record numacc := mkAcc {
  acc_neg : bool; acc_mant : N; acc_frac : N; acc_eneg : bool; acc_exp : N }.

Definition acc_value (a : numacc) : JsNumber :=
  mkNum (acc_neg a) (acc_mant a)
        ((if acc_eneg a then - Z.of_N (acc_exp a) else Z.of_N (acc_exp a))
         - Z.of_N (acc_frac a))%Z.

Inductive lstate :=
| LDefault
| LStr (acc : jsstring)                 (* inside a string, [acc] reversed *)
| LEsc (acc : jsstring)                 (* after a backslash *)
| LUni (acc : jsstring) (k : nat) (v : N)  (* inside \u, [k] digits to come *)
| LLit (rest : jsstring) (t : token)    (* inside true, false or null *)
| LNum (p : numphase) (a : numacc).

Definition is_digit (c : N) : bool := (48 <=? c) && (c <=? 57).

Definition hex_val (c : N) : option N := digit_val 16 c.

Definition lex_default (c : N) : option (lstate * list token) :=
  if (c =? 32) || (c =? 9) || (c =? 10) || (c =? 13) then Some (LDefault, [])
  else if c =? 123 then Some (LDefault, [TLBrace])
  else if c =? 125 then Some (LDefault, [TRBrace])
  else if c =? 91 then Some (LDefault, [TLBrack])
  else if c =? 93 then Some (LDefault, [TRBrack])
  else if c =? 58 then Some (LDefault, [TColon])
  else if c =? 44 then Some (LDefault, [TComma])
  else if c =? 34 then Some (LStr [], [])
  else if c =? 116 then Some (LLit (lit "rue") TTrue, [])
  else if c =? 102 then Some (LLit (lit "alse") TFalse, [])
  else if c =? 110 then Some (LLit (lit "ull") TNull, [])
  else if c =? 45 then Some (LNum NMinus (mkAcc true 0 0 false 0), [])
  else if c =? 48 then Some (LNum NZero (mkAcc false 0 0 false 0), [])
  else if is_digit c then Some (LNum NInt (mkAcc false (c - 48) 0 false 0), [])
  else None.

(** A number literal may end in these phases only. *)
Definition num_final (p : numphase) : bool :=
  match p with
  | NZero | NInt | NFrac | NExp => true
  | _ => false
  end.

(** The literal is over at [c]: emit it and read [c] afresh. *)
Definition num_close (p : numphase) (a : numacc) (c : N)
  : option (lstate * list token) :=
  if num_final p then
    match lex_default c with
    | Some (st, out) => Some (st, TNum (acc_value a) :: out)
    | None => None
    end
  else None.

Definition push_mant (a : numacc) (c : N) : numacc :=
  mkAcc (acc_neg a) (acc_mant a * 10 + (c - 48)) (acc_frac a) (acc_eneg a) (acc_exp a).

Definition push_frac (a : numacc) (c : N) : numacc :=
  mkAcc (acc_neg a) (acc_mant a * 10 + (c - 48)) (acc_frac a + 1) (acc_eneg a) (acc_exp a).

Definition push_exp (a : numacc) (c : N) : numacc :=
  mkAcc (acc_neg a) (acc_mant a) (acc_frac a) (acc_eneg a) (acc_exp a * 10 + (c - 48)).

Definition set_eneg (a : numacc) : numacc :=
  mkAcc (acc_neg a) (acc_mant a) (acc_frac a) true (acc_exp a).

Definition is_e (c : N) : bool := (c =? 101) || (c =? 69).

Definition lex_num (p : numphase) (a : numacc) (c : N)
  : option (lstate * list token) :=
  match p with
  | NMinus =>
      if c =? 48 then Some (LNum NZero a, [])
      else if is_digit c then Some (LNum NInt (push_mant a c), [])
      else None
  | NZero =>
      if c =? 46 then Some (LNum NDot a, [])
      else if is_e c then Some (LNum NE a, [])
      else num_close p a c
  | NInt =>
      if is_digit c then Some (LNum NInt (push_mant a c), [])
      else if c =? 46 then Some (LNum NDot a, [])
      else if is_e c then Some (LNum NE a, [])
      else num_close p a c
  | NDot =>
      if is_digit c then Some (LNum NFrac (push_frac a c), []) else None
  | NFrac =>
      if is_digit c then Some (LNum NFrac (push_frac a c), [])
      else if is_e c then Some (LNum NE a, [])
      else num_close p a c
  | NE =>
      if c =? 43 then Some (LNum NESign a, [])
      else if c =? 45 then Some (LNum NESign (set_eneg a), [])
      else if is_digit c then Some (LNum NExp (push_exp a c), [])
      else None
  | NESign =>
      if is_digit c then Some (LNum NExp (push_exp a c), []) else None
  | NExp =>
      if is_digit c then Some (LNum NExp (push_exp a c), [])
      else num_close p a c
  end.

(** The character an escape letter stands for. *)
Definition unescape (c : N) : option N :=
  if c =? 34 then Some 34          (* quote *)
  else if c =? 92 then Some 92     (* backslash *)
  else if c =? 47 then Some 47     (* slash *)
  else if c =? 98 then Some 8      (* b *)
  else if c =? 102 then Some 12    (* f *)
  else if c =? 110 then Some 10    (* n *)
  else if c =? 114 then Some 13    (* r *)
  else if c =? 116 then Some 9     (* t *)
  else None.

Definition lex_step (st : lstate) (c : N) : option (lstate * list token) :=
  match st with
  | LDefault => lex_default c
  | LStr acc =>
      if c =? 34 then Some (LDefault, [TStr (rev acc)])
      else if c =? 92 then Some (LEsc acc, [])
      else if c <? 32 then None
      else Some (LStr (c :: acc), [])
  | LEsc acc =>
      if c =? 117 then Some (LUni acc 3 0, [])
      else match unescape c with
           | Some x => Some (LStr (x :: acc), [])
           | None => None
           end
  | LUni acc k v =>
      match hex_val c with
      | Some h =>
          match k with
          | O => Some (LStr ((v * 16 + h) :: acc), [])
          | S k' => Some (LUni acc k' (v * 16 + h), [])
          end
      | None => None
      end
  | LLit rest t =>
      match rest with
      | [] => None
      | x :: rest' =>
          if c =? x then
            match rest' with
            | [] => Some (LDefault, [t])
            | _ => Some (LLit rest' t, [])
            end
          else None
      end
  | LNum p a => lex_num p a c
  end.

Definition lex_end (st : lstate) : option (list token) :=
  match st with
  | LDefault => Some []
  | LNum p a => if num_final p then Some [TNum (acc_value a)] else None
  | _ => None
  end.

Fixpoint lex_go (st : lstate) (s : jsstring) : option (list token) :=
  match s with
  | [] => lex_end st
  | c :: s' =>
      match lex_step st c with
      | Some (st', out) =>
          match lex_go st' s' with
          | Some ts => Some (out ++ ts)
          | None => None
          end
      | None => None
      end
  end.

Definition lex (s : jsstring) : option (list token) := lex_go LDefault s.

(** ** [JSON.parse]: the parser, a push-down automaton over the tokens *)

Inductive frame :=
| FArr (acc : list JsValue)
| FObj (acc : list (jsstring * JsValue)) (key : jsstring).

Inductive pstate :=
| PVal (st : list frame)           (* a value must follow *)
| PArr0 (st : list frame)          (* just after an opening bracket *)
| PObj0 (st : list frame)          (* just after an opening brace *)
| PKey (st : list frame) (acc : list (jsstring * JsValue))
| PColon (st : list frame) (acc : list (jsstring * JsValue)) (k : jsstring)
| PArrSep (st : list frame) (acc : list JsValue)
| PObjSep (st : list frame) (acc : list (jsstring * JsValue))
| PDone (v : JsValue).

(** A value is complete: hand it to the enclosing container. *)
Definition complete (st : list frame) (v : JsValue) : pstate :=
  match st with
  | [] => PDone v
  | FArr acc :: st' => PArrSep st' (acc ++ [v])
  | FObj acc k :: st' => PObjSep st' (obj_set acc k v)
  end.

Definition parse_value (st : list frame) (t : token) : option pstate :=
  match t with
  | TStr s => Some (complete st (JStr s))
  | TNum d => Some (complete st (JNum d))
  | TTrue => Some (complete st (JBool true))
  | TFalse => Some (complete st (JBool false))
  | TNull => Some (complete st JNull)
  | TLBrack => Some (PArr0 st)
  | TLBrace => Some (PObj0 st)
  | _ => None
  end.

Definition parse_step (p : pstate) (t : token) : option pstate :=
  match p with
  | PVal st => parse_value st t
  | PArr0 st =>
      match t with
      | TRBrack => Some (complete st (JArr []))
      | _ => parse_value (FArr [] :: st) t
      end
  | PObj0 st =>
      match t with
      | TRBrace => Some (complete st (JObj []))
      | TStr k => Some (PColon st [] k)
      | _ => None
      end
  | PKey st acc =>
      match t with
      | TStr k => Some (PColon st acc k)
      | _ => None
      end
  | PColon st acc k =>
      match t with
      | TColon => Some (PVal (FObj acc k :: st))
      | _ => None
      end
  | PArrSep st acc =>
      match t with
      | TComma => Some (PVal (FArr acc :: st))
      | TRBrack => Some (complete st (JArr acc))
      | _ => None
      end
  | PObjSep st acc =>
      match t with
      | TComma => Some (PKey st acc)
      | TRBrace => Some (complete st (JObj acc))
      | _ => None
      end
  | PDone _ => None
  end.

Fixpoint parse_go (p : pstate) (ts : list token) : option JsValue :=
  match ts with
  | [] => match p with PDone v => Some v | _ => None end
  | t :: ts' =>
      match parse_step p t with
      | Some p' => parse_go p' ts'
      | None => None
      end
  end.

(** The exceptions the handlers can meet. *)
Inductive Exn :=
| SyntaxError                 (* JSON.parse *)
| URIError                    (* encodeURIComponent, decodeURIComponent *)
| TypeError                   (* property of null or undefined, call of a non-function *)
| Error (message : string)    (* thrown by the handler itself *)
| StorageError.               (* the promise of the document client rejected *)

Definition JSON_parse (s : jsstring) : Exn + JsValue :=
  match lex s with
  | Some ts =>
      match parse_go (PVal []) ts with
      | Some v => inr v
      | None => inl SyntaxError
      end
  | None => inl SyntaxError
  end.

(** ** [encodeURIComponent] and [decodeURIComponent] *)

Definition is_alnum (c : N) : bool :=
  is_digit c || ((65 <=? c) && (c <=? 90)) || ((97 <=? c) && (c <=? 122)).

(** The characters [encodeURIComponent] leaves alone:
    letters, digits and [- _ . ! ~ * ' ( )]. *)
Definition uri_unreserved (c : N) : bool :=
  is_alnum c
  || (c =? 45) || (c =? 95) || (c =? 46) || (c =? 33) || (c =? 126)
  || (c =? 42) || (c =? 39) || (c =? 40) || (c =? 41).

Definition is_high (c : N) : bool := (55296 <=? c) && (c <=? 56319).
Definition is_low (c : N) : bool := (56320 <=? c) && (c <=? 57343).

(** The code point of a surrogate pair. *)
Definition pair_cp (hi lo : N) : N := (hi - 55296) * 1024 + (lo - 56320) + 65536.

(** [UTF16EncodeCodePoint]. *)
Definition utf16 (cp : N) : jsstring :=
  if cp <? 65536 then [cp]
  else [55296 + (cp - 65536) / 1024; 56320 + (cp - 65536) mod 1024].

Definition utf8 (cp : N) : list N :=
  if cp <? 128 then [cp]
  else if cp <? 2048 then [192 + cp / 64; 128 + cp mod 64]
  else if cp <? 65536 then
    [224 + cp / 4096; 128 + (cp / 64) mod 64; 128 + cp mod 64]
  else
    [240 + cp / 262144; 128 + (cp / 4096) mod 64;
     128 + (cp / 64) mod 64; 128 + cp mod 64].

Definition hex_upper (n : N) : N := if n <? 10 then 48 + n else 55 + n.
Definition hex_lower (n : N) : N := if n <? 10 then 48 + n else 87 + n.

(** One octet as a percent sign and two upper-case hexadecimal digits. *)
Definition pct (b : N) : jsstring := [37; hex_upper (b / 16); hex_upper (b mod 16)].

Definition pct_utf8 (cp : N) : jsstring := flat_map pct (utf8 cp).

Fixpoint encode_go (s : jsstring) : option jsstring :=
  match s with
  | [] => Some []
  | c :: s' =>
      if uri_unreserved c then option_map (cons c) (encode_go s')
      else if is_low c then None
      else if is_high c then
        match s' with
        | d :: s'' =>
            if is_low d
            then option_map (app (pct_utf8 (pair_cp c d))) (encode_go s'')
            else None
        | [] => None
        end
      else option_map (app (pct_utf8 c)) (encode_go s')
  end.

Definition encodeURIComponent (s : jsstring) : Exn + jsstring :=
  match encode_go s with
  | Some r => inr r
  | None => inl URIError
  end.

(** Decoding first undoes the percent escapes, then reads the octets as
    UTF-8. *)
Inductive uitem :=
| Raw (c : N)     (* a code unit that stood for itself *)
| Oct (b : N).    (* an octet that stood as a percent escape *)

Fixpoint unpercent (s : jsstring) : option (list uitem) :=
  match s with
  | [] => Some []
  | c :: s' =>
      if c =? 37 then
        match s' with
        | h :: l :: s'' =>
            match hex_val h, hex_val l with
            | Some x, Some y => option_map (cons (Oct (x * 16 + y))) (unpercent s'')
            | _, _ => None
            end
        | _ => None
        end
      else option_map (cons (Raw c)) (unpercent s')
  end.

(** The six payload bits of a continuation octet. *)
Definition cont (i : uitem) : option N :=
  match i with
  | Oct b => if (128 <=? b) && (b <=? 191) then Some (b - 128) else None
  | Raw _ => None
  end.

(** Not over-long, not a surrogate, inside Unicode. *)
Definition valid_cp (least cp : N) : bool :=
  (least <=? cp) && (cp <=? 1114111) && negb ((55296 <=? cp) && (cp <=? 57343)).

Definition emit (least cp : N) (rest : option jsstring) : option jsstring :=
  if valid_cp least cp then option_map (app (utf16 cp)) rest else None.

Fixpoint utf8_decode (items : list uitem) : option jsstring :=
  match items with
  | [] => Some []
  | Raw c :: rest => option_map (cons c) (utf8_decode rest)
  | Oct b :: rest =>
      if b <? 128 then option_map (cons b) (utf8_decode rest)
      else if b <? 192 then None
      else if b <? 224 then
        match rest with
        | i1 :: r1 =>
            match cont i1 with
            | Some x1 => emit 128 ((b - 192) * 64 + x1) (utf8_decode r1)
            | None => None
            end
        | _ => None
        end
      else if b <? 240 then
        match rest with
        | i1 :: i2 :: r2 =>
            match cont i1, cont i2 with
            | Some x1, Some x2 =>
                emit 2048 (((b - 224) * 64 + x1) * 64 + x2) (utf8_decode r2)
            | _, _ => None
            end
        | _ => None
        end
      else if b <? 248 then
        match rest with
        | i1 :: i2 :: i3 :: r3 =>
            match cont i1, cont i2, cont i3 with
            | Some x1, Some x2, Some x3 =>
                emit 65536 ((((b - 240) * 64 + x1) * 64 + x2) * 64 + x3)
                     (utf8_decode r3)
            | _, _, _ => None
            end
        | _ => None
        end
      else None
  end.

Definition decodeURIComponent (s : jsstring) : Exn + jsstring :=
  match unpercent s with
  | Some items =>
      match utf8_decode items with
      | Some r => inr r
      | None => inl URIError
      end
  | None => inl URIError
  end.

(** ** [JSON.stringify] of a store key

    The key attributes of the comments table and of its index are all of
    type STRING, so a key is a list of attribute names with string
    values. *)

Definition Key := list (jsstring * jsstring).

(** The key as the JavaScript object it is. *)
Definition key_value (k : Key) : JsValue :=
  JObj (map (fun p => (fst p, JStr (snd p))) k).

Definition uni_escape (c : N) : jsstring :=
  [92; 117; hex_lower (c / 4096); hex_lower ((c / 256) mod 16);
   hex_lower ((c / 16) mod 16); hex_lower (c mod 16)].

Definition quote_char (c : N) : jsstring :=
  if c =? 8 then [92; 98]
  else if c =? 9 then [92; 116]
  else if c =? 10 then [92; 110]
  else if c =? 12 then [92; 102]
  else if c =? 13 then [92; 114]
  else if c =? 34 then [92; 34]
  else if c =? 92 then [92; 92]
  else if c <? 32 then uni_escape c
  else [c].

(** The inside of [QuoteJSONString]: a surrogate pair goes out as it is, a
    lone surrogate as a [\u] escape. *)
Fixpoint quote_body (s : jsstring) : jsstring :=
  match s with
  | [] => []
  | c :: s' =>
      if is_high c then
        match s' with
        | d :: s'' =>
            if is_low d then c :: d :: quote_body s''
            else uni_escape c ++ quote_body s'
        | [] => uni_escape c
        end
      else if is_low c then uni_escape c ++ quote_body s'
      else quote_char c ++ quote_body s'
  end.

Definition QuoteJSONString (s : jsstring) : jsstring := 34 :: quote_body s ++ [34].

Definition member (p : jsstring * jsstring) : jsstring :=
  QuoteJSONString (fst p) ++ 58 :: QuoteJSONString (snd p).

Fixpoint members (k : Key) : jsstring :=
  match k with
  | [] => []
  | [p] => member p
  | p :: rest => member p ++ 44 :: members rest
  end.

Definition JSON_stringify (k : Key) : jsstring := 123 :: members k ++ [125].

(** ** [Date.prototype.toISOString]

    A time value is a number of milliseconds since the epoch.  The year
    is, as in ECMA-262, the largest [y] whose first day is not after the
    day of the time value; it is searched upwards from a lower bound. *)

Definition msPerDay : Z := 86400000.

Definition Day (t : Z) : Z := (t / msPerDay)%Z.
Definition TimeWithinDay (t : Z) : Z := (t mod msPerDay)%Z.

Definition DayFromYear (y : Z) : Z :=
  (365 * (y - 1970) + (y - 1969) / 4 - (y - 1901) / 100 + (y - 1601) / 400)%Z.

Fixpoint year_search (fuel : nat) (y day : Z) : Z :=
  match fuel with
  | O => y
  | S fuel' =>
      if (DayFromYear (y + 1) <=? day)%Z then year_search fuel' (y + 1)%Z day else y
  end.

Definition YearFromDay (day : Z) : Z :=
  year_search (Z.to_nat (Z.abs day / 100000 + 2))
              (1970 + (if (0 <=? day)%Z then day / 366 else day / 365))%Z day.

Definition InLeapYear (y : Z) : Z :=
  (DayFromYear (y + 1) - DayFromYear y - 365)%Z.

(** Month (from 0) and date (from 1) of the day [d] of a year, [leap]
    being 1 in a leap year and 0 otherwise. *)
Definition MonthDate (leap d : Z) : Z * Z :=
  (if d <? 31 then (0, d + 1)
   else if d <? 59 + leap then (1, d - 30)
   else if d <? 90 + leap then (2, d - 58 - leap)
   else if d <? 120 + leap then (3, d - 89 - leap)
   else if d <? 151 + leap then (4, d - 119 - leap)
   else if d <? 181 + leap then (5, d - 150 - leap)
   else if d <? 212 + leap then (6, d - 180 - leap)
   else if d <? 243 + leap then (7, d - 211 - leap)
   else if d <? 273 + leap then (8, d - 242 - leap)
   else if d <? 304 + leap then (9, d - 272 - leap)
   else if d <? 334 + leap then (10, d - 303 - leap)
   else (11, d - 333 - leap))%Z.

(** [w] decimal digits, the least significant last. *)
Fixpoint pad (w : nat) (n : Z) : jsstring :=
  match w with
  | O => []
  | S w' => pad w' (n / 10)%Z ++ [Z.to_N (48 + n mod 10)]
  end.

Definition isoYear (y : Z) : jsstring :=
  if ((0 <=? y) && (y <=? 9999))%Z then pad 4 y
  else (if (y <? 0)%Z then 45 else 43) :: pad 6 (Z.abs y).

(** [YYYY-MM-DDTHH:mm:ss.sssZ]. *)
Definition isoFormat (y mo d h mi s ms : Z) : jsstring :=
  isoYear y ++ 45 :: pad 2 mo ++ 45 :: pad 2 d
    ++ 84 :: pad 2 h ++ 58 :: pad 2 mi ++ 58 :: pad 2 s
    ++ 46 :: pad 3 ms ++ [90].

Definition toISOString (t : Z) : jsstring :=
  let y := YearFromDay (Day t) in
  let md := MonthDate (InLeapYear y) (Day t - DayFromYear y)%Z in
  let ms := TimeWithinDay t in
  isoFormat y (fst md + 1)%Z (snd md)
            (ms / 3600000)%Z ((ms / 60000) mod 60)%Z ((ms / 1000) mod 60)%Z
            (ms mod 1000)%Z.

(** ** The data model *)

(** A stored comment.  [postId] is whatever truthy value the request
    carried; the writer never checks that it is a string. *)
Record Comment := mkComment {
  id : jsstring;
  postId : JsValue;
  userId : jsstring;
  username : jsstring;
  text : jsstring;
  createdAt : jsstring }.

(** The body of a response, before [JSON.stringify] is applied to it.
    [details] of an error body stands for [error.message]. *)
Inductive Body :=
| ErrorBody (error message : string) (details : option Exn)
| CommentBody (comment : Comment)
| CommentsBody (comments : list Comment) (lastKey : option jsstring).

(** Every response carries the same three headers (content type and the
    two CORS headers); they are left out. *)
Record Response := mkResponse { statusCode : Z; body : Body }.

Definition nonempty (s : jsstring) : bool :=
  match s with [] => false | _ => true end.

(** ** The document client

    The handlers talk to the store through [ddbDocClient.send] only; the
    store is a parameter of the handlers, as it is a mock in the tests. *)

Module PutCommand.
Record Input := mkInput { TableName : jsstring; Item : Comment }.
End PutCommand.

Module QueryCommand.
Record Input := mkInput {
  TableName : jsstring;
  IndexName : string;
  KeyConditionExpression : string;
  ExpressionAttributeValues : list (string * jsstring);
  ScanIndexForward : bool;
  Limit : Z;
  ExclusiveStartKey : option JsValue }.
Record Output := mkOutput {
  Items : option (list Comment);
  LastEvaluatedKey : option Key }.
End QueryCommand.

Record Store := mkStore {
  Db : Type;
  sendPut : PutCommand.Input -> Db -> Exn + Db;
  sendQuery : QueryCommand.Input -> Db -> Exn + QueryCommand.Output }.

(** ** createComment.js *)

Module CreateComment.

Record User := mkUser { id : jsstring; username : jsstring }.

(** [user] is what the authentication middleware adds to the event. *)
Record Event := mkEvent { body : option jsstring; user : option User }.

Definition MAX_TEXT_LENGTH : nat := 280.

Definition validationError (message : string) : Response :=
  mkResponse 400 (ErrorBody "ValidationError" message None).

(** [const { postId, text } = JSON.parse(event.body)]: reading a property
    of [null] throws, of any other value that is not an object gives
    [undefined]. *)
Definition destructure (v : JsValue)
  : Exn + (option JsValue * option JsValue) :=
  match v with
  | JNull => inl TypeError
  | JObj props => inr (lookup (lit "postId") props, lookup (lit "text") props)
  | _ => inr (None, None)
  end.

Section Handler.
Variable store : Store.
(** [process.env.COMMENTS_TABLE_NAME]. *)
Variable COMMENTS_TABLE_NAME : option jsstring.
(** What [uuidv4()] returns in this call, and the time value of
    [new Date()]. *)
Variable commentId : jsstring.
Variable now : Z.

(** The body of the [try] block. *)
Definition handler_try (event : Event) (db : Db store)
  : Exn + (Response * Db store) :=
  if negb (match body event with Some b => nonempty b | None => false end)
  then inr (validationError "Missing request body", db)
  else
    match JSON_parse (match body event with Some b => b | None => [] end) with
    | inl e => inl e
    | inr parsed =>
    match destructure parsed with
    | inl e => inl e
    | inr (postId, text) =>
    if negb (truthy_opt postId)
    then inr (validationError "Post ID is required", db)
    else if negb (truthy_opt text)
    then inr (validationError "Comment text is required", db)
    else
      match text with
      | Some (JStr text) =>
          if negb (nonempty (trim text))
          then inr (validationError
                 "Comment text cannot be empty or contain only whitespace", db)
          else if (MAX_TEXT_LENGTH <? length text)%nat
          then inr (validationError
                 "Comment text cannot exceed 280 characters", db)
          else
            match COMMENTS_TABLE_NAME with
            | Some ((_ :: _) as commentsTableName) =>
                match user event, postId with
                | Some u, Some postId =>
                    let timestamp := toISOString now in
                    let comment :=
                      mkComment commentId postId (id u) (username u)
                                (trim text) timestamp in
                    match sendPut store (PutCommand.mkInput commentsTableName comment) db with
                    | inl e => inl e
                    | inr db' => inr (mkResponse 201 (CommentBody comment), db')
                    end
                | _, _ => inl TypeError
                end
            | _ => inl (Error "COMMENTS_TABLE_NAME environment variable is not set")
            end
      | _ => inl TypeError     (* [text.trim] is not a function *)
      end
    end
    end.

Definition handler (event : Event) (db : Db store) : Response * Db store :=
  match handler_try event db with
  | inr r => r
  | inl error =>
      (mkResponse 500
         (ErrorBody "InternalServerError" "Error creating comment" (Some error)),
       db)
  end.
End Handler.

End CreateComment.

(** ** getComments.js *)

Module GetComments.

Record PathParameters := mkPath { postId : option jsstring }.
Record QueryStringParameters := mkQuery {
  limit : option jsstring; lastKey : option jsstring }.
Record Event := mkEvent {
  pathParameters : option PathParameters;
  queryStringParameters : option QueryStringParameters }.

(** [parseInt(queryParams.limit) || 50]; an absent parameter is read as
    the string "undefined". *)
Definition parseLimit (limit : option jsstring) : Z :=
  match parseInt (match limit with Some s => s | None => lit "undefined" end) with
  | Some 0%Z | None => 50%Z
  | Some n => n
  end.

(** The inner [try] block: [null] unless the parameter decodes. *)
Definition parseLastKey (lastKey : option jsstring) : JsValue :=
  match lastKey with
  | Some ((_ :: _) as lastKey) =>
      match decodeURIComponent lastKey with
      | inr ((_ :: _) as decodedKey) =>
          match JSON_parse decodedKey with
          | inr v => v
          | inl _ => JNull
          end
      | _ => JNull
      end
  | _ => JNull
  end.

(** [exclusiveStartKey && typeof exclusiveStartKey === 'object' &&
    Object.keys(exclusiveStartKey).length > 0]. *)
Definition usableStartKey (exclusiveStartKey : JsValue) : bool :=
  match exclusiveStartKey with
  | JObj (_ :: _) | JArr (_ :: _) => true
  | _ => false
  end.

Definition dbQueryParams (commentsTableName postId : jsstring) (limit : Z)
           (exclusiveStartKey : JsValue) : QueryCommand.Input :=
  QueryCommand.mkInput commentsTableName "postId-index" "postId = :postId"
    [(":postId"%string, postId)] true limit
    (if usableStartKey exclusiveStartKey then Some exclusiveStartKey else None).

(** The cursor handed back: [null] unless the store named a last key. *)
Definition encodeLastKey (lastEvaluatedKey : option Key) : option jsstring :=
  match lastEvaluatedKey with
  | Some ((_ :: _) as lastEvaluatedKey) =>
      match encodeURIComponent (JSON_stringify lastEvaluatedKey) with
      | inr encoded => Some encoded
      | inl _ => None
      end
  | _ => None
  end.

Section Handler.
Variable store : Store.
Variable COMMENTS_TABLE_NAME : option jsstring.

Definition handler_try (event : Event) (db : Db store) : Exn + Response :=
  match COMMENTS_TABLE_NAME with
  | Some ((_ :: _) as commentsTableName) =>
      match match pathParameters event with
            | Some p => postId p
            | None => None
            end with
      | Some ((_ :: _) as postId) =>
          let queryParams :=
            match queryStringParameters event with
            | Some q => q
            | None => mkQuery None None
            end in
          let limit := parseLimit (limit queryParams) in
          let exclusiveStartKey := parseLastKey (lastKey queryParams) in
          match sendQuery store
                  (dbQueryParams commentsTableName postId limit exclusiveStartKey)
                  db with
          | inl e => inl e
          | inr result =>
              let comments :=
                match QueryCommand.Items result with
                | Some items => items
                | None => []
                end in
              inr (mkResponse 200
                     (CommentsBody comments
                        (encodeLastKey (QueryCommand.LastEvaluatedKey result))))
          end
      | _ =>
          inr (mkResponse 400
                 (ErrorBody "ValidationError" "Post ID is required" None))
      end
  | _ => inl (Error "COMMENTS_TABLE_NAME environment variable is not set")
  end.

Definition handler (event : Event) (db : Db store) : Response :=
  match handler_try event db with
  | inr r => r
  | inl error =>
      mkResponse 500
        (ErrorBody "InternalServerError" "Error retrieving comments" (Some error))
  end.
End Handler.

End GetComments.

(** ** The comments table

    The store behind the document client is not part of the repository.
    The repository declares the table and its index ([deploy-backend.sh]):
    the table is keyed by [id]; the index [postId-index] has the partition
    key [postId] and the sort key [createdAt], and no other. *)

(** [a <= b] and [a < b] on strings. *)
Definition str_leb (a b : jsstring) : bool :=
  match str_cmp a b with Gt => false | _ => true end.

Definition str_ltb (a b : jsstring) : bool :=
  match str_cmp a b with Lt => true | _ => false end.

(** Modelled from the spec: the ordering structure of section 6 as the
    index of the repository has it, by [createdAt] alone (section 9: "the
    original storage layer's native sort key is timestamp-only").  A
    comment enters before the first one whose [createdAt] is not smaller;
    the declaration names no order among comments of one [createdAt], and
    here they stand as they stand in the table. *)
Fixpoint insert (c : Comment) (l : list Comment) : list Comment :=
  match l with
  | [] => [c]
  | x :: l' =>
      if str_leb (createdAt c) (createdAt x) then c :: l else x :: insert c l'
  end.

Fixpoint sort (l : list Comment) : list Comment :=
  match l with
  | [] => []
  | c :: l' => insert c (sort l')
  end.

Definition in_post (pid : jsstring) (c : Comment) : bool :=
  match postId c with
  | JStr p => str_eqb p pid
  | _ => false
  end.

(** Modelled from the spec: the partition of a post (glossary), the
    comments sharing one [postId], in the order of the index; the store
    keeps it, the repository has no code for it. *)
Definition partition (pid : jsstring) (db : list Comment) : list Comment :=
  sort (filter (in_post pid) db).

(** Modelled from the spec: the position of an item (section 3,
    "Cursor"), [createdAt] and [id], with the partition key as the mocks
    of the tests add it: the key attributes of the index and of the
    table. *)
Definition itemKey (pid : jsstring) (c : Comment) : Key :=
  [(lit "id", id c); (lit "postId", pid); (lit "createdAt", createdAt c)].

(** Modelled from the spec: the position a start key names in the
    partition of [pid], when it names one (section 4.2, step 1). *)
Definition keyPosition (pid : jsstring) (v : JsValue) : option (jsstring * jsstring) :=
  match v with
  | JObj props =>
      match lookup (lit "postId") props,
            lookup (lit "createdAt") props, lookup (lit "id") props with
      | Some (JStr p), Some (JStr t), Some (JStr i) =>
          if str_eqb p pid then Some (t, i) else None
      | _, _, _ => None
      end
  | _ => None
  end.

(** What stands behind the item of a position, if the item is there. *)
Fixpoint behind (pos : jsstring * jsstring) (l : list Comment)
  : option (list Comment) :=
  match l with
  | [] => None
  | c :: l' =>
      if str_eqb (createdAt c) (fst pos) && str_eqb (id c) (snd pos)
      then Some l' else behind pos l'
  end.

(** Modelled from the spec: "starting strictly after the decoded
    position" (section 4.2, step 2).  The position of a stored item is
    its place in the scan; a position that names no item of the scan is
    placed by its [createdAt]. *)
Definition startAfter (forward : bool) (pos : jsstring * jsstring)
           (l : list Comment) : list Comment :=
  match behind pos l with
  | Some rest => rest
  | None =>
      filter (fun c => if forward then str_ltb (fst pos) (createdAt c)
                       else str_ltb (createdAt c) (fst pos)) l
  end.

(** Modelled from the spec: one page (section 4.2, step 3): at most [n]
    items, and the key of the last of them when items remain behind it. *)
Definition page (pid : jsstring) (n : nat) (l : list Comment) : QueryCommand.Output :=
  QueryCommand.mkOutput (Some (firstn n l))
    (if (n <? length l)%nat
     then option_map (itemKey pid) (last (map Some (firstn n l)) None)
     else None).

(** Modelled from the spec: the ordered query of section 4.2, steps 2 and
    3, which the repository leaves to the managed store (the tests replace
    it by a mock).  The store answers the one query its index serves: a
    named table, the index [postId-index], the key condition on [postId]
    with its one value.  It scans the partition in the order of the index
    when [ScanIndexForward] is set and in the reverse order otherwise,
    strictly after the start position if there is one, returns up to
    [Limit] comments, and names a last key exactly when more items exist.
    The specification is silent on a limit below one and on a start key
    that names no position; the query fails on both. *)
Definition tableQuery (q : QueryCommand.Input) (db : list Comment)
  : Exn + QueryCommand.Output :=
  if negb (nonempty (QueryCommand.TableName q)
           && String.eqb (QueryCommand.IndexName q) "postId-index"
           && String.eqb (QueryCommand.KeyConditionExpression q)
                         "postId = :postId")
  then inl StorageError
  else
    match QueryCommand.ExpressionAttributeValues q with
    | [(name, pid)] =>
        if negb (String.eqb name ":postId") || (QueryCommand.Limit q <? 1)%Z
        then inl StorageError
        else
          let n := Z.to_nat (QueryCommand.Limit q) in
          let scan :=
            if QueryCommand.ScanIndexForward q then partition pid db
            else rev (partition pid db) in
          match QueryCommand.ExclusiveStartKey q with
          | None => inr (page pid n scan)
          | Some v =>
              match keyPosition pid v with
              | Some pos =>
                  inr (page pid n
                         (startAfter (QueryCommand.ScanIndexForward q) pos scan))
              | None => inl StorageError
              end
          end
    | _ => inl StorageError
    end.

(** Modelled from the spec: the single durable write of section 4.1; the
    table is keyed by [id], so a record with a stored id takes the place
    of the stored one. *)
Fixpoint tablePut (c : Comment) (db : list Comment) : list Comment :=
  match db with
  | [] => [c]
  | x :: db' => if str_eqb (id x) (id c) then c :: db' else x :: tablePut c db'
  end.

Definition tableStore : Store :=
  mkStore (fun p db => inr (tablePut (PutCommand.Item p) db)) tableQuery.

(** ** The client

    The loop of the pagination tests: fetch a page, keep its comments,
    go on with the returned [lastKey] until there is none.  [None] when a
    call does not answer 200 or the fuel runs out. *)
Section Client.
Variable store : Store.
Variable COMMENTS_TABLE_NAME : option jsstring.
Variable db : Db store.
Variable postId : option jsstring.
Variable limit : option jsstring.

Definition request (lastKey : option jsstring) : Response :=
  GetComments.handler store COMMENTS_TABLE_NAME
    (GetComments.mkEvent (Some (GetComments.mkPath postId))
                         (Some (GetComments.mkQuery limit lastKey)))
    db.

Fixpoint fetchPages (fuel : nat) (lastKey : option jsstring)
  : option (list (list Comment)) :=
  match fuel with
  | O => None
  | S fuel' =>
      match request lastKey with
      | mkResponse 200 (CommentsBody comments next) =>
          match next with
          | Some (_ :: _) =>
              option_map (cons comments) (fetchPages fuel' next)
          | _ => Some [comments]
          end
      | _ => None
      end
  end.
End Client.

(** ** The rules of the specification, in its own words *)

(** Section 4.1, "Validation (applied in order; first failure wins)":
    the reason of the first rule a pair of fields breaks, if any.  A field
    is missing when it is absent or falsy. *)
Definition spec_firstFailure (postId text : option JsValue) : option string :=
  if negb (truthy_opt postId) then Some "Post ID is required"%string
  else if negb (truthy_opt text) then Some "Comment text is required"%string
  else
    match text with
    | Some (JStr t) =>
        if str_eqb (trim t) []
        then Some "Comment text cannot be empty or contain only whitespace"%string
        else if (280 <? length t)%nat
        then Some "Comment text cannot exceed 280 characters"%string
        else None
    | _ => None
    end.

(** Section 4.2, step 2, "ordered ascending by [(createdAt, id)]": the
    sort key of the specification and its order, strict since ids differ. *)
Definition spec_sortKey (c : Comment) : jsstring * jsstring := (createdAt c, id c).

Definition key_cmp (a b : jsstring * jsstring) : comparison :=
  match str_cmp (fst a) (fst b) with
  | Eq => str_cmp (snd a) (snd b)
  | r => r
  end.

Definition key_ltb (a b : jsstring * jsstring) : bool :=
  match key_cmp a b with Lt => true | _ => false end.

Definition spec_before (x y : Comment) : Prop :=
  key_ltb (spec_sortKey x) (spec_sortKey y) = true.

(** Section 4.2: a cursor that cannot be decoded, because the percent
    escapes are broken or because what they hide is not JSON. *)
Definition undecodable (cursor : jsstring) : Prop :=
  match decodeURIComponent cursor with
  | inl _ => True
  | inr decoded =>
      match JSON_parse decoded with
      | inl _ => True
      | inr _ => False
      end
  end.

(** The strings of a comment that enter a cursor are strings of code
    units. *)
Definition wfComment (c : Comment) : Prop :=
  wf16 (id c) /\ wf16 (createdAt c).

(** ** Sample requests

    The requests of the unit tests: the table, the caller, the generated
    id, and a body made as the front end makes it, by [JSON.stringify].  *)

Definition testTable : option jsstring := Some (lit "TestCommentsTable").
Definition mockUser : CreateComment.User :=
  CreateComment.mkUser (lit "user-123") (lit "testuser").
Definition mockCommentId : jsstring := lit "comment-789".

(** 2024-01-01T00:00:00.000Z. *)
Definition mockNow : Z := 1704067200000.

(** The mock of the unit tests: a document client that gives every
    command the same answer. *)
Definition mockSend (answer : Exn + QueryCommand.Output) : Store :=
  @mkStore unit
    (fun _ db => match answer with inl e => inl e | inr _ => inr db end)
    (fun _ _ => answer).

Definition noItems : Exn + QueryCommand.Output :=
  inr (QueryCommand.mkOutput (Some []) None).

(** A string between double quotes, for the bodies written by hand. *)
Definition quoted (s : string) : jsstring := 34 :: lit s ++ [34].

Definition getEvent (postId limit lastKey : option jsstring) : GetComments.Event :=
  GetComments.mkEvent (Some (GetComments.mkPath postId))
                      (Some (GetComments.mkQuery limit lastKey)).

Definition createEvent (fields : Key) : CreateComment.Event :=
  CreateComment.mkEvent (Some (JSON_stringify fields)) (Some mockUser).

Definition createComment (fields : Key) (db : list Comment)
  : Response * list Comment :=
  CreateComment.handler tableStore testTable mockCommentId mockNow
                        (createEvent fields) db.

(** Two comments of one post written in the same millisecond; the one
    with the greater id is the one stored first. *)
Definition tiedComment (i : string) : Comment :=
  mkComment (lit i) (JStr (lit "p1")) (lit "user-123") (lit "testuser")
            (lit "Same instant") (toISOString mockNow).

Definition tiedComments : list Comment := [tiedComment "b"; tiedComment "a"].


(** A cursor that is well-formed text but no key: [{"a":"b"}], percent
    encoded. *)
Definition strayCursor : jsstring := lit "%7B%22a%22%3A%22b%22%7D".

(** ** Vocabulary of the proofs *)

(** The tokens the text of a key is made of. *)
Fixpoint key_tokens (k : Key) : list token :=
  match k with
  | [] => []
  | [p] => [TStr (fst p); TColon; TStr (snd p)]
  | p :: rest => TStr (fst p) :: TColon :: TStr (snd p) :: TComma :: key_tokens rest
  end.

(** A key whose attribute names differ and whose strings are strings of
    code units: what a JavaScript object with string values is. *)
Definition wfKey (k : Key) : Prop :=
  NoDup (map fst k) /\ Forall (fun p => wf16 (fst p) /\ wf16 (snd p)) k.

(** Neither half of a surrogate pair. *)
Definition plain (c : N) : Prop := is_high c = false /\ is_low c = false.

(** [x] does not come after [y] in the index: its [createdAt] is not
    greater. *)
Definition notAfter (x y : Comment) : Prop :=
  str_leb (createdAt x) (createdAt y) = true.

(** The cursor the reader hands out when [c] is the last comment of a
    page of the post [pid]. *)
Definition cursorOf (pid : jsstring) (c : Comment) : jsstring :=
  match GetComments.encodeLastKey (Some (itemKey pid c)) with
  | Some cursor => cursor
  | None => []
  end.

(** The cursor that goes with a page [l] cut at [n] items. *)
Definition nextCursor (pid : jsstring) (n : nat) (l : list Comment) : option jsstring :=
  if (n <? length l)%nat
  then option_map (cursorOf pid) (last (map Some (firstn n l)) None)
  else None.

(** Checks by computation, for concrete data. *)
Fixpoint distinct (l : list jsstring) : bool :=
  match l with
  | [] => true
  | x :: l' => negb (existsb (str_eqb x) l') && distinct l'
  end.

Definition wf16b (s : jsstring) : bool := forallb (fun c => c <? 65536) s.

Definition wfCommentb (c : Comment) : bool := wf16b (id c) && wf16b (createdAt c).

(** The comments of the pagination tests: [n] comments of one post, a
    minute apart, from 2024-01-01T00:00:00.000Z on. *)
Definition testComment (post : jsstring) (i : nat) : Comment :=
  mkComment (lit "comment-" ++ pad 3 (Z.of_nat i)) (JStr post)
            (lit "user-" ++ pad 1 (Z.of_nat i)) (lit "testuser")
            (lit "Comment " ++ pad 2 (Z.of_nat i))
            (toISOString (1704067200000 + Z.of_nat i * 60000)).

Definition testComments (post : jsstring) (n : nat) : list Comment :=
  map (testComment post) (seq 0 n).

(** The time values and the days of the years 0 to 9999. *)
Definition minTime : Z := -62167219200000.
Definition maxTime : Z := 253402300799999.
Definition minDay : Z := -719528.
Definition maxDay : Z := 2932896.

(** ** Numbers in template literals

    [Number::toString] of an integer below [10^21] in size: its decimal
    digits, with a minus sign before a negative one.  The fuel is the
    bit length, which is never less than the number of digits. *)

Fixpoint digits_of (fuel : nat) (n : Z) (acc : jsstring) : jsstring :=
  let acc' := Z.to_N (48 + n mod 10) :: acc in
  match fuel with
  | O => acc'
  | S fuel' => if (n <? 10)%Z then acc' else digits_of fuel' (n / 10)%Z acc'
  end.

Definition decimal (n : Z) : jsstring :=
  if (n <? 0)%Z
  then 45 :: digits_of (Z.to_nat (Z.log2 (- n))) (- n)%Z []
  else digits_of (Z.to_nat (Z.log2 n)) n [].

(** A character that cannot end a parameter of a query string: one that
    [encodeURIComponent] leaves alone, or a percent sign. *)
Definition uri_safe (c : N) : bool := uri_unreserved c || (c =? 37).

(** ** More of [String.prototype] *)

Fixpoint startsWith (searchString s : jsstring) : bool :=
  match searchString, s with
  | [], _ => true
  | _ :: _, [] => false
  | x :: searchString', c :: s' => (x =? c) && startsWith searchString' s'
  end.

(** [s.split(separator)] for a separator of one code unit. *)
Fixpoint split (separator : N) (s : jsstring) : list jsstring :=
  match s with
  | [] => [[]]
  | c :: s' =>
      if c =? separator then [] :: split separator s'
      else
        match split separator s' with
        | part :: parts => (c :: part) :: parts
        | [] => [[c]]
        end
  end.

(** [a || b] on values that may be [undefined]. *)
Definition or_ (a b : option JsValue) : option JsValue :=
  if truthy_opt a then a else b.

(** ** common/middleware.js *)

(** The query the middleware sends to the users table, and what it reads
    of the answer: the items, each an object. *)
Module UserQuery.
Record Input := mkInput {
  TableName : jsstring;
  IndexName : string;
  KeyConditionExpression : string;
  ExpressionAttributeValues : list (string * JsValue) }.
Record Output := mkOutput { Items : option (list (list (jsstring * JsValue))) }.
End UserQuery.

(** [GetUserCommand] of the identity provider. *)
Module GetUserCommand.
Record Input := mkInput { AccessToken : jsstring }.
Record AttributeType := mkAttribute { Name : jsstring; Value : option jsstring }.
Record Output := mkOutput { UserAttributes : list AttributeType }.
End GetUserCommand.

Module Middleware.

Record Headers := mkHeaders {
  Authorization : option jsstring;
  authorization : option jsstring }.

(** What the wrapper and the comment writer read of an event. *)
Record Event := mkEvent { headers : option Headers; body : option jsstring }.

(** [event.user] as the wrapper builds it: [id] is an attribute of a
    stored item, [username] a claim of the token or an attribute of the
    identity provider. *)
Record User := mkUser { id : JsValue; username : JsValue }.

(** The body of a 401 answer, before [JSON.stringify]; [error] stands
    for [error.message]. *)
Record Unauthorized := mk401 { message : string; error : option Exn }.

(** [payload['cognito:username'] || payload.username || '']. *)
Definition claimedUsername (payload : JsValue) : Exn + option JsValue :=
  match payload with
  | JNull => inl TypeError
  | JObj props =>
      inr (or_ (or_ (lookup (lit "cognito:username") props)
                    (lookup (lit "username") props))
               (Some (JStr [])))
  | _ => inr (or_ (or_ None None) (Some (JStr [])))
  end.

Section WithAuth.
(** The state the wrapped handler works on and the answers it gives. *)
Variables St R : Type.
(** The wrapped handler, given the event and the [user] added to it.  The
    handlers of the repository catch what they throw. *)
Variable handler : Event -> User -> St -> R * St.
(** [Buffer.from(_, 'base64').toString()]. *)
Variable base64ToString : jsstring -> jsstring.
(** [process.env.USERS_TABLE]. *)
Variable USERS_TABLE : option jsstring.
(** [ddbDocClient.send] and [cognitoClient.send]. *)
Variable sendUserQuery : UserQuery.Input -> Exn + UserQuery.Output.
Variable sendGetUser : GetUserCommand.Input -> Exn + GetUserCommand.Output.

(** From the environment check to [event.user]; the source has this
    passage twice, once for each way of learning the username. *)
Definition findUser (username : JsValue) : Exn + User :=
  match USERS_TABLE with
  | Some ((_ :: _) as usersTableName) =>
      match sendUserQuery
              (UserQuery.mkInput usersTableName "username-index"
                 "username = :username" [(":username"%string, username)]) with
      | inl e => inl e
      | inr userResult =>
          match UserQuery.Items userResult with
          | Some (item :: _) =>
              let userId :=
                match or_ (lookup (lit "id") item) (Some (JStr [])) with
                | Some v => v
                | None => JStr []
                end in
              inr (mkUser userId username)
          | _ => inl (Error "User not found in database")
          end
      end
  | _ => inl (Error "USERS_TABLE environment variable is not set")
  end.

(** The inner [try] block: [inr None] when it ends without a [return]. *)
Definition decode_try (event : Event) (token : jsstring) (st : St)
  : Exn + option (R * St) :=
  match split 46 token with
  | [_; part; _] =>
      match JSON_parse (base64ToString part) with
      | inl e => inl e
      | inr payload =>
          match claimedUsername payload with
          | inl e => inl e
          | inr (Some username) =>
              if truthy username
              then
                match findUser username with
                | inl e => inl e
                | inr user => inr (Some (handler event user st))
                end
              else inr None
          | inr None => inr None
          end
      end
  | _ => inr None
  end.

(** What follows the inner [try]: the identity provider is asked. *)
Definition fallback_try (event : Event) (token : jsstring) (st : St)
  : Exn + (R * St) :=
  match sendGetUser (GetUserCommand.mkInput token) with
  | inl e => inl e
  | inr userInfo =>
      let usernameAttr :=
        find (fun attr =>
                str_eqb (GetUserCommand.Name attr) (lit "preferred_username"))
             (GetUserCommand.UserAttributes userInfo) in
      let username :=
        match usernameAttr with
        | Some attr =>
            match GetUserCommand.Value attr with
            | Some ((_ :: _) as v) => v
            | _ => []
            end
        | None => []
        end in
      match findUser (JStr username) with
      | inl e => inl e
      | inr user => inr (handler event user st)
      end
  end.

(** The outer [try] block. *)
Definition withAuth_try (event : Event) (st : St)
  : Exn + ((Unauthorized + R) * St) :=
  match headers event with
  | None => inl TypeError
  | Some h =>
      let authHeader :=
        match Authorization h with
        | Some (_ :: _) => Authorization h
        | _ => authorization h
        end in
      match authHeader with
      | Some ((_ :: _) as authHeader) =>
          let token :=
            if startsWith (lit "Bearer ") authHeader
            then skipn 7 authHeader else authHeader in
          match decode_try event token st with
          | inr (Some (r, st')) => inr (inr r, st')
          | _ =>
              match fallback_try event token st with
              | inl e => inl e
              | inr (r, st') => inr (inr r, st')
              end
          end
      | _ => inr (inl (mk401 "Missing authorization token" None), st)
      end
  end.

(** [withAuth(handler)]: a 401 answer of its own, or the answer of the
    wrapped handler. *)
Definition withAuth (event : Event) (st : St) : (Unauthorized + R) * St :=
  match withAuth_try event st with
  | inr r => r
  | inl error => (inl (mk401 "Authentication failed" (Some error)), st)
  end.
End WithAuth.

End Middleware.

(** ** services/api.ts: the comments API *)

Module Api.

(** The arguments of [fetch]. *)
Record Request := mkRequest {
  url : jsstring;
  method : string;
  contentType : option string;
  Authorization : jsstring;
  body : option jsstring }.

(** What [handleResponse] reads of a response: the status and the
    outcome of [response.json()]. *)
Record HttpResponse := mkHttp { status : Z; json : Exn + JsValue }.

(** What a call of the API can throw: what [fetch] or [json] threw, or
    [new Error(message)], whose message is the text of [message]. *)
Inductive Failure :=
| Thrown (e : Exn)
| ErrorOf (message : JsValue).

(** [response.ok]. *)
Definition ok (response : HttpResponse) : bool :=
  ((200 <=? status response) && (status response <=? 299))%Z.

Definition handleResponse (response : HttpResponse) : Failure + JsValue :=
  if negb (ok response)
  then
    let errorData :=
      match json response with
      | inr v => v
      | inl _ => JObj []
      end in
    match errorData with
    | JNull => inl (Thrown TypeError)
    | _ =>
        let message :=
          match errorData with
          | JObj props => lookup (lit "message") props
          | _ => None
          end in
        match or_ message
                  (Some (JStr (lit "API error: " ++ decimal (status response)))) with
        | Some m => inl (ErrorOf m)
        | None => inl (ErrorOf (JStr []))
        end
    end
  else
    match json response with
    | inr v => inr v
    | inl e => inl (Thrown e)
    end.

Section Fetch.
(** [API_URL], and [fetch] as far as the API looks at it. *)
Variable API_URL : jsstring.
Variable fetch : Request -> Exn + HttpResponse.

(** [limit] is a whole number when it is given. *)
Definition getCommentsRequest (postId token : jsstring)
           (limit : option Z) (lastKey : option jsstring) : Exn + Request :=
  let limit := match limit with Some n => n | None => 50%Z end in
  let url :=
    API_URL ++ lit "/posts/" ++ postId ++ lit "/comments?limit=" ++ decimal limit in
  match
    match lastKey with
    | Some ((_ :: _) as lastKey) =>
        match encodeURIComponent lastKey with
        | inr e => inr (url ++ lit "&lastKey=" ++ e)
        | inl e => inl e
        end
    | _ => inr url
    end
  with
  | inr url => inr (mkRequest url "GET" None (lit "Bearer " ++ token) None)
  | inl e => inl e
  end.

Definition getComments (postId token : jsstring)
           (limit : option Z) (lastKey : option jsstring) : Failure + JsValue :=
  match getCommentsRequest postId token limit lastKey with
  | inl e => inl (Thrown e)
  | inr request =>
      match fetch request with
      | inl e => inl (Thrown e)
      | inr response => handleResponse response
      end
  end.

Definition createCommentRequest (postId text token : jsstring) : Request :=
  mkRequest (API_URL ++ lit "/posts/" ++ postId ++ lit "/comments") "POST"
            (Some "application/json"%string) (lit "Bearer " ++ token)
            (Some (JSON_stringify [(lit "postId", postId); (lit "text", text)])).

Definition createComment (postId text token : jsstring) : Failure + JsValue :=
  match fetch (createCommentRequest postId text token) with
  | inl e => inl (Thrown e)
  | inr response => handleResponse response
  end.
End Fetch.

End Api.

(** ** components/CommentInput.tsx *)

Module CommentInput.

Definition MAX_COMMENT_LENGTH : Z := 280.

(** The error shown above the text area: a text of the component, or the
    message of what the API threw. *)
Inductive Notice :=
| Fixed (text : string)
| MessageOf (failure : Api.Failure).

Record State := mkState {
  text : jsstring;
  submitting : bool;
  error : option Notice }.

Definition remainingChars (s : State) : Z :=
  MAX_COMMENT_LENGTH - Z.of_nat (length (text s)).

Definition isValid (s : State) : bool :=
  (0 <? length (trim (text s)))%nat
  && (Z.of_nat (length (text s)) <=? MAX_COMMENT_LENGTH)%Z.

(** The class of the counter and the [disabled] attribute of the button. *)
Definition warning (s : State) : bool := (remainingChars s <? 20)%Z.
Definition disabled (s : State) : bool := negb (isValid s) || submitting s.

Section Component.
Variable postId : jsstring.
(** [useAuth().token]. *)
Variable token : option jsstring.
(** [commentsApi.createComment]. *)
Variable createComment : jsstring -> jsstring -> jsstring -> Api.Failure + JsValue.

(** The state when [handleSubmit] is over, and the comment handed to
    [onCommentCreated] if it was called. *)
Definition handleSubmit (s : State) : State * option JsValue :=
  if negb (nonempty (trim (text s)))
  then (mkState (text s) (submitting s) (Some (Fixed "Comment cannot be empty")), None)
  else if (MAX_COMMENT_LENGTH <? Z.of_nat (length (text s)))%Z
  then (mkState (text s) (submitting s)
                (Some (Fixed "Comment cannot exceed 280 characters")), None)
  else
    match token with
    | Some ((_ :: _) as token) =>
        match createComment postId (text s) token with
        | inr newComment => (mkState [] false None, Some newComment)
        | inl err => (mkState (text s) false (Some (MessageOf err)), None)
        end
    | _ =>
        (mkState (text s) (submitting s)
                 (Some (Fixed "You must be logged in to comment")), None)
    end.

Definition handleChange (value : jsstring) (s : State) : State :=
  mkState value (submitting s) None.
End Component.

End CommentInput.

(** ** components/CommentItem.tsx *)

Module CommentItem.

Definition digit (c : N) : option Z :=
  if (48 <=? c) && (c <=? 57) then Some (Z.of_N c - 48)%Z else None.

(** The value of a run of decimal digits. *)
Fixpoint number (acc : Z) (s : jsstring) : option Z :=
  match s with
  | [] => Some acc
  | c :: s' =>
      match digit c with
      | Some d => number (acc * 10 + d)%Z s'
      | None => None
      end
  end.

Definition DaysInMonth (leap m : Z) : Z :=
  (if m =? 2 then 28 + leap
   else if (m =? 4) || (m =? 6) || (m =? 9) || (m =? 11) then 30
   else 31)%Z.

(** The days of the year before the month [m], counted from 1. *)
Definition DaysBefore (leap m : Z) : Z :=
  (if m <=? 1 then 0
   else if m =? 2 then 31
   else if m =? 3 then 59 + leap
   else if m =? 4 then 90 + leap
   else if m =? 5 then 120 + leap
   else if m =? 6 then 151 + leap
   else if m =? 7 then 181 + leap
   else if m =? 8 then 212 + leap
   else if m =? 9 then 243 + leap
   else if m =? 10 then 273 + leap
   else if m =? 11 then 304 + leap
   else 334 + leap)%Z.

(** The complete form [YYYY-MM-DDTHH:mm:ss.sssZ] of the date-time string
    format of ECMA-262, with a date of the calendar and an hour below 24;
    [None] for every other string. *)
Definition utcDateTime (s : jsstring) : option Z :=
  match s with
  | [y1; y2; y3; y4; 45; m1; m2; 45; d1; d2; 84;
     h1; h2; 58; n1; n2; 58; s1; s2; 46; f1; f2; f3; 90] =>
      match number 0 [y1; y2; y3; y4], number 0 [m1; m2], number 0 [d1; d2],
            number 0 [h1; h2], number 0 [n1; n2], number 0 [s1; s2],
            number 0 [f1; f2; f3] with
      | Some y, Some mo, Some d, Some h, Some mi, Some sec, Some ms =>
          if ((1 <=? mo) && (mo <=? 12) && (1 <=? d)
              && (d <=? DaysInMonth (InLeapYear y) mo)
              && (h <=? 23) && (mi <=? 59) && (sec <=? 59))%Z
          then
            Some ((DayFromYear y + DaysBefore (InLeapYear y) mo + d - 1) * msPerDay
                  + h * 3600000 + mi * 60000 + sec * 1000 + ms)%Z
          else None
      | _, _, _, _, _, _, _ => None
      end
  | _ => None
  end.

Section Clock.
(** What [Date.parse] makes of a string that is not of the form above,
    [None] standing for [NaN]: other forms of the format and whatever
    else the engine reads. *)
Variable otherDate : jsstring -> option Z.
(** The time value of [new Date()]. *)
Variable now : Z.

(** The time value of [new Date(dateString)]. *)
Definition Date_parse (dateString : jsstring) : option Z :=
  match utcDateTime dateString with
  | Some t => Some t
  | None => otherDate dateString
  end.

(** The quotients are those of whole numbers; in doubles they are exact
    as long as the two time values are no more than [2^53] apart. *)
Definition formatRelativeTime (dateString : jsstring) : jsstring :=
  match Date_parse dateString with
  | None => lit "NaNy ago"
  | Some date =>
      let diffInSeconds := ((now - date) / 1000)%Z in
      if (diffInSeconds <? 60)%Z then lit "just now"
      else
        let diffInMinutes := (diffInSeconds / 60)%Z in
        if (diffInMinutes <? 60)%Z then decimal diffInMinutes ++ lit "m ago"
        else
          let diffInHours := (diffInMinutes / 60)%Z in
          if (diffInHours <? 24)%Z then decimal diffInHours ++ lit "h ago"
          else
            let diffInDays := (diffInHours / 24)%Z in
            if (diffInDays <? 7)%Z then decimal diffInDays ++ lit "d ago"
            else
              let diffInWeeks := (diffInDays / 7)%Z in
              if (diffInWeeks <? 4)%Z then decimal diffInWeeks ++ lit "w ago"
              else
                let diffInMonths := (diffInDays / 30)%Z in
                if (diffInMonths <? 12)%Z then decimal diffInMonths ++ lit "mo ago"
                else
                  let diffInYears := (diffInDays / 365)%Z in
                  decimal diffInYears ++ lit "y ago"
  end.
End Clock.

End CommentItem.

(** ** Samples for the middleware and the front end

    The doubles of the middleware tests: a users table and an identity
    provider that give every command the same answer, and a wrapped
    handler that answers 200 and keeps the calls it got. *)

(** Base64 of a text in ASCII, the way the tests write the payload of
    their tokens; reading stops at the padding, or at any other
    character outside the alphabet. *)
Definition sextet (c : N) : option N :=
  if (65 <=? c) && (c <=? 90) then Some (c - 65)
  else if (97 <=? c) && (c <=? 122) then Some (c - 71)
  else if (48 <=? c) && (c <=? 57) then Some (c + 4)
  else if c =? 43 then Some 62
  else if c =? 47 then Some 63
  else None.

Fixpoint sextets (s : jsstring) : list N :=
  match s with
  | [] => []
  | c :: s' =>
      match sextet c with
      | Some v => v :: sextets s'
      | None => []
      end
  end.

Fixpoint octets (l : list N) : list N :=
  match l with
  | a :: b :: c :: d :: r =>
      (a * 4 + b / 16) :: ((b mod 16) * 16 + c / 4) :: ((c mod 4) * 64 + d)
        :: octets r
  | [a; b; c] => [a * 4 + b / 16; (b mod 16) * 16 + c / 4]
  | [a; b] => [a * 4 + b / 16]
  | _ => []
  end.

Definition asciiBase64 (s : jsstring) : jsstring := octets (sextets s).

Definition usersTable : option jsstring := Some (lit "TestUsersTable").

Definition mockUserItem : list (jsstring * JsValue) :=
  [(lit "id", JStr (lit "user-123")); (lit "username", JStr (lit "testuser"))].

Definition userFound : Exn + UserQuery.Output :=
  inr (UserQuery.mkOutput (Some [mockUserItem])).

Definition mockHandler (event : Middleware.Event) (user : Middleware.User)
           (calls : list (Middleware.Event * Middleware.User))
  : Z * list (Middleware.Event * Middleware.User) :=
  (200%Z, calls ++ [(event, user)]).

Definition wrappedHandler (users : Exn + UserQuery.Output)
           (provider : Exn + GetUserCommand.Output)
  : Middleware.Event -> list (Middleware.Event * Middleware.User) ->
    (Middleware.Unauthorized + Z) * list (Middleware.Event * Middleware.User) :=
  Middleware.withAuth mockHandler asciiBase64 usersTable
                      (fun _ => users) (fun _ => provider).

(** An event whose [Authorization] header is the given text. *)
Definition authEvent (authHeader : jsstring) : Middleware.Event :=
  Middleware.mkEvent (Some (Middleware.mkHeaders (Some authHeader) None)) None.

(** [header.<payload>.signature], the payload being
    [{"cognito:username":"testuser"}] in base64. *)
Definition mockToken : jsstring :=
  lit "header.eyJjb2duaXRvOnVzZXJuYW1lIjoidGVzdHVzZXIifQ==.signature".

(** * Properties *)

(** ** Strings *)

Lemma str_eqb_refl (a : jsstring) : str_eqb a a = true.
Proof.
  induction a as [|x a IH]; simpl; [reflexivity|].
  now rewrite N.eqb_refl, IH.
Qed.

Lemma str_eqb_eq (a b : jsstring) : str_eqb a b = true <-> a = b.
Proof.
  split.
  - revert b; induction a as [|x a IH]; intros [|y b] H; simpl in H;
      try discriminate; [reflexivity|].
    apply andb_true_iff in H as [Hx Hab].
    apply N.eqb_eq in Hx. apply IH in Hab. now subst.
  - intros ->. apply str_eqb_refl.
Qed.

Lemma str_eqb_neq (a b : jsstring) : str_eqb a b = false <-> a <> b.
Proof.
  split.
  - intros H ->. now rewrite str_eqb_refl in H.
  - intros H. destruct (str_eqb a b) eqn:E; [|reflexivity].
    now apply str_eqb_eq in E.
Qed.

Lemma nonempty_false (s : jsstring) : nonempty s = false <-> s = [].
Proof. destruct s; simpl; split; intros H; try reflexivity; discriminate. Qed.

Lemma trimStart_length (s : jsstring) : (length (trimStart s) <= length s)%nat.
Proof.
  induction s as [|c s IH]; simpl; [lia|].
  destruct (is_ws c); simpl; lia.
Qed.

Lemma trim_length (s : jsstring) : (length (trim s) <= length s)%nat.
Proof.
  unfold trim, trimEnd. rewrite length_rev.
  etransitivity; [apply trimStart_length|].
  rewrite length_rev. apply trimStart_length.
Qed.

(** ** Objects *)

Lemma lookup_obj_set_other (k k' : jsstring) (v : JsValue) props :
  k <> k' -> lookup k (obj_set props k' v) = lookup k props.
Proof.
  intros Hk. induction props as [|[k0 v0] props IH]; simpl.
  - apply str_eqb_neq in Hk. now rewrite Hk.
  - destruct (str_eqb k' k0) eqn:E; simpl.
    + apply str_eqb_eq in E. subst k0.
      apply str_eqb_neq in Hk. now rewrite Hk.
    + now rewrite IH.
Qed.

(** ** createComment.js *)

Section CreateCommentFacts.
Variable store : Store.
Variable COMMENTS_TABLE_NAME : option jsstring.
Variable commentId : jsstring.
Variable now : Z.

Local Abbreviation handler :=
  (CreateComment.handler store COMMENTS_TABLE_NAME commentId now).
Local Abbreviation handler_try :=
  (CreateComment.handler_try store COMMENTS_TABLE_NAME commentId now).

(** What the handler does once the body has been read as JSON and the
    two fields taken out of it. *)
Lemma handler_try_fields event db b v postId text :
  CreateComment.body event = Some b -> nonempty b = true ->
  JSON_parse b = inr v -> CreateComment.destructure v = inr (postId, text) ->
  handler_try event db =
  match spec_firstFailure postId text with
  | Some msg => inr (CreateComment.validationError msg, db)
  | None =>
      match text, postId, COMMENTS_TABLE_NAME, CreateComment.user event with
      | Some (JStr t), Some p, Some ((_ :: _) as tn), Some u =>
          let c := mkComment commentId p (CreateComment.id u)
                             (CreateComment.username u) (trim t)
                             (toISOString now) in
          match sendPut store (PutCommand.mkInput tn c) db with
          | inl e => inl e
          | inr db' => inr (mkResponse 201 (CommentBody c), db')
          end
      | Some (JStr _), _, Some (_ :: _), _ => inl TypeError
      | Some (JStr _), _, _, _ =>
          inl (Error "COMMENTS_TABLE_NAME environment variable is not set")
      | _, _, _, _ => inl TypeError
      end
  end.
Proof.
  intros Hb Hne Hp Hd.
  unfold CreateComment.handler_try, spec_firstFailure.
  rewrite Hb, Hne, Hp, Hd. simpl.
  destruct (truthy_opt postId) eqn:Hpid; simpl; [|reflexivity].
  destruct (truthy_opt text) eqn:Htxt; simpl; [|reflexivity].
  destruct text as [[| | |t| |]|]; try reflexivity.
  destruct (trim t) eqn:Ht; simpl; [reflexivity|].
  unfold CreateComment.MAX_TEXT_LENGTH.
  destruct (280 <? length t)%nat eqn:Hlen; [reflexivity|].
  destruct COMMENTS_TABLE_NAME as [[|c tn]|]; try reflexivity;
    destruct postId; try discriminate; try reflexivity;
    destruct (CreateComment.user event); reflexivity.
Qed.

(** Every way out of the [try] block that is not the 201 at its end hands
    the store back untouched, and is a validation error when it is a 400. *)
Lemma handler_try_exits event db r db' :
  handler_try event db = inr (r, db') ->
  (statusCode r <> 201%Z -> db' = db)
  /\ (statusCode r = 400%Z -> exists msg, r = CreateComment.validationError msg).
Proof.
  unfold CreateComment.handler_try. intros H.
  repeat match type of H with
         | (match ?x with _ => _ end) = _ => destruct x eqn:?
         | (if ?x then _ else _) = _ => destruct x eqn:?
         end;
    simpl in H; try discriminate; inversion H; subst; simpl;
    (split; [intros Hs; try reflexivity; now exfalso
            |intros Hs; try discriminate; eexists; reflexivity]).
Qed.

Lemma handler_no_write event db r db' :
  handler event db = (r, db') -> statusCode r <> 201%Z -> db' = db.
Proof.
  unfold CreateComment.handler. intros H Hs.
  destruct (handler_try event db) as [e|[r0 db0]] eqn:Ht.
  - now inversion H.
  - inversion H; subst. now apply (handler_try_exits _ _ Ht).
Qed.

Lemma handler_400 event db r db' :
  handler event db = (r, db') -> statusCode r = 400%Z ->
  exists msg, r = CreateComment.validationError msg.
Proof.
  unfold CreateComment.handler. intros H Hs.
  destruct (handler_try event db) as [e|[r0 db0]] eqn:Ht.
  - inversion H; subst. discriminate.
  - inversion H; subst. now apply (handler_try_exits _ _ Ht).
Qed.

(** C6.  The validation rules are tried in the order of section 4.1 and
    the first one broken decides the answer; a validation failure is the
    answer of the call itself, a 400 ValidationError, and the store is
    left as it was, as it is by every answer other than 201. *)
Theorem createComment_validation_order event db :
  (forall b v postId text msg,
      CreateComment.body event = Some b -> nonempty b = true ->
      JSON_parse b = inr v ->
      CreateComment.destructure v = inr (postId, text) ->
      spec_firstFailure postId text = Some msg ->
      handler event db = (CreateComment.validationError msg, db))
  /\ (forall r db',
         handler event db = (r, db') -> statusCode r = 400%Z ->
         db' = db /\ exists msg, r = CreateComment.validationError msg)
  /\ (forall r db',
         handler event db = (r, db') -> statusCode r <> 201%Z -> db' = db).
Proof.
  split; [|split].
  - intros b v postId text msg Hb Hne Hp Hd Hf.
    unfold CreateComment.handler.
    rewrite (handler_try_fields event db Hb Hne Hp Hd), Hf. reflexivity.
  - intros r db' H Hs. split.
    + apply (handler_no_write _ _ H). rewrite Hs. discriminate.
    + apply (handler_400 _ _ H Hs).
  - intros r db' H Hs. apply (handler_no_write _ _ H Hs).
Qed.

(** C10.  A body that is there but is not JSON is answered by 500
    InternalServerError, a missing (or empty) body by 400 ValidationError
    before any field is looked at; the store is left as it was by both. *)
Theorem createComment_body_unreadable event db :
  (forall b,
      CreateComment.body event = Some b -> nonempty b = true ->
      (forall v, JSON_parse b <> inr v) ->
      handler event db =
      (mkResponse 500
         (ErrorBody "InternalServerError" "Error creating comment"
                    (Some SyntaxError)), db))
  /\ (CreateComment.body event = None \/ CreateComment.body event = Some [] ->
      handler event db =
      (mkResponse 400 (ErrorBody "ValidationError" "Missing request body" None),
       db)).
Proof.
  split.
  - intros b Hb Hne Hv.
    unfold CreateComment.handler, CreateComment.handler_try.
    rewrite Hb, Hne. simpl.
    unfold JSON_parse in *.
    destruct (lex b) as [ts|]; [|reflexivity].
    destruct (parse_go (PVal []) ts) as [v|]; [|reflexivity].
    exfalso. apply (Hv v). reflexivity.
  - intros [Hb|Hb]; unfold CreateComment.handler, CreateComment.handler_try;
      rewrite Hb; reflexivity.
Qed.

(** A 201 is reached in one way only. *)
Lemma handler_201 event db r db' :
  handler event db = (r, db') -> statusCode r = 201%Z ->
  exists b v p t u tn,
    CreateComment.body event = Some b /\ nonempty b = true
    /\ JSON_parse b = inr v
    /\ CreateComment.destructure v = inr (Some p, Some (JStr t))
    /\ truthy p = true /\ trim t <> [] /\ (length t <= 280)%nat
    /\ CreateComment.user event = Some u
    /\ COMMENTS_TABLE_NAME = Some tn /\ nonempty tn = true
    /\ r = mkResponse 201
             (CommentBody
                (mkComment commentId p (CreateComment.id u)
                           (CreateComment.username u) (trim t)
                           (toISOString now)))
    /\ sendPut store
         (PutCommand.mkInput tn
            (mkComment commentId p (CreateComment.id u)
                       (CreateComment.username u) (trim t) (toISOString now)))
         db = inr db'.
Proof.
  unfold CreateComment.handler, CreateComment.handler_try.
  intros H Hs.
  destruct (CreateComment.body event) as [b|] eqn:Hb; simpl in H;
    [|inversion H; subst; discriminate].
  destruct (nonempty b) eqn:Hne; simpl in H; [|inversion H; subst; discriminate].
  destruct (JSON_parse b) as [e|v] eqn:Hp; [inversion H; subst; discriminate|].
  destruct (CreateComment.destructure v) as [e|[postId text]] eqn:Hd;
    [inversion H; subst; discriminate|].
  destruct (truthy_opt postId) eqn:Hpid; simpl in H;
    [|inversion H; subst; discriminate].
  destruct (truthy_opt text) eqn:Htxt; simpl in H;
    [|inversion H; subst; discriminate].
  destruct text as [[| | |t| |]|]; try (inversion H; subst; discriminate).
  destruct (nonempty (trim t)) eqn:Ht; simpl in H;
    [|inversion H; subst; discriminate].
  destruct (CreateComment.MAX_TEXT_LENGTH <? length t)%nat eqn:Hlen;
    [inversion H; subst; discriminate|].
  destruct COMMENTS_TABLE_NAME as [[|c0 tn]|]; try (inversion H; subst; discriminate).
  destruct (CreateComment.user event) as [u|]; [|inversion H; subst; discriminate].
  destruct postId as [p|]; [|discriminate].
  simpl in H.
  match type of H with
  | (match match ?x with _ => _ end with _ => _ end) = _ => destruct x as [e|db0] eqn:Hput
  end; inversion H; subst.
  - discriminate.
  - exists b, v, p, t, u, (c0 :: tn).
    repeat split; try assumption; try reflexivity.
    + intros E. rewrite E in Ht. discriminate.
    + apply Nat.ltb_ge in Hlen. exact Hlen.
Qed.

(** C5.  The author of a created comment is the caller the middleware
    put on the event, and a [userId] in the payload changes nothing: the
    same request with that property set to any value is answered, and
    recorded, alike. *)
Theorem createComment_author_is_caller event db :
  (forall c db',
      handler event db = (mkResponse 201 (CommentBody c), db') ->
      exists u tn,
        CreateComment.user event = Some u
        /\ userId c = CreateComment.id u
        /\ username c = CreateComment.username u
        /\ sendPut store (PutCommand.mkInput tn c) db = inr db')
  /\ (forall b props b' injected,
         CreateComment.body event = Some b -> nonempty b = true ->
         JSON_parse b = inr (JObj props) ->
         nonempty b' = true ->
         JSON_parse b' = inr (JObj (obj_set props (lit "userId") injected)) ->
         handler (CreateComment.mkEvent (Some b') (CreateComment.user event)) db
         = handler event db).
Proof.
  split.
  - intros c db' H.
    destruct (handler_201 _ _ H eq_refl)
      as (b & v & p & t & u & tn & _ & _ & _ & _ & _ & _ & _ & Hu & _ & _ & Hr & Hput).
    inversion Hr; subst c. exists u, tn. repeat split; assumption.
  - intros b props b' injected Hb Hne Hp Hne' Hp'.
    unfold CreateComment.handler.
    rewrite (handler_try_fields event db Hb Hne Hp eq_refl).
    rewrite (handler_try_fields (CreateComment.mkEvent (Some b') (CreateComment.user event))
               db eq_refl Hne' Hp' eq_refl).
    rewrite !lookup_obj_set_other by (intros E; vm_compute in E; discriminate).
    reflexivity.
Qed.

(** C3, as amended.  The limit of 280 is on the text as sent, before it
    is trimmed: a text of at most 280 code units that is not only white
    space is accepted, and what is stored has between 1 and 280 code
    units; a text of more than 280 code units is rejected, as is a text of
    white space only and the empty text, each by a 400 ValidationError. *)
Theorem createComment_text_limit event db b props p t u tn :
  CreateComment.body event = Some b -> nonempty b = true ->
  JSON_parse b = inr (JObj props) ->
  lookup (lit "postId") props = Some p -> truthy p = true ->
  lookup (lit "text") props = Some (JStr t) ->
  CreateComment.user event = Some u ->
  COMMENTS_TABLE_NAME = Some tn -> nonempty tn = true ->
  let c := mkComment commentId p (CreateComment.id u) (CreateComment.username u)
                     (trim t) (toISOString now) in
  (trim t <> [] -> (length t <= 280)%nat ->
   (1 <= length (text c) <= 280)%nat
   /\ forall db', sendPut store (PutCommand.mkInput tn c) db = inr db' ->
                  handler event db = (mkResponse 201 (CommentBody c), db'))
  /\ ((280 < length t)%nat ->
      exists msg, handler event db = (CreateComment.validationError msg, db))
  /\ (trim t = [] ->
      exists msg, handler event db = (CreateComment.validationError msg, db)).
Proof.
  intros Hb Hne Hp Hpid Htr Htxt Hu Htn Htne c.
  assert (Hh := handler_try_fields event db Hb Hne Hp eq_refl).
  unfold CreateComment.handler. rewrite Hh, Hpid, Htxt. clear Hh.
  unfold spec_firstFailure. simpl truthy_opt. rewrite Htr. simpl negb.
  assert (Ht : truthy (JStr t) = nonempty t) by reflexivity.
  split; [|split].
  - intros Hnw Hlen. split.
    + simpl. pose proof (trim_length t). destruct (trim t); [congruence|simpl in *; lia].
    + intros db' Hput.
      destruct t as [|x t']; [now simpl in Hnw|]. simpl truthy. simpl negb. cbv iota.
      destruct (str_eqb (trim (x :: t')) []) eqn:E;
        [apply str_eqb_eq in E; congruence|].
      apply Nat.ltb_ge in Hlen. rewrite Hlen.
      rewrite Hu, Htn. destruct tn; [discriminate|].
      fold c. simpl. rewrite Hput. reflexivity.
  - intros Hlen. destruct t as [|x t']; [simpl in Hlen; lia|].
    simpl truthy. simpl negb. cbv iota.
    destruct (str_eqb (trim (x :: t')) []); [eexists; reflexivity|].
    apply Nat.ltb_lt in Hlen. rewrite Hlen. eexists; reflexivity.
  - intros Hw. destruct t as [|x t']; [eexists; reflexivity|].
    simpl truthy. simpl negb. cbv iota.
    rewrite Hw. simpl. eexists; reflexivity.
Qed.
End CreateCommentFacts.

Lemma createComment_validation_order_witness :
  createComment [(lit "postId", lit "post-456"); (lit "text", repeat 32 281)] []
  = (CreateComment.validationError
       "Comment text cannot be empty or contain only whitespace", []).
Proof.
  eapply (proj1 (createComment_validation_order tableStore testTable
                   mockCommentId mockNow _ [])).
  - reflexivity.
  - vm_compute. reflexivity.
  - vm_compute. reflexivity.
  - reflexivity.
  - vm_compute. reflexivity.
Defined.

Lemma createComment_body_unreadable_witness :
  CreateComment.handler tableStore testTable mockCommentId mockNow
    (CreateComment.mkEvent (Some (lit "invalid-json{")) (Some mockUser)) []
  = (mkResponse 500
       (ErrorBody "InternalServerError" "Error creating comment"
                  (Some SyntaxError)), []).
Proof.
  eapply (proj1 (createComment_body_unreadable tableStore testTable
                   mockCommentId mockNow _ [])).
  - reflexivity.
  - vm_compute. reflexivity.
  - intros v. vm_compute. discriminate.
Defined.

Lemma createComment_author_is_caller_witness :
  createComment [(lit "postId", lit "post-456"); (lit "text", lit "Test comment");
                 (lit "userId", lit "malicious-user")] []
  = createComment [(lit "postId", lit "post-456"); (lit "text", lit "Test comment")] [].
Proof.
  eapply (proj2 (createComment_author_is_caller tableStore testTable
                   mockCommentId mockNow
                   (createEvent [(lit "postId", lit "post-456");
                                 (lit "text", lit "Test comment")]) [])).
  - reflexivity.
  - vm_compute. reflexivity.
  - vm_compute. reflexivity.
  - vm_compute. reflexivity.
  - vm_compute. reflexivity.
Defined.

(** A text of 280 letters behind one space is 280 code units long once
    trimmed, and is rejected. *)
Lemma createComment_trimmed_280_rejected :
  length (trim (32 :: repeat 97 280)) = 280%nat
  /\ createComment [(lit "postId", lit "post-456");
                    (lit "text", 32 :: repeat 97 280)] []
     = (CreateComment.validationError
          "Comment text cannot exceed 280 characters", []).
Proof. split; vm_compute; reflexivity. Qed.

Lemma createComment_text_limit_witness :
  createComment [(lit "postId", lit "post-456"); (lit "text", repeat 97 280)] []
  = (mkResponse 201
       (CommentBody
          (mkComment mockCommentId (JStr (lit "post-456")) (lit "user-123")
                     (lit "testuser") (repeat 97 280)
                     (lit "2024-01-01T00:00:00.000Z"))),
     [mkComment mockCommentId (JStr (lit "post-456")) (lit "user-123")
                (lit "testuser") (repeat 97 280)
                (lit "2024-01-01T00:00:00.000Z")]).
Proof.
  refine (proj2 (proj1 (createComment_text_limit tableStore mockCommentId mockNow
            (createEvent [(lit "postId", lit "post-456");
                          (lit "text", repeat 97 280)]) []
            (b := JSON_stringify [(lit "postId", lit "post-456");
                                  (lit "text", repeat 97 280)])
            (props := [(lit "postId", JStr (lit "post-456"));
                       (lit "text", JStr (repeat 97 280))])
            (p := JStr (lit "post-456")) (t := repeat 97 280)
            (u := mockUser) (tn := lit "TestCommentsTable")
            _ _ _ _ _ _ _ _ _) _ _) _ _);
    try (vm_compute; reflexivity); vm_compute; discriminate.
Defined.

(** ** getComments.js: the parameters of the query *)

(** The default of 50 stands in for a limit that is absent, that starts
    with no digit, or that reads as zero. *)
Lemma parseLimit_default (limit : jsstring) :
  parseInt limit = None \/ parseInt limit = Some 0%Z ->
  GetComments.parseLimit (Some limit) = 50%Z.
Proof. unfold GetComments.parseLimit. intros [-> | ->]; reflexivity. Qed.

Lemma parseLimit_absent : GetComments.parseLimit None = 50%Z.
Proof. vm_compute. reflexivity. Qed.

(** Any other limit is taken as it reads. *)
Lemma parseLimit_value (limit : jsstring) (n : Z) :
  parseInt limit = Some n -> n <> 0%Z -> GetComments.parseLimit (Some limit) = n.
Proof.
  unfold GetComments.parseLimit. intros -> Hn. destruct n; congruence.
Qed.

(** C7, at the failing input.  A limit of "-10" is not replaced by the
    default: the query is sent with [Limit = -10]. *)
Theorem getComments_negative_limit_kept :
  GetComments.parseLimit (Some (lit "-10")) = (-10)%Z
  /\ QueryCommand.Limit
       (GetComments.dbQueryParams (lit "TestCommentsTable") (lit "post-123")
          (GetComments.parseLimit (Some (lit "-10"))) JNull) = (-10)%Z
  /\ GetComments.parseLimit (Some (lit "0")) = 50%Z
  /\ GetComments.parseLimit (Some (lit "not-a-number")) = 50%Z.
Proof. repeat split; vm_compute; reflexivity. Qed.

Section GetCommentsFacts.
Variable store : Store.
Variable COMMENTS_TABLE_NAME : option jsstring.

Local Abbreviation handler := (GetComments.handler store COMMENTS_TABLE_NAME).

Lemma parseLastKey_undecodable (cursor : jsstring) :
  undecodable cursor -> GetComments.parseLastKey (Some cursor) = JNull.
Proof.
  unfold undecodable, GetComments.parseLastKey.
  destruct cursor as [|c cursor]; [reflexivity|].
  destruct (decodeURIComponent (c :: cursor)) as [e|[|d decoded]]; try reflexivity.
  destruct (JSON_parse (d :: decoded)); [reflexivity|]. intros [].
Qed.

(** The start key reaches the query only through [usableStartKey]. *)
Lemma dbQueryParams_unusable tn pid limit v :
  GetComments.usableStartKey v = false ->
  GetComments.dbQueryParams tn pid limit v
  = GetComments.dbQueryParams tn pid limit JNull.
Proof. unfold GetComments.dbQueryParams. intros ->. reflexivity. Qed.

(** The cursors the guard stops.  A cursor that cannot be decoded (broken
    percent escapes, or not JSON behind them) or that decodes to anything
    but a non-empty object or array is dropped without an error: the call
    is answered as the same call without a cursor, by a query that has no
    start key. *)
Lemma getComments_bad_cursor_ignored pathParameters limit cursor db :
  undecodable cursor
  \/ (exists decoded v,
         decodeURIComponent cursor = inr decoded
         /\ JSON_parse decoded = inr v
         /\ GetComments.usableStartKey v = false) ->
  handler (GetComments.mkEvent pathParameters
             (Some (GetComments.mkQuery limit (Some cursor)))) db
  = handler (GetComments.mkEvent pathParameters
               (Some (GetComments.mkQuery limit None))) db
  /\ forall tn pid,
      QueryCommand.ExclusiveStartKey
        (GetComments.dbQueryParams tn pid (GetComments.parseLimit limit)
           (GetComments.parseLastKey (Some cursor))) = None.
Proof.
  intros H.
  assert (Hu : GetComments.usableStartKey (GetComments.parseLastKey (Some cursor))
               = false).
  { destruct H as [H|(decoded & v & Hd & Hp & Hv)].
    - now rewrite (parseLastKey_undecodable _ H).
    - unfold GetComments.parseLastKey.
      destruct cursor as [|c cursor]; [reflexivity|].
      rewrite Hd. destruct decoded as [|d decoded]; [reflexivity|].
      now rewrite Hp. }
  split.
  - unfold GetComments.handler, GetComments.handler_try.
    cbn [GetComments.queryStringParameters GetComments.pathParameters
         GetComments.limit GetComments.lastKey].
    destruct COMMENTS_TABLE_NAME as [[|t tn]|]; try reflexivity.
    destruct pathParameters as [[[[|p pid]|]]|]; try reflexivity.
    cbn [GetComments.postId].
    change (GetComments.parseLastKey None) with JNull.
    now rewrite (dbQueryParams_unusable _ _ _ _ Hu).
  - intros tn pid. unfold GetComments.dbQueryParams. now rewrite Hu.
Qed.
End GetCommentsFacts.

Lemma getComments_bad_cursor_ignored_witness :
  (forall db,
      GetComments.handler tableStore testTable
        (GetComments.mkEvent (Some (GetComments.mkPath (Some (lit "post-123"))))
           (Some (GetComments.mkQuery None (Some (lit "invalid-json"))))) db
      = GetComments.handler tableStore testTable
          (GetComments.mkEvent (Some (GetComments.mkPath (Some (lit "post-123"))))
             (Some (GetComments.mkQuery None None))) db)
  /\ (forall db,
         GetComments.handler tableStore testTable
           (GetComments.mkEvent (Some (GetComments.mkPath (Some (lit "post-123"))))
              (Some (GetComments.mkQuery None (Some (lit "!@#$%^&*()"))))) db
         = GetComments.handler tableStore testTable
             (GetComments.mkEvent (Some (GetComments.mkPath (Some (lit "post-123"))))
                (Some (GetComments.mkQuery None None))) db).
Proof.
  split; intros db;
    apply (getComments_bad_cursor_ignored tableStore testTable);
    left; vm_compute; exact I.
Defined.

(** C4, at the failing input.  A cursor that can be decoded but is no
    key is not dropped.  The text [{"a":"b"}], percent encoded, gets past
    the guard of the handler, which asks for no more than an object that
    is not empty, and goes to the store as the start key.  The call is then answered by what
    the store makes of that key, and a store that refuses it gives 500.
    The comments table refuses it, as it refuses the array [[1]] and the
    key cut down to its id, while the same call without a cursor is
    answered 200 with the three comments. *)
Theorem getComments_malformed_cursor_forwarded :
  let stray := JObj [(lit "a", JStr (lit "b"))] in
  let call cursor := getEvent (Some (lit "post-123")) None cursor in
  let db := testComments (lit "post-123") 3 in
  GetComments.parseLastKey (Some strayCursor) = stray
  /\ (forall tn pid limit,
         QueryCommand.ExclusiveStartKey
           (GetComments.dbQueryParams tn pid limit
              (GetComments.parseLastKey (Some strayCursor)))
         = Some stray)
  /\ (forall store table,
         GetComments.handler store testTable (call (Some strayCursor)) table
         = match sendQuery store
                   (GetComments.dbQueryParams (lit "TestCommentsTable")
                      (lit "post-123") 50 stray) table with
           | inl e =>
               mkResponse 500
                 (ErrorBody "InternalServerError" "Error retrieving comments"
                            (Some e))
           | inr result =>
               mkResponse 200
                 (CommentsBody
                    (match QueryCommand.Items result with
                     | Some items => items
                     | None => []
                     end)
                    (GetComments.encodeLastKey
                       (QueryCommand.LastEvaluatedKey result)))
           end)
  /\ Forall (fun cursor =>
               GetComments.handler tableStore testTable (call (Some cursor)) db
               = mkResponse 500
                   (ErrorBody "InternalServerError" "Error retrieving comments"
                              (Some StorageError)))
            [strayCursor; lit "%5B1%5D";
             lit "%7B%22id%22%3A%22comment-001%22%7D"]
  /\ GetComments.handler tableStore testTable (call None) db
     = mkResponse 200 (CommentsBody db None).
Proof.
  cbv zeta.
  assert (Hk : GetComments.parseLastKey (Some strayCursor)
               = JObj [(lit "a", JStr (lit "b"))]) by (vm_compute; reflexivity).
  split; [exact Hk|].
  split; [intros tn pid limit; rewrite Hk; reflexivity|].
  split.
  - intros store table.
    unfold GetComments.handler, GetComments.handler_try, testTable, getEvent.
    cbn [GetComments.queryStringParameters GetComments.pathParameters
         GetComments.limit GetComments.lastKey GetComments.postId lit].
    rewrite Hk.
    replace (GetComments.parseLimit None) with 50%Z by (vm_compute; reflexivity).
    destruct (sendQuery store _ table); reflexivity.
  - split; [|vm_compute; reflexivity].
    repeat constructor; vm_compute; reflexivity.
Qed.


(** ** Percent escapes and UTF-8 *)

(** Settles the comparisons of code units that linear arithmetic with
    division by constants decides. *)
Ltac arith := zify; Z.to_euclidean_division_equations; lia.

Ltac settle :=
  repeat match goal with
    | |- context [(?a <? ?b)] =>
        first [ replace (a <? b) with true by (symmetry; apply N.ltb_lt; arith)
              | replace (a <? b) with false by (symmetry; apply N.ltb_ge; arith) ]
    | |- context [(?a <=? ?b)] =>
        first [ replace (a <=? b) with true by (symmetry; apply N.leb_le; arith)
              | replace (a <=? b) with false by (symmetry; apply N.leb_gt; arith) ]
    | |- context [(?a =? ?b)] =>
        first [ replace (a =? b) with true by (symmetry; apply N.eqb_eq; arith)
              | replace (a =? b) with false by (symmetry; apply N.eqb_neq; arith) ]
    end.

(** The same, with the tests that have been settled taken. *)
Ltac settled := repeat (progress (settle; cbn [andb orb negb])).

Lemma hex_val_upper (n : N) : n < 16 -> hex_val (hex_upper n) = Some n.
Proof.
  intros H. unfold hex_val, digit_val, hex_upper.
  destruct (n <? 10) eqn:E.
  - apply N.ltb_lt in E. settled. f_equal. lia.
  - apply N.ltb_ge in E. settled. f_equal. lia.
Qed.

Lemma hex_val_lower (n : N) : n < 16 -> hex_val (hex_lower n) = Some n.
Proof.
  intros H. unfold hex_val, digit_val, hex_lower.
  destruct (n <? 10) eqn:E.
  - apply N.ltb_lt in E. settled. f_equal. lia.
  - apply N.ltb_ge in E. settled. f_equal. lia.
Qed.

Lemma unpercent_pct (b : N) (rest : jsstring) :
  b < 256 ->
  unpercent (pct b ++ rest) = option_map (cons (Oct b)) (unpercent rest).
Proof.
  intros H. unfold pct. cbn [app unpercent]. rewrite N.eqb_refl.
  rewrite !hex_val_upper by arith.
  replace (b / 16 * 16 + b mod 16) with b by arith. reflexivity.
Qed.

Lemma unpercent_raw (c : N) (rest : jsstring) :
  c <> 37 -> unpercent (c :: rest) = option_map (cons (Raw c)) (unpercent rest).
Proof. intros H. cbn [unpercent]. settle. reflexivity. Qed.

(** Octets that came out of percent escapes. *)
Lemma unpercent_octets (bs : list N) (rest : jsstring) :
  Forall (fun b => b < 256) bs ->
  unpercent (flat_map pct bs ++ rest)
  = option_map (app (map Oct bs)) (unpercent rest).
Proof.
  induction 1 as [|b bs Hb _ IH]; cbn [flat_map map].
  - cbn. now destruct (unpercent rest).
  - rewrite <- app_assoc, unpercent_pct, IH by assumption.
    now destruct (unpercent rest).
Qed.

Lemma utf8_octets (cp : N) : cp < 1114112 -> Forall (fun b => b < 256) (utf8 cp).
Proof.
  intros H. unfold utf8.
  destruct (cp <? 128) eqn:E1; [apply N.ltb_lt in E1|apply N.ltb_ge in E1].
  { repeat constructor; arith. }
  destruct (cp <? 2048) eqn:E2; [apply N.ltb_lt in E2|apply N.ltb_ge in E2].
  { repeat constructor; arith. }
  destruct (cp <? 65536) eqn:E3; [apply N.ltb_lt in E3|apply N.ltb_ge in E3];
    repeat constructor; arith.
Qed.

(** Reading back the UTF-8 form of a code point that is no surrogate. *)
Lemma utf8_decode_utf8 (cp : N) (items : list uitem) :
  cp < 1114112 -> ~ (55296 <= cp <= 57343) ->
  utf8_decode (map Oct (utf8 cp) ++ items)
  = option_map (app (utf16 cp)) (utf8_decode items).
Proof.
  intros H Hs. unfold utf8.
  destruct (cp <? 128) eqn:E1; [apply N.ltb_lt in E1|apply N.ltb_ge in E1].
  { cbn [map app utf8_decode]. settled. unfold utf16. settled.
    now destruct (utf8_decode items). }
  destruct (cp <? 2048) eqn:E2; [apply N.ltb_lt in E2|apply N.ltb_ge in E2].
  { cbn [map app utf8_decode cont]. settled.
    replace ((192 + cp / 64 - 192) * 64 + (128 + cp mod 64 - 128)) with cp by arith.
    unfold emit, valid_cp. settled. reflexivity. }
  destruct (cp <? 65536) eqn:E3; [apply N.ltb_lt in E3|apply N.ltb_ge in E3].
  { cbn [map app utf8_decode cont]. settled.
    replace (((224 + cp / 4096 - 224) * 64 + (128 + (cp / 64) mod 64 - 128)) * 64
             + (128 + cp mod 64 - 128)) with cp by arith.
    unfold emit, valid_cp. settled.
    assert (Hsur : (55296 <=? cp) && (cp <=? 57343) = false).
    { destruct (55296 <=? cp) eqn:A; [|reflexivity].
      destruct (cp <=? 57343) eqn:B; [|reflexivity].
      apply N.leb_le in A, B. exfalso. apply Hs. lia. }
    rewrite Hsur. reflexivity. }
  cbn [map app utf8_decode cont]. settled.
  replace ((((240 + cp / 262144 - 240) * 64 + (128 + (cp / 4096) mod 64 - 128)) * 64
            + (128 + (cp / 64) mod 64 - 128)) * 64 + (128 + cp mod 64 - 128))
    with cp by arith.
  unfold emit, valid_cp. settled. reflexivity.
Qed.

Lemma utf16_pair (hi lo : N) :
  is_high hi = true -> is_low lo = true -> utf16 (pair_cp hi lo) = [hi; lo].
Proof.
  unfold is_high, is_low, pair_cp, utf16. intros Hh Hl.
  apply andb_true_iff in Hh as [H1 H2]. apply andb_true_iff in Hl as [H3 H4].
  apply N.leb_le in H1, H2, H3, H4.
  settled. f_equal; [|f_equal]; arith.
Qed.

Lemma pair_cp_range (hi lo : N) :
  is_high hi = true -> is_low lo = true ->
  65536 <= pair_cp hi lo < 1114112.
Proof.
  unfold is_high, is_low, pair_cp. intros Hh Hl.
  apply andb_true_iff in Hh as [H1 H2]. apply andb_true_iff in Hl as [H3 H4].
  apply N.leb_le in H1, H2, H3, H4. lia.
Qed.

Lemma unreserved_not_percent (c : N) : uri_unreserved c = true -> c <> 37.
Proof. intros H ->. vm_compute in H. discriminate. Qed.

Lemma surrogate_not (c : N) :
  is_high c = false -> is_low c = false -> ~ (55296 <= c <= 57343).
Proof.
  unfold is_high, is_low. intros Hh Hl [H1 H2].
  apply andb_false_iff in Hh. apply andb_false_iff in Hl.
  rewrite !N.leb_gt in Hh, Hl. lia.
Qed.

(** What [encode_go] wrote, read back in two passes. *)
Lemma unpercent_encode (n : nat) :
  forall s e, (length s <= n)%nat -> wf16 s -> encode_go s = Some e ->
  exists items, unpercent e = Some items /\ utf8_decode items = Some s.
Proof.
  induction n as [|n IH]; intros s e Hn Hwf He.
  - destruct s; [|simpl in Hn; lia]. inversion He; subst.
    exists []. split; reflexivity.
  - destruct s as [|c s]; [inversion He; subst; exists []; split; reflexivity|].
    simpl in Hn. inversion Hwf as [|? ? Hc Hwf']; subst.
    cbn [encode_go] in He.
    destruct (uri_unreserved c) eqn:Hu.
    { destruct (encode_go s) as [e'|] eqn:He'; [|discriminate].
      inversion He; subst e. clear He.
      destruct (IH s e' ltac:(lia) Hwf' He') as (items & Hi & Hd).
      exists (Raw c :: items). split.
      - rewrite unpercent_raw by now apply unreserved_not_percent.
        now rewrite Hi.
      - cbn [utf8_decode]. now rewrite Hd. }
    destruct (is_low c) eqn:Hl; [discriminate|].
    destruct (is_high c) eqn:Hh.
    { destruct s as [|d s]; [discriminate|].
      destruct (is_low d) eqn:Hld; [|discriminate].
      destruct (encode_go s) as [e'|] eqn:He'; [|discriminate].
      inversion He; subst e. clear He.
      inversion Hwf' as [|? ? Hd' Hwf'']; subst.
      destruct (IH s e' ltac:(simpl in Hn; lia) Hwf'' He') as (items & Hi & Hd).
      pose proof (pair_cp_range _ _ Hh Hld) as Hr.
      exists (map Oct (utf8 (pair_cp c d)) ++ items). split.
      - unfold pct_utf8. rewrite unpercent_octets by (apply utf8_octets; lia).
        now rewrite Hi.
      - rewrite utf8_decode_utf8 by lia.
        rewrite Hd. cbn [option_map]. now rewrite utf16_pair. }
    destruct (encode_go s) as [e'|] eqn:He'; [|discriminate].
    inversion He; subst e. clear He.
    destruct (IH s e' ltac:(lia) Hwf' He') as (items & Hi & Hd).
    exists (map Oct (utf8 c) ++ items). split.
    + unfold pct_utf8. rewrite unpercent_octets by (apply utf8_octets; lia).
      now rewrite Hi.
    + rewrite utf8_decode_utf8 by (try lia; now apply surrogate_not).
      rewrite Hd. cbn [option_map]. unfold utf16. settled. reflexivity.
Qed.

(** [decodeURIComponent] undoes [encodeURIComponent]. *)
Lemma decode_encode (s e : jsstring) :
  wf16 s -> encodeURIComponent s = inr e -> decodeURIComponent e = inr s.
Proof.
  unfold encodeURIComponent, decodeURIComponent. intros Hwf He.
  destruct (encode_go s) as [e'|] eqn:E; [|discriminate].
  inversion He; subst e'.
  destruct (unpercent_encode (le_n (length s)) Hwf E) as (items & Hi & Hd).
  now rewrite Hi, Hd.
Qed.

(** ** Reading back a quoted string *)

Lemma lex_go_silent (st st' : lstate) (c : N) (r : jsstring) :
  lex_step st c = Some (st', []) -> lex_go st (c :: r) = lex_go st' r.
Proof. intros H. cbn [lex_go]. rewrite H. now destruct (lex_go st' r). Qed.

Lemma lex_str_raw (acc : jsstring) (c : N) (r : jsstring) :
  c <> 34 -> c <> 92 -> 32 <= c ->
  lex_go (LStr acc) (c :: r) = lex_go (LStr (c :: acc)) r.
Proof.
  intros H1 H2 H3. apply lex_go_silent. cbn [lex_step]. settled. reflexivity.
Qed.

Lemma lex_str_esc (acc : jsstring) (x y : N) (r : jsstring) :
  x <> 117 -> unescape x = Some y ->
  lex_go (LStr acc) (92 :: x :: r) = lex_go (LStr (y :: acc)) r.
Proof.
  intros Hx Hy.
  rewrite lex_go_silent with (st' := LEsc acc) by reflexivity.
  apply lex_go_silent. cbn [lex_step]. settled. now rewrite Hy.
Qed.

Lemma lex_str_uni (acc : jsstring) (c : N) (r : jsstring) :
  c < 65536 ->
  lex_go (LStr acc) (uni_escape c ++ r) = lex_go (LStr (c :: acc)) r.
Proof.
  intros Hc. unfold uni_escape. cbn [app].
  rewrite lex_go_silent with (st' := LEsc acc) by reflexivity.
  rewrite lex_go_silent with (st' := LUni acc 3 0) by reflexivity.
  rewrite lex_go_silent with (st' := LUni acc 2 (0 * 16 + c / 4096))
    by (cbn [lex_step]; now rewrite hex_val_lower by arith).
  rewrite lex_go_silent with (st' := LUni acc 1 ((0 * 16 + c / 4096) * 16 + (c / 256) mod 16))
    by (cbn [lex_step]; now rewrite hex_val_lower by arith).
  rewrite lex_go_silent with (st' := LUni acc 0 (((0 * 16 + c / 4096) * 16 + (c / 256) mod 16) * 16
                                 + (c / 16) mod 16))
    by (cbn [lex_step]; now rewrite hex_val_lower by arith).
  rewrite lex_go_silent with (st' := LStr (c :: acc)); [reflexivity|].
  cbn [lex_step]. rewrite hex_val_lower by arith.
  do 4 f_equal. arith.
Qed.

Lemma lex_quote_char (acc : jsstring) (c : N) (r : jsstring) :
  c < 65536 ->
  lex_go (LStr acc) (quote_char c ++ r) = lex_go (LStr (c :: acc)) r.
Proof.
  intros Hc. unfold quote_char.
  destruct (c =? 8) eqn:E1;
    [apply N.eqb_eq in E1; subst; now apply lex_str_esc|apply N.eqb_neq in E1].
  destruct (c =? 9) eqn:E2;
    [apply N.eqb_eq in E2; subst; now apply lex_str_esc|apply N.eqb_neq in E2].
  destruct (c =? 10) eqn:E3;
    [apply N.eqb_eq in E3; subst; now apply lex_str_esc|apply N.eqb_neq in E3].
  destruct (c =? 12) eqn:E4;
    [apply N.eqb_eq in E4; subst; now apply lex_str_esc|apply N.eqb_neq in E4].
  destruct (c =? 13) eqn:E5;
    [apply N.eqb_eq in E5; subst; now apply lex_str_esc|apply N.eqb_neq in E5].
  destruct (c =? 34) eqn:E6;
    [apply N.eqb_eq in E6; subst; now apply lex_str_esc|apply N.eqb_neq in E6].
  destruct (c =? 92) eqn:E7;
    [apply N.eqb_eq in E7; subst; now apply lex_str_esc|apply N.eqb_neq in E7].
  destruct (c <? 32) eqn:E8; [now apply lex_str_uni|apply N.ltb_ge in E8].
  now apply lex_str_raw.
Qed.

Lemma high_raw (c : N) : is_high c = true -> c <> 34 /\ c <> 92 /\ 32 <= c.
Proof.
  unfold is_high. intros H. apply andb_true_iff in H as [H _].
  apply N.leb_le in H. lia.
Qed.

Lemma low_raw (c : N) : is_low c = true -> c <> 34 /\ c <> 92 /\ 32 <= c.
Proof.
  unfold is_low. intros H. apply andb_true_iff in H as [H _].
  apply N.leb_le in H. lia.
Qed.

Lemma lex_quote_body (n : nat) :
  forall s acc r, (length s <= n)%nat -> wf16 s ->
  lex_go (LStr acc) (quote_body s ++ 34 :: r)
  = option_map (cons (TStr (rev acc ++ s))) (lex_go LDefault r).
Proof.
  induction n as [|n IH]; intros s acc r Hn Hwf.
  - destruct s; [|simpl in Hn; lia]. cbn [quote_body app lex_go lex_step].
    settled. rewrite app_nil_r. now destruct (lex_go LDefault r).
  - destruct s as [|c s].
    { cbn [quote_body app lex_go lex_step]. settled. rewrite app_nil_r.
      now destruct (lex_go LDefault r). }
    simpl in Hn. inversion Hwf as [|? ? Hc Hwf']; subst.
    assert (Hacc : forall t, rev acc ++ c :: t = rev (c :: acc) ++ t).
    { intros t. cbn [rev]. now rewrite <- app_assoc. }
    cbn [quote_body].
    destruct (is_high c) eqn:Hh.
    + destruct s as [|d s].
      * rewrite lex_str_uni by assumption. rewrite Hacc.
        apply (IH [] (c :: acc) r); [simpl; lia|constructor].
      * destruct (is_low d) eqn:Hl.
        -- inversion Hwf' as [|? ? Hd Hwf'']; subst.
           destruct (high_raw _ Hh) as (A1 & A2 & A3).
           destruct (low_raw _ Hl) as (B1 & B2 & B3).
           cbn [app]. rewrite lex_str_raw, lex_str_raw by assumption.
           rewrite Hacc.
           replace (rev (c :: acc) ++ d :: s) with (rev (d :: c :: acc) ++ s)
             by (cbn [rev]; now rewrite <- !app_assoc).
           apply IH; [simpl in Hn; lia|assumption].
        -- rewrite <- app_assoc, lex_str_uni by assumption. rewrite Hacc.
           apply IH; [lia|assumption].
    + destruct (is_low c) eqn:Hl.
      * rewrite <- app_assoc, lex_str_uni by assumption. rewrite Hacc.
        apply IH; [lia|assumption].
      * rewrite <- app_assoc, lex_quote_char by assumption. rewrite Hacc.
        apply IH; [lia|assumption].
Qed.

(** A quoted string is read as the one string token it stands for. *)
Lemma lex_QuoteJSONString (s r : jsstring) :
  wf16 s ->
  lex_go LDefault (QuoteJSONString s ++ r)
  = option_map (cons (TStr s)) (lex_go LDefault r).
Proof.
  intros Hwf. unfold QuoteJSONString. cbn [app].
  rewrite lex_go_silent with (st' := LStr []) by reflexivity.
  rewrite <- app_assoc. cbn [app].
  now rewrite (@lex_quote_body (length s) s [] r (le_n _) Hwf).
Qed.

(** ** Reading back the text of a key *)

Lemma lex_go_punct (c : N) (t : token) (r : jsstring) :
  lex_default c = Some (LDefault, [t]) ->
  lex_go LDefault (c :: r) = option_map (cons t) (lex_go LDefault r).
Proof. intros H. cbn [lex_go lex_step]. rewrite H. reflexivity. Qed.

Lemma lex_member (p : jsstring * jsstring) (r : jsstring) :
  wf16 (fst p) -> wf16 (snd p) ->
  lex_go LDefault (member p ++ r)
  = option_map (app [TStr (fst p); TColon; TStr (snd p)]) (lex_go LDefault r).
Proof.
  intros Ha Hv. unfold member.
  rewrite <- app_assoc, lex_QuoteJSONString by assumption.
  cbn [app]. rewrite lex_go_punct with (t := TColon) by reflexivity.
  rewrite lex_QuoteJSONString by assumption.
  now destruct (lex_go LDefault r).
Qed.

Lemma lex_members (k : Key) (r : jsstring) :
  Forall (fun p => wf16 (fst p) /\ wf16 (snd p)) k ->
  lex_go LDefault (members k ++ r)
  = option_map (app (key_tokens k)) (lex_go LDefault r).
Proof.
  induction 1 as [|p k [Ha Hv] Hk IH].
  - cbn. now destruct (lex_go LDefault r).
  - destruct k as [|q k].
    + cbn [members key_tokens]. now apply lex_member.
    + change (members (p :: q :: k)) with (member p ++ 44 :: members (q :: k)).
      change (key_tokens (p :: q :: k))
        with ([TStr (fst p); TColon; TStr (snd p)] ++ TComma :: key_tokens (q :: k)).
      rewrite <- app_assoc, lex_member by assumption.
      cbn [app]. rewrite lex_go_punct with (t := TComma) by reflexivity.
      rewrite IH. now destruct (lex_go LDefault r).
Qed.

Lemma lex_JSON_stringify (k : Key) :
  Forall (fun p => wf16 (fst p) /\ wf16 (snd p)) k ->
  lex (JSON_stringify k) = Some (TLBrace :: key_tokens k ++ [TRBrace]).
Proof.
  intros Hk. unfold lex, JSON_stringify.
  rewrite lex_go_punct with (t := TLBrace) by reflexivity.
  rewrite lex_members by assumption. reflexivity.
Qed.

Lemma obj_set_fresh (acc : list (jsstring * JsValue)) (a : jsstring) (v : JsValue) :
  ~ In a (map fst acc) -> obj_set acc a v = acc ++ [(a, v)].
Proof.
  induction acc as [|[a' v'] acc IH]; intros Hin; [reflexivity|].
  cbn [obj_set app]. cbn [map fst In] in Hin.
  destruct (str_eqb a a') eqn:E.
  - apply str_eqb_eq in E. exfalso. apply Hin. now left.
  - rewrite IH; [reflexivity|]. intros H. apply Hin. now right.
Qed.

Lemma parse_key_tokens (k : Key) :
  forall acc p,
    NoDup (map fst acc ++ map fst (p :: k)) ->
    parse_go (PKey [] acc) (key_tokens (p :: k) ++ [TRBrace])
    = Some (JObj (acc ++ map (fun q => (fst q, JStr (snd q))) (p :: k))).
Proof.
  induction k as [|q k IH]; intros acc p Hnd.
  - cbn [key_tokens app parse_go parse_step parse_value complete map].
    rewrite obj_set_fresh; [reflexivity|].
    apply NoDup_remove_2 in Hnd. rewrite app_nil_r in Hnd. exact Hnd.
  - change (key_tokens (p :: q :: k))
      with (TStr (fst p) :: TColon :: TStr (snd p) :: TComma :: key_tokens (q :: k)).
    cbn [app parse_go parse_step parse_value complete].
    rewrite obj_set_fresh.
    + rewrite IH.
      * cbn [map]. now rewrite <- app_assoc.
      * rewrite map_app. cbn [map fst]. rewrite <- app_assoc. exact Hnd.
    + apply NoDup_remove_2 in Hnd. intros H. apply Hnd.
      apply in_or_app. now left.
Qed.

(** [JSON.parse] undoes [JSON.stringify] on a key. *)
Lemma parse_stringify (k : Key) :
  wfKey k -> JSON_parse (JSON_stringify k) = inr (key_value k).
Proof.
  intros [Hnd Hwf]. unfold JSON_parse. rewrite lex_JSON_stringify by assumption.
  destruct k as [|p k]; [reflexivity|].
  change (parse_go (PVal []) (TLBrace :: key_tokens (p :: k) ++ [TRBrace]))
    with (parse_go (PObj0 []) (key_tokens (p :: k) ++ [TRBrace])).
  replace (parse_go (PObj0 []) (key_tokens (p :: k) ++ [TRBrace]))
    with (parse_go (PKey [] []) (key_tokens (p :: k) ++ [TRBrace]))
    by (destruct k; reflexivity).
  rewrite parse_key_tokens by exact Hnd. reflexivity.
Qed.

(** ** The text of a key can always be encoded *)

Lemma encode_plain (c : N) (r : jsstring) :
  plain c -> encode_go r <> None -> encode_go (c :: r) <> None.
Proof.
  intros [Hh Hl] Hr. cbn [encode_go]. rewrite Hh, Hl.
  destruct (encode_go r); [|congruence].
  destruct (uri_unreserved c); discriminate.
Qed.

Lemma encode_plain_app (l r : jsstring) :
  Forall plain l -> encode_go r <> None -> encode_go (l ++ r) <> None.
Proof.
  induction 1; intros Hr; [exact Hr|].
  cbn [app]. apply encode_plain; auto.
Qed.

Lemma encode_pair (c d : N) (r : jsstring) :
  is_high c = true -> is_low d = true ->
  encode_go r <> None -> encode_go (c :: d :: r) <> None.
Proof.
  intros Hh Hl Hr. cbn [encode_go].
  assert (Hu : uri_unreserved c = false).
  { unfold is_high in Hh. apply andb_true_iff in Hh as [H _].
    apply N.leb_le in H. unfold uri_unreserved, is_alnum, is_digit. settled.
    reflexivity. }
  assert (Hl' : is_low c = false).
  { unfold is_high in Hh. apply andb_true_iff in Hh as [_ H].
    apply N.leb_le in H. unfold is_low. settled. reflexivity. }
  rewrite Hu, Hl', Hh, Hl. destruct (encode_go r); [discriminate|congruence].
Qed.

Lemma plain_small (c : N) : c < 55296 -> plain c.
Proof. intros H. unfold plain, is_high, is_low. settled. now split. Qed.

Lemma hex_lower_small (n : N) : n < 16 -> hex_lower n < 55296.
Proof. intros H. unfold hex_lower. destruct (n <? 10); lia. Qed.

Lemma uni_escape_plain (c : N) : c < 65536 -> Forall plain (uni_escape c).
Proof.
  intros H. unfold uni_escape.
  repeat constructor; apply plain_small; try lia; apply hex_lower_small; arith.
Qed.

Lemma quote_char_plain (c : N) :
  c < 65536 -> is_high c = false -> is_low c = false -> Forall plain (quote_char c).
Proof.
  intros H Hh Hl. unfold quote_char.
  repeat match goal with
         | |- context [if ?b then _ else _] => destruct b
         end; try (repeat constructor; apply plain_small; lia).
  - now apply uni_escape_plain.
  - repeat constructor; assumption.
Qed.

Lemma encode_quote_body (n : nat) :
  forall s r, (length s <= n)%nat -> wf16 s ->
  encode_go r <> None -> encode_go (quote_body s ++ r) <> None.
Proof.
  induction n as [|n IH]; intros s r Hn Hwf Hr.
  - destruct s; [exact Hr|simpl in Hn; lia].
  - destruct s as [|c s]; [exact Hr|].
    simpl in Hn. inversion Hwf as [|? ? Hc Hwf']; subst.
    cbn [quote_body].
    destruct (is_high c) eqn:Hh.
    + destruct s as [|d s].
      * apply encode_plain_app; [now apply uni_escape_plain|exact Hr].
      * destruct (is_low d) eqn:Hl.
        -- inversion Hwf' as [|? ? Hd Hwf'']; subst. cbn [app].
           apply encode_pair; try assumption.
           apply IH; [simpl in Hn; lia|assumption|exact Hr].
        -- rewrite <- app_assoc.
           apply encode_plain_app; [now apply uni_escape_plain|].
           apply IH; [lia|assumption|exact Hr].
    + destruct (is_low c) eqn:Hl; rewrite <- app_assoc.
      * apply encode_plain_app; [now apply uni_escape_plain|].
        apply IH; [lia|assumption|exact Hr].
      * apply encode_plain_app; [now apply quote_char_plain|].
        apply IH; [lia|assumption|exact Hr].
Qed.

Lemma encode_QuoteJSONString (s r : jsstring) :
  wf16 s -> encode_go r <> None -> encode_go (QuoteJSONString s ++ r) <> None.
Proof.
  intros Hwf Hr. unfold QuoteJSONString. cbn [app].
  apply encode_plain; [apply plain_small; lia|].
  rewrite <- app_assoc.
  apply (@encode_quote_body (length s)); [lia|assumption|].
  cbn [app]. apply encode_plain; [apply plain_small; lia|exact Hr].
Qed.

Lemma encode_members (k : Key) (r : jsstring) :
  Forall (fun p => wf16 (fst p) /\ wf16 (snd p)) k ->
  encode_go r <> None -> encode_go (members k ++ r) <> None.
Proof.
  induction 1 as [|p k [Ha Hv] Hk IH]; intros Hr; [exact Hr|].
  assert (Hm : forall r', encode_go r' <> None -> encode_go (member p ++ r') <> None).
  { intros r' Hr'. unfold member. rewrite <- app_assoc.
    apply encode_QuoteJSONString; [assumption|]. cbn [app].
    apply encode_plain; [apply plain_small; lia|].
    now apply encode_QuoteJSONString. }
  destruct k as [|q k].
  - cbn [members]. now apply Hm.
  - change (members (p :: q :: k)) with (member p ++ 44 :: members (q :: k)).
    rewrite <- app_assoc. apply Hm. cbn [app].
    apply encode_plain; [apply plain_small; lia|]. now apply IH.
Qed.

Lemma encode_JSON_stringify (k : Key) :
  Forall (fun p => wf16 (fst p) /\ wf16 (snd p)) k ->
  exists e, encodeURIComponent (JSON_stringify k) = inr e /\ e <> [].
Proof.
  intros Hk. unfold encodeURIComponent.
  assert (H : encode_go (JSON_stringify k) <> None).
  { unfold JSON_stringify. apply encode_plain; [apply plain_small; lia|].
    apply encode_members; [assumption|].
    cbn. discriminate. }
  destruct (encode_go (JSON_stringify k)) as [e|] eqn:E; [|congruence].
  exists e. split; [reflexivity|].
  intros ->. unfold JSON_stringify in E. cbn in E.
  destruct (encode_go (members k ++ [125])); discriminate.
Qed.

(** ** The cursor *)

Lemma wf16_app (a b : jsstring) : wf16 a -> wf16 b -> wf16 (a ++ b).
Proof. unfold wf16. intros Ha Hb. apply Forall_app. now split. Qed.

Lemma wf16_uni_escape (c : N) : c < 65536 -> wf16 (uni_escape c).
Proof.
  intros H. unfold uni_escape.
  repeat constructor; try lia;
    (eapply N.lt_trans; [apply hex_lower_small; arith|lia]).
Qed.

Lemma wf16_quote_char (c : N) : c < 65536 -> wf16 (quote_char c).
Proof.
  intros H. unfold quote_char.
  repeat match goal with
         | |- context [if ?b then _ else _] => destruct b
         end; try (repeat constructor; lia).
  now apply wf16_uni_escape.
Qed.

Lemma wf16_quote_body (n : nat) :
  forall s, (length s <= n)%nat -> wf16 s -> wf16 (quote_body s).
Proof.
  induction n as [|n IH]; intros s Hn Hwf.
  - destruct s; [constructor|simpl in Hn; lia].
  - destruct s as [|c s]; [constructor|].
    simpl in Hn. inversion Hwf as [|? ? Hc Hwf']; subst.
    cbn [quote_body].
    destruct (is_high c).
    + destruct s as [|d s]; [now apply wf16_uni_escape|].
      destruct (is_low d).
      * inversion Hwf' as [|? ? Hd Hwf'']; subst.
        constructor; [assumption|]. constructor; [assumption|].
        apply IH; [simpl in Hn; lia|assumption].
      * apply wf16_app; [now apply wf16_uni_escape|].
        apply IH; [lia|assumption].
    + destruct (is_low c); apply wf16_app;
        try (now apply wf16_uni_escape); try (now apply wf16_quote_char);
        apply IH; try lia; assumption.
Qed.

Lemma wf16_QuoteJSONString (s : jsstring) : wf16 s -> wf16 (QuoteJSONString s).
Proof.
  intros H. unfold QuoteJSONString. constructor; [lia|].
  apply wf16_app; [|repeat constructor; lia].
  now apply (@wf16_quote_body (length s)).
Qed.

Lemma wf16_JSON_stringify (k : Key) :
  Forall (fun p => wf16 (fst p) /\ wf16 (snd p)) k -> wf16 (JSON_stringify k).
Proof.
  intros Hk. unfold JSON_stringify. constructor; [lia|].
  apply wf16_app; [|repeat constructor; lia].
  induction Hk as [|p k [Ha Hv] Hk IH]; [constructor|].
  assert (Hm : wf16 (member p)).
  { unfold member. apply wf16_app; [now apply wf16_QuoteJSONString|].
    constructor; [lia|]. now apply wf16_QuoteJSONString. }
  destruct k as [|q k]; [exact Hm|].
  change (members (p :: q :: k)) with (member p ++ 44 :: members (q :: k)).
  apply wf16_app; [exact Hm|]. constructor; [lia|exact IH].
Qed.

Lemma JSON_stringify_nonempty (k : Key) : JSON_stringify k <> [].
Proof. discriminate. Qed.

(** The cursor made from a key leads back to the key. *)
Lemma cursor_of_key (k : Key) :
  k <> [] -> wfKey k ->
  exists cursor,
    GetComments.encodeLastKey (Some k) = Some cursor
    /\ cursor <> []
    /\ decodeURIComponent cursor = inr (JSON_stringify k)
    /\ GetComments.parseLastKey (Some cursor) = key_value k.
Proof.
  intros Hne Hwf. pose proof Hwf as [Hnd Hstr].
  destruct (encode_JSON_stringify Hstr) as (e & He & Hene).
  exists e.
  assert (Hd : decodeURIComponent e = inr (JSON_stringify k)).
  { apply decode_encode; [now apply wf16_JSON_stringify|exact He]. }
  repeat split.
  - unfold GetComments.encodeLastKey. destruct k; [congruence|]. now rewrite He.
  - exact Hene.
  - exact Hd.
  - unfold GetComments.parseLastKey. destruct e as [|c e]; [congruence|].
    rewrite Hd. unfold JSON_stringify at 1.
    change (123 :: members k ++ [125]) with (JSON_stringify k).
    now rewrite parse_stringify.
Qed.

(** Whatever the store, the response carries a cursor exactly when the
    store named a last key. *)
Lemma encodeLastKey_none (lastEvaluatedKey : option Key) :
  (forall k, lastEvaluatedKey = Some k -> wfKey k) ->
  (GetComments.encodeLastKey lastEvaluatedKey = None
   <-> lastEvaluatedKey = None \/ lastEvaluatedKey = Some []).
Proof.
  intros Hwf. destruct lastEvaluatedKey as [[|p k]|]; simpl.
  - split; auto.
  - destruct (@cursor_of_key (p :: k) ltac:(discriminate) (Hwf _ eq_refl))
      as (cursor & He & _).
    simpl in He. rewrite He. split; [discriminate|]. intros [H|H]; discriminate.
  - split; auto.
Qed.

(** C9.  The cursor returned with a page is the last key of the store put
    through [JSON.stringify] and [encodeURIComponent]; given back as the
    [lastKey] parameter it decodes to that very key, which is the start
    key of the next query. *)
Theorem cursor_round_trip (k : Key) :
  k <> [] -> wfKey k ->
  exists cursor,
    GetComments.encodeLastKey (Some k) = Some cursor
    /\ GetComments.parseLastKey (Some cursor) = key_value k
    /\ forall tn pid limit,
        QueryCommand.ExclusiveStartKey
          (GetComments.dbQueryParams tn pid limit
             (GetComments.parseLastKey (Some cursor)))
        = Some (key_value k).
Proof.
  intros Hne Hwf.
  destruct (cursor_of_key Hne Hwf) as (cursor & He & _ & _ & Hp).
  exists cursor. repeat split; try assumption.
  intros tn pid limit. rewrite Hp. unfold GetComments.dbQueryParams.
  destruct k as [|p k]; [congruence|]. reflexivity.
Qed.

(** ** The order of the index *)

Lemma str_cmp_eq (a b : jsstring) : str_cmp a b = Eq <-> a = b.
Proof.
  revert b. induction a as [|x a IH]; intros [|y b]; simpl;
    try (split; [discriminate|congruence]); [split; reflexivity|].
  destruct (x ?= y) eqn:E.
  - apply N.compare_eq in E. subst y. rewrite IH.
    split; congruence.
  - split; [discriminate|]. intros H. inversion H; subst.
    rewrite N.compare_refl in E. discriminate.
  - split; [discriminate|]. intros H. inversion H; subst.
    rewrite N.compare_refl in E. discriminate.
Qed.

Lemma str_cmp_antisym (a b : jsstring) : str_cmp b a = CompOpp (str_cmp a b).
Proof.
  revert b. induction a as [|x a IH]; intros [|y b]; simpl; try reflexivity.
  rewrite (N.compare_antisym x y).
  destruct (x ?= y); simpl; [apply IH|reflexivity|reflexivity].
Qed.

Lemma str_cmp_trans (a b c : jsstring) :
  str_cmp a b = Lt -> str_cmp b c = Lt -> str_cmp a c = Lt.
Proof.
  revert b c. induction a as [|x a IH]; intros [|y b] [|z c]; simpl;
    try discriminate; try reflexivity.
  destruct (x ?= y) eqn:E1; try discriminate.
  - apply N.compare_eq in E1. subst y.
    destruct (x ?= z); try discriminate; [apply IH|reflexivity].
  - intros _. destruct (y ?= z) eqn:E2; try discriminate.
    + apply N.compare_eq in E2. subst z. now rewrite E1.
    + intros _. rewrite N.compare_lt_iff in *.
      replace (x ?= z) with Lt; [reflexivity|].
      symmetry. apply N.compare_lt_iff. lia.
Qed.

Lemma str_leb_trans (a b c : jsstring) :
  str_leb a b = true -> str_leb b c = true -> str_leb a c = true.
Proof.
  unfold str_leb. intros H1 H2.
  destruct (str_cmp a b) eqn:E1; try discriminate.
  - apply str_cmp_eq in E1. now subst b.
  - destruct (str_cmp b c) eqn:E2; try discriminate.
    + apply str_cmp_eq in E2. subst c. now rewrite E1.
    + now rewrite (str_cmp_trans _ _ _ E1 E2).
Qed.

Lemma str_leb_total (a b : jsstring) : str_leb a b = false -> str_leb b a = true.
Proof.
  unfold str_leb. rewrite (str_cmp_antisym a b).
  destruct (str_cmp a b); simpl; congruence.
Qed.

Lemma notAfter_trans (x y z : Comment) : notAfter x y -> notAfter y z -> notAfter x z.
Proof. apply str_leb_trans. Qed.

Lemma insert_perm (c : Comment) (l : list Comment) : Permutation (insert c l) (c :: l).
Proof.
  induction l as [|x l IH]; simpl; [reflexivity|].
  destruct (str_leb (createdAt c) (createdAt x)); [reflexivity|].
  rewrite IH. apply perm_swap.
Qed.

Lemma sort_perm (l : list Comment) : Permutation (sort l) l.
Proof.
  induction l as [|c l IH]; simpl; [reflexivity|].
  rewrite insert_perm. now constructor.
Qed.

Lemma insert_sorted (c : Comment) (l : list Comment) :
  StronglySorted notAfter l -> StronglySorted notAfter (insert c l).
Proof.
  induction 1 as [|x l Hs IH Hx]; simpl.
  - repeat constructor.
  - destruct (str_leb (createdAt c) (createdAt x)) eqn:E.
    + constructor; [now constructor|].
      constructor; [exact E|].
      eapply Forall_impl; [|exact Hx].
      intros y Hy. eapply notAfter_trans; eassumption.
    + constructor; [exact IH|].
      apply (Permutation_Forall (Permutation_sym (insert_perm c l))).
      constructor; [|exact Hx].
      now apply str_leb_total.
Qed.

Lemma sort_sorted (l : list Comment) : StronglySorted notAfter (sort l).
Proof.
  induction l as [|c l IH]; simpl; [constructor|now apply insert_sorted].
Qed.

(** Where no two comments share a [createdAt], the order of the index is
    the order of the specification. *)
Lemma sorted_spec_order (l : list Comment) :
  StronglySorted notAfter l -> NoDup (map createdAt l) ->
  StronglySorted spec_before l.
Proof.
  induction 1 as [|x l Hs IH Hx]; intros Hnd; [constructor|].
  inversion Hnd as [|? ? Hin Hnd']; subst.
  constructor; [now apply IH|].
  rewrite Forall_forall in *. intros y Hy.
  specialize (Hx y Hy). unfold notAfter, str_leb in Hx.
  unfold spec_before, key_ltb, key_cmp, spec_sortKey. cbn [fst snd].
  destruct (str_cmp (createdAt x) (createdAt y)) eqn:E;
    [|reflexivity|discriminate].
  apply str_cmp_eq in E. exfalso. apply Hin. rewrite E. now apply in_map.
Qed.

(** Dropping comments keeps their ids apart. *)
Lemma filter_ids (keep : Comment -> bool) (l : list Comment) :
  NoDup (map id l) -> NoDup (map id (filter keep l)).
Proof.
  induction l as [|x l IH]; simpl; intros H; [constructor|].
  inversion H as [|? ? Hin Hnd]; subst.
  destruct (keep x); simpl; [|now apply IH].
  constructor; [|now apply IH].
  intros Hx. apply Hin. apply in_map_iff in Hx as (y & Hy & Hyin).
  apply in_map_iff. exists y. split; [exact Hy|].
  now apply filter_In in Hyin.
Qed.

Lemma partition_perm (pid : jsstring) (db : list Comment) :
  Permutation (partition pid db) (filter (in_post pid) db).
Proof. apply sort_perm. Qed.

Lemma partition_ids (pid : jsstring) (db : list Comment) :
  NoDup (map id db) -> NoDup (map id (partition pid db)).
Proof.
  intros H.
  apply (Permutation_NoDup
           (Permutation_map id (Permutation_sym (partition_perm pid db)))).
  now apply filter_ids.
Qed.

(** The partition of a post is in ascending order of [createdAt]. *)
Lemma partition_sorted (pid : jsstring) (db : list Comment) :
  StronglySorted notAfter (partition pid db).
Proof. apply sort_sorted. Qed.

(** Where ids differ, what stands behind the position of an item is what
    stands behind the item, whichever way the scan goes. *)
Lemma behind_split (a b : list Comment) (x : Comment) :
  NoDup (map id (a ++ x :: b)) ->
  behind (createdAt x, id x) (a ++ x :: b) = Some b.
Proof.
  induction a as [|y a IH]; cbn [app behind fst snd map]; intros H.
  - now rewrite !str_eqb_refl.
  - inversion H as [|? ? Hin Hnd]; subst.
    destruct (str_eqb (id y) (id x)) eqn:E.
    + apply str_eqb_eq in E. exfalso. apply Hin. rewrite E.
      rewrite map_app. apply in_or_app. right. now left.
    + rewrite andb_false_r. now apply IH.
Qed.

Lemma startAfter_split (forward : bool) (a b : list Comment) (x : Comment) :
  NoDup (map id (a ++ x :: b)) ->
  startAfter forward (createdAt x, id x) (a ++ x :: b) = b.
Proof. intros H. unfold startAfter. now rewrite behind_split. Qed.

(** ** Pages of the comments table *)

Lemma wfKey_itemKey (pid : jsstring) (c : Comment) :
  wf16 pid -> wfComment c -> wfKey (itemKey pid c).
Proof.
  intros Hpid [Hid Hat]. split.
  - repeat constructor; simpl; intuition discriminate.
  - repeat constructor; simpl; try assumption;
      apply Forall_forall; intros x Hx; simpl in Hx;
      repeat (destruct Hx as [<-|Hx]; [reflexivity|]); destruct Hx.
Qed.

Lemma cursorOf_spec (pid : jsstring) (c : Comment) :
  wf16 pid -> wfComment c ->
  GetComments.encodeLastKey (Some (itemKey pid c)) = Some (cursorOf pid c)
  /\ cursorOf pid c <> []
  /\ GetComments.parseLastKey (Some (cursorOf pid c)) = key_value (itemKey pid c).
Proof.
  intros Hpid Hc.
  destruct (@cursor_of_key (itemKey pid c) ltac:(discriminate)
              (wfKey_itemKey Hpid Hc)) as (cur & He & Hne & _ & Hp).
  unfold cursorOf. rewrite He. now repeat split.
Qed.

Lemma keyPosition_itemKey (pid : jsstring) (c : Comment) :
  keyPosition pid (key_value (itemKey pid c)) = Some (createdAt c, id c).
Proof.
  unfold keyPosition, key_value, itemKey. cbn [map fst snd].
  replace (lookup (lit "postId") _) with (Some (JStr pid)) by reflexivity.
  replace (lookup (lit "createdAt") _) with (Some (JStr (createdAt c)))
    by reflexivity.
  replace (lookup (lit "id") _) with (Some (JStr (id c))) by reflexivity.
  now rewrite str_eqb_refl.
Qed.

Lemma last_Some_In (A : Type) (l : list A) (x : A) :
  last (map Some l) None = Some x -> In x l.
Proof.
  induction l as [|y l IH]; simpl; [discriminate|].
  destruct l as [|z l]; simpl in *.
  - intros H. inversion H. now left.
  - intros H. right. now apply IH.
Qed.

Lemma last_firstn_nth (A : Type) (n : nat) (l : list A) :
  (n < length l)%nat ->
  last (map Some (firstn (S n) l)) None = nth_error l n.
Proof.
  revert l. induction n as [|n IH]; intros [|x l] Hn; simpl in Hn; try lia.
  - reflexivity.
  - specialize (IH l ltac:(lia)).
    change (firstn (S (S n)) (x :: l)) with (x :: firstn (S n) l).
    destruct l as [|y l]; [simpl in Hn; lia|].
    change (firstn (S n) (y :: l)) with (y :: firstn n l) in *.
    simpl map in *. simpl nth_error. exact IH.
Qed.

Lemma firstn_incl (A : Type) (n : nat) (l : list A) : incl (firstn n l) l.
Proof.
  intros x H. rewrite <- (firstn_skipn n l). apply in_or_app. now left.
Qed.

Lemma partition_wf (pid : jsstring) (db : list Comment) :
  Forall wfComment db -> Forall wfComment (partition pid db).
Proof.
  intros H.
  apply (Permutation_Forall (Permutation_sym (partition_perm pid db))).
  rewrite Forall_forall in *. intros x Hx. apply H.
  now apply filter_In in Hx.
Qed.

(** The cursor is made from the last key the store names. *)
Lemma encode_page (pid : jsstring) (n : nat) (l : list Comment) :
  wf16 pid -> Forall wfComment l ->
  GetComments.encodeLastKey (QueryCommand.LastEvaluatedKey (page pid n l))
  = nextCursor pid n l.
Proof.
  intros Hpid Hl. unfold page, nextCursor. cbn [QueryCommand.LastEvaluatedKey].
  destruct (n <? length l)%nat; [|reflexivity].
  destruct (last (map Some (firstn n l)) None) as [x|] eqn:E; [|reflexivity].
  cbn [option_map]. apply cursorOf_spec; [assumption|].
  rewrite Forall_forall in Hl. apply Hl.
  apply last_Some_In in E. now apply (@firstn_incl _ n l).
Qed.

Section PaginationFacts.
Variable db : list Comment.
Variables pid tn ls : jsstring.
Variable L : Z.
Hypothesis Hids : NoDup (map id db).
Hypothesis Hwf : Forall wfComment db.
Hypothesis Hpid : wf16 pid.
Hypothesis Hpid0 : pid <> [].
Hypothesis Htn : tn <> [].
Hypothesis Hlimit : parseInt ls = Some L.
Hypothesis HL : (1 <= L)%Z.

Local Abbreviation call := (request tableStore (Some tn) db (Some pid) (Some ls)).
Local Abbreviation walk :=
  (fetchPages tableStore (Some tn) db (Some pid) (Some ls)).

(** A call is answered by the page that starts where the cursor says. *)
Lemma request_from (lastKey : option jsstring) (l : list Comment) :
  (lastKey = None /\ l = partition pid db)
  \/ (exists a x, partition pid db = a ++ x :: l
                  /\ lastKey = Some (cursorOf pid x)) ->
  call lastKey
  = mkResponse 200
      (CommentsBody (firstn (Z.to_nat L) l) (nextCursor pid (Z.to_nat L) l)).
Proof.
  intros Hpos.
  destruct tn as [|t0 tn']; [congruence|].
  destruct pid as [|p0 pid']; [congruence|].
  assert (Hq : exists start,
             GetComments.parseLastKey lastKey = start
             /\ tableQuery
                  (GetComments.dbQueryParams (t0 :: tn') (p0 :: pid') L start) db
                = inr (page (p0 :: pid') (Z.to_nat L) l)).
  { destruct Hpos as [[-> ->]|(a & x & Hp & ->)].
    - exists JNull. split; [reflexivity|].
      unfold tableQuery, GetComments.dbQueryParams. simpl.
      replace (L <? 1)%Z with false by (symmetry; apply Z.ltb_ge; lia).
      reflexivity.
    - assert (Hx : wfComment x).
      { pose proof (partition_wf (p0 :: pid') Hwf) as Hall. rewrite Hp in Hall.
        apply Forall_app in Hall as [_ Hall]. now inversion Hall. }
      destruct (cursorOf_spec Hpid Hx) as (_ & _ & Hparse).
      exists (key_value (itemKey (p0 :: pid') x)). split; [exact Hparse|].
      unfold tableQuery, GetComments.dbQueryParams.
      cbn [QueryCommand.TableName QueryCommand.IndexName
           QueryCommand.KeyConditionExpression QueryCommand.ScanIndexForward
           QueryCommand.ExpressionAttributeValues QueryCommand.Limit
           QueryCommand.ExclusiveStartKey nonempty].
      change (String.eqb "postId-index" "postId-index") with true.
      change (String.eqb "postId = :postId" "postId = :postId") with true.
      change (String.eqb ":postId" ":postId") with true.
      cbn [andb negb orb].
      replace (L <? 1)%Z with false by (symmetry; apply Z.ltb_ge; lia).
      change (GetComments.usableStartKey
                (key_value (itemKey (p0 :: pid') x))) with true.
      cbv iota zeta. rewrite keyPosition_itemKey, Hp.
      rewrite startAfter_split; [reflexivity|].
      rewrite <- Hp. now apply partition_ids. }
  destruct Hq as (start & Hstart & Hquery).
  assert (Hl : Forall wfComment l).
  { pose proof (partition_wf (p0 :: pid') Hwf) as Hall.
    destruct Hpos as [[_ ->]|(a & x & Hp & _)]; [exact Hall|].
    rewrite Hp in Hall. apply Forall_app in Hall as [_ Hall]. now inversion Hall. }
  unfold request, GetComments.handler, GetComments.handler_try.
  cbn [GetComments.pathParameters GetComments.queryStringParameters
       GetComments.postId GetComments.limit GetComments.lastKey].
  rewrite (parseLimit_value _ Hlimit) by lia.
  rewrite Hstart. cbn [sendQuery tableStore]. rewrite Hquery.
  rewrite encode_page by assumption. reflexivity.
Qed.

(** Walking the pages from any position gathers what stands behind it. *)
Lemma walk_from (fuel : nat) :
  forall (lastKey : option jsstring) (l : list Comment),
    (lastKey = None /\ l = partition pid db)
    \/ (exists a x, partition pid db = a ++ x :: l
                    /\ lastKey = Some (cursorOf pid x)) ->
    (length l < fuel)%nat ->
    exists pages,
      walk fuel lastKey = Some pages
      /\ concat pages = l
      /\ Forall (fun pg => (length pg <= Z.to_nat L)%nat) pages.
Proof.
  induction fuel as [|fuel IH]; intros lastKey l Hpos Hfuel; [lia|].
  cbn [fetchPages]. rewrite (request_from Hpos).
  unfold nextCursor.
  destruct (Z.to_nat L <? length l)%nat eqn:E.
  - apply Nat.ltb_lt in E.
    destruct (Z.to_nat L) as [|n] eqn:En; [lia|].
    rewrite last_firstn_nth by lia.
    destruct (nth_error l n) as [x|] eqn:Hx;
      [|apply nth_error_None in Hx; lia].
    apply nth_error_split in Hx as (l1 & l2 & Hl & Hlen).
    assert (Hfirst : firstn (S n) l = l1 ++ [x]).
    { rewrite Hl. rewrite firstn_app, Hlen.
      replace (S n - n)%nat with 1%nat by lia.
      rewrite firstn_all2 by lia. reflexivity. }
    assert (Hxwf : wfComment x).
    { pose proof (partition_wf pid Hwf) as Hall.
      assert (Hin : In x (partition pid db)).
      { destruct Hpos as [[_ <-]|(a & y & Hp & _)].
        - rewrite Hl. apply in_or_app. right. now left.
        - rewrite Hp, Hl. apply in_or_app. right. right.
          apply in_or_app. right. now left. }
      rewrite Forall_forall in Hall. now apply Hall. }
    destruct (cursorOf_spec Hpid Hxwf) as (_ & Hne & _).
    cbn [option_map].
    destruct (cursorOf pid x) as [|c0 cur] eqn:Hcur; [congruence|].
    destruct (IH (Some (c0 :: cur)) l2) as (pages & Hw & Hc & Hs).
    + right. destruct Hpos as [[_ ->]|(a & y & Hp & _)].
      * exists l1, x. split; [exact Hl|]. now rewrite Hcur.
      * exists (a ++ y :: l1), x. split; [|now rewrite Hcur].
        rewrite Hp, Hl, <- app_assoc. reflexivity.
    + rewrite Hl, length_app in Hfuel. simpl in Hfuel. lia.
    + unfold jsstring in *. rewrite Hw. exists (firstn (S n) l :: pages).
      split; [|split].
      * cbn [option_map]. reflexivity.
      * cbn [concat]. rewrite Hc, Hfirst, Hl, <- app_assoc. reflexivity.
      * constructor; [|exact Hs]. rewrite length_firstn. lia.
  - apply Nat.ltb_ge in E. exists [firstn (Z.to_nat L) l].
    split; [reflexivity|split].
    + cbn [concat]. rewrite app_nil_r. now apply firstn_all2.
    + constructor; [|constructor]. rewrite length_firstn. lia.
Qed.

(** C1, as amended.  With a page size of at least one, following the
    cursors from the first call until none comes back ends, and the pages
    put end to end are the comments of the post, each once, in ascending
    order of [createdAt]: they are the partition as the index holds it,
    so comments of one [createdAt] come as the index has them.  Where no
    two comments of the post share a [createdAt], this is the order by
    [(createdAt, id)] of the specification.  No page is longer than the
    page size. *)
Theorem pagination_complete (fuel : nat) :
  (length (partition pid db) < fuel)%nat ->
  exists pages,
    walk fuel None = Some pages
    /\ concat pages = partition pid db
    /\ Permutation (concat pages) (filter (in_post pid) db)
    /\ NoDup (map id (concat pages))
    /\ StronglySorted notAfter (concat pages)
    /\ (NoDup (map createdAt (concat pages)) ->
        StronglySorted spec_before (concat pages))
    /\ Forall (fun pg => (Z.of_nat (length pg) <= L)%Z) pages.
Proof.
  intros Hfuel.
  destruct (@walk_from fuel None (partition pid db)) as (pages & Hw & Hc & Hs);
    [now left|exact Hfuel|].
  exists pages. rewrite Hc.
  split; [exact Hw|]. split; [reflexivity|].
  split; [apply partition_perm|]. split; [now apply partition_ids|].
  split; [apply partition_sorted|].
  split; [apply sorted_spec_order, partition_sorted|].
  eapply Forall_impl; [|exact Hs]. cbv beta. intros pg Hpg. lia.
Qed.

(** C2.  When no more comments stand behind the cursor than the page
    takes, and so when they are exactly as many, the page holds them all
    and comes without a cursor; a cursor comes with a page exactly when
    comments remain behind it. *)
Theorem last_page_has_no_cursor (lastKey : option jsstring) (l : list Comment) :
  (lastKey = None /\ l = partition pid db)
  \/ (exists a x, partition pid db = a ++ x :: l
                  /\ lastKey = Some (cursorOf pid x)) ->
  ((Z.of_nat (length l) <= L)%Z ->
   call lastKey = mkResponse 200 (CommentsBody l None))
  /\ ((L < Z.of_nat (length l))%Z ->
      exists cursor,
        cursor <> []
        /\ call lastKey
           = mkResponse 200 (CommentsBody (firstn (Z.to_nat L) l) (Some cursor))).
Proof.
  intros Hpos. rewrite (request_from Hpos). unfold nextCursor. split.
  - intros Hlen.
    replace (Z.to_nat L <? length l)%nat with false
      by (symmetry; apply Nat.ltb_ge; lia).
    rewrite firstn_all2 by lia. reflexivity.
  - intros Hlen.
    replace (Z.to_nat L <? length l)%nat with true
      by (symmetry; apply Nat.ltb_lt; lia).
    destruct (Z.to_nat L) as [|n] eqn:En; [lia|].
    rewrite last_firstn_nth by lia.
    destruct (nth_error l n) as [x|] eqn:Hx;
      [|apply nth_error_None in Hx; lia].
    exists (cursorOf pid x). split; [|reflexivity].
    apply cursorOf_spec; [assumption|].
    pose proof (partition_wf pid Hwf) as Hall.
    rewrite Forall_forall in Hall. apply Hall.
    apply nth_error_In in Hx.
    destruct Hpos as [[_ <-]|(a & y & Hp & _)]; [exact Hx|].
    rewrite Hp. apply in_or_app. right. now right.
Qed.
End PaginationFacts.

Lemma distinct_NoDup (l : list jsstring) : distinct l = true -> NoDup l.
Proof.
  induction l as [|x l IH]; simpl; intros H; [constructor|].
  apply andb_true_iff in H as [Hx Hl]. constructor; [|now apply IH].
  intros Hin. apply negb_true_iff in Hx.
  assert (existsb (str_eqb x) l = true); [|congruence].
  apply existsb_exists. exists x. split; [exact Hin|apply str_eqb_refl].
Qed.

Lemma wf16b_wf16 (s : jsstring) : wf16b s = true -> wf16 s.
Proof.
  unfold wf16b, wf16. rewrite forallb_forall, Forall_forall.
  intros H c Hc. apply N.ltb_lt. now apply H.
Qed.

Lemma wfCommentb_all (l : list Comment) :
  forallb wfCommentb l = true -> Forall wfComment l.
Proof.
  rewrite forallb_forall, Forall_forall. intros H c Hc.
  specialize (H c Hc). unfold wfCommentb in H.
  apply andb_true_iff in H as [H1 H2]. split; now apply wf16b_wf16.
Qed.

(** The walk of the specification: twelve comments by pages of five. *)
Lemma pagination_complete_witness :
  exists pages,
    fetchPages tableStore testTable (testComments (lit "p3") 12)
               (Some (lit "p3")) (Some (lit "5")) 13 None = Some pages
    /\ concat pages = partition (lit "p3") (testComments (lit "p3") 12)
    /\ Permutation (concat pages)
                   (filter (in_post (lit "p3")) (testComments (lit "p3") 12))
    /\ NoDup (map id (concat pages))
    /\ StronglySorted notAfter (concat pages)
    /\ (NoDup (map createdAt (concat pages)) ->
        StronglySorted spec_before (concat pages))
    /\ Forall (fun pg => (Z.of_nat (length pg) <= 5)%Z) pages.
Proof.
  apply (@pagination_complete (testComments (lit "p3") 12) (lit "p3")
           (lit "TestCommentsTable") (lit "5") 5).
  - apply distinct_NoDup. vm_compute. reflexivity.
  - apply wfCommentb_all. vm_compute. reflexivity.
  - apply wf16b_wf16. vm_compute. reflexivity.
  - discriminate.
  - discriminate.
  - vm_compute. reflexivity.
  - lia.
  - vm_compute. lia.
Defined.

(** Two comments of a post with one [createdAt]: the index sorts by
    [createdAt] and by nothing else, the handler adds no second key, and
    the two come back as the index holds them, here the greater id first,
    which is not the order by [(createdAt, id)]. *)
Lemma pagination_ties_in_index_order :
  NoDup (map id tiedComments)
  /\ fetchPages tableStore testTable tiedComments
                (Some (lit "p1")) (Some (lit "1")) 3 None
     = Some [[tiedComment "b"]; [tiedComment "a"]]
  /\ Permutation (concat [[tiedComment "b"]; [tiedComment "a"]])
                 (filter (in_post (lit "p1")) tiedComments)
  /\ ~ StronglySorted spec_before
        (concat [[tiedComment "b"]; [tiedComment "a"]]).
Proof.
  split; [apply distinct_NoDup; vm_compute; reflexivity|].
  split; [vm_compute; reflexivity|].
  split; [vm_compute; apply Permutation_refl|].
  cbn [concat app]. intros H.
  apply StronglySorted_inv in H as [_ H].
  apply Forall_inv in H. vm_compute in H. discriminate.
Qed.

Example walk_12_by_5 :
  option_map (map (map id))
    (fetchPages tableStore testTable (testComments (lit "p3") 12)
                (Some (lit "p3")) (Some (lit "5")) 13 None)
  = Some (map (map (fun i => lit "comment-" ++ pad 3 i))
            [[0; 1; 2; 3; 4]; [5; 6; 7; 8; 9]; [10; 11]]%Z).
Proof. vm_compute. reflexivity. Qed.

(** Five comments and a page size of five: one page, no cursor. *)
Lemma last_page_has_no_cursor_witness :
  request tableStore testTable (testComments (lit "p2") 5)
          (Some (lit "p2")) (Some (lit "5")) None
  = mkResponse 200
      (CommentsBody (partition (lit "p2") (testComments (lit "p2") 5)) None).
Proof.
  apply (@last_page_has_no_cursor (testComments (lit "p2") 5) (lit "p2")
           (lit "TestCommentsTable") (lit "5") 5).
  - apply distinct_NoDup. vm_compute. reflexivity.
  - apply wfCommentb_all. vm_compute. reflexivity.
  - apply wf16b_wf16. vm_compute. reflexivity.
  - discriminate.
  - discriminate.
  - vm_compute. reflexivity.
  - lia.
  - left. split; reflexivity.
  - vm_compute. discriminate.
Defined.

Lemma cursor_round_trip_witness :
  exists cursor,
    GetComments.encodeLastKey
      (Some (itemKey (lit "p3") (testComment (lit "p3") 4))) = Some cursor
    /\ GetComments.parseLastKey (Some cursor)
       = key_value (itemKey (lit "p3") (testComment (lit "p3") 4))
    /\ forall tn pid limit,
        QueryCommand.ExclusiveStartKey
          (GetComments.dbQueryParams tn pid limit
             (GetComments.parseLastKey (Some cursor)))
        = Some (key_value (itemKey (lit "p3") (testComment (lit "p3") 4))).
Proof.
  apply cursor_round_trip.
  - discriminate.
  - apply wfKey_itemKey.
    + apply wf16b_wf16. vm_compute. reflexivity.
    + split; apply wf16b_wf16; vm_compute; reflexivity.
Defined.

(** ** Time stamps *)

Local Open Scope Z_scope.

Ltac zarith := Z.to_euclidean_division_equations; lia.

(** A year has 365 or 366 days. *)
Lemma DayFromYear_step (y : Z) :
  DayFromYear y + 365 <= DayFromYear (y + 1) <= DayFromYear y + 366.
Proof. unfold DayFromYear. zarith. Qed.

Lemma InLeapYear_range (y : Z) : 0 <= InLeapYear y <= 1.
Proof. unfold InLeapYear. pose proof (DayFromYear_step y). lia. Qed.

(** The search stops at the year of the day, or when the fuel is out. *)
Lemma year_search_spec (fuel : nat) :
  forall y day,
    DayFromYear y <= day ->
    let r := year_search fuel y day in
    DayFromYear r <= day
    /\ y <= r <= y + Z.of_nat fuel
    /\ (day < DayFromYear (r + 1) \/ r = y + Z.of_nat fuel).
Proof.
  induction fuel as [|fuel IH]; intros y day Hy; cbn [year_search].
  - cbv zeta. split; [exact Hy|]. split; [lia|]. right. lia.
  - destruct (DayFromYear (y + 1) <=? day) eqn:E.
    + apply Z.leb_le in E. destruct (IH (y + 1) day E) as (H1 & H2 & H3).
      cbv zeta. split; [exact H1|]. split; [lia|].
      destruct H3 as [H3|H3]; [now left|right; lia].
    + apply Z.leb_gt in E. cbv zeta. split; [exact Hy|]. split; [lia|].
      now left.
Qed.

(** The fuel of the search is enough for every day: the year found is
    the year of the day. *)
Lemma YearFromDay_year (day : Z) :
  DayFromYear (YearFromDay day) <= day < DayFromYear (YearFromDay day + 1).
Proof.
  unfold YearFromDay.
  set (y0 := 1970 + (if 0 <=? day then day / 366 else day / 365)).
  set (fuel := Z.to_nat (Z.abs day / 100000 + 2)).
  assert (Hy0 : DayFromYear y0 <= day).
  { unfold y0, DayFromYear. destruct (0 <=? day) eqn:E;
      [apply Z.leb_le in E|apply Z.leb_gt in E]; zarith. }
  assert (Hend : day < DayFromYear (y0 + Z.of_nat fuel + 1)).
  { unfold fuel. rewrite Z2Nat.id by zarith.
    unfold y0, DayFromYear. destruct (0 <=? day) eqn:E;
      [apply Z.leb_le in E|apply Z.leb_gt in E]; zarith. }
  destruct (@year_search_spec fuel y0 day Hy0) as (H1 & H2 & H3).
  set (r := year_search fuel y0 day) in *.
  split; [exact H1|].
  destruct H3 as [H3|H3]; [exact H3|]. now rewrite H3.
Qed.

Lemma YearFromDay_spec (day : Z) :
  minDay <= day <= maxDay ->
  DayFromYear (YearFromDay day) <= day < DayFromYear (YearFromDay day + 1)
  /\ 0 <= YearFromDay day <= 9999.
Proof.
  unfold minDay, maxDay. intros Hday.
  pose proof (YearFromDay_year day) as H. split; [exact H|].
  unfold DayFromYear in H. zarith.
Qed.










Section TimeStamps.
Variable t : Z.
Hypothesis Ht : minTime <= t <= maxTime.

Lemma Day_range : minDay <= Day t <= maxDay.
Proof.
  unfold Day, msPerDay, minDay, maxDay. unfold minTime, maxTime in Ht. zarith.
Qed.



End TimeStamps.


(** ** The record a successful call stores *)

Lemma tablePut_fresh (c : Comment) (db : list Comment) :
  ~ In (id c) (map id db) -> tablePut c db = db ++ [c].
Proof.
  induction db as [|x db IH]; intros Hin; [reflexivity|].
  cbn [tablePut app]. cbn [map In] in Hin.
  destruct (str_eqb (id x) (id c)) eqn:E.
  - apply str_eqb_eq in E. exfalso. apply Hin. now left.
  - rewrite IH; [reflexivity|]. intros H. apply Hin. now right.
Qed.



(** In the comments table, a 201 with a fresh id adds one record. *)
Lemma handler_201_table COMMENTS_TABLE_NAME commentId now event
      (db : list Comment) r db' :
  CreateComment.handler tableStore COMMENTS_TABLE_NAME commentId now event db
  = (r, db') ->
  statusCode r = 201 ->
  ~ In commentId (map id db) ->
  exists c,
    body r = CommentBody c /\ id c = commentId
    /\ createdAt c = toISOString now /\ db' = db ++ [c]
    /\ (NoDup (map id db) -> NoDup (map id db')).
Proof.
  intros H Hs Hfresh.
  destruct (handler_201 _ _ _ _ _ _ H Hs)
    as (b & v & p & t & u & tn & _ & _ & _ & _ & _ & _ & _ & _ & _ & _ & Hr & Hput).
  subst r. eexists. cbn [body]. split; [reflexivity|]. cbn [id createdAt].
  split; [reflexivity|]. split; [reflexivity|].
  cbn [sendPut tableStore PutCommand.Item] in Hput. inversion Hput as [Hdb].
  rewrite tablePut_fresh by exact Hfresh.
  split; [reflexivity|].
  intros Hnd. rewrite map_app. cbn [map id].
  apply NoDup_app; [exact Hnd|repeat constructor; intros []|].
  intros x Hx [<-|[]]. now apply Hfresh.
Qed.




(** ** The table between calls

    What the reader assumes of the table, unique ids and strings of code
    units, is what the writer leaves behind when the ids it draws are
    fresh strings of code units. *)

Lemma wf16_pad (w : nat) (n : Z) : wf16 (pad w n).
Proof.
  revert n. induction w as [|w IH]; intros n; cbn [pad]; [constructor|].
  apply wf16_app; [apply IH|]. repeat constructor.
  assert (H : 0 <= n mod 10 < 10) by zarith. lia.
Qed.

Lemma wf16_toISOString (t : Z) : wf16 (toISOString t).
Proof.
  unfold toISOString, isoFormat.
  apply wf16_app.
  - unfold isoYear.
    destruct ((0 <=? _) && _); [apply wf16_pad|].
    constructor; [destruct (_ <? 0); reflexivity|apply wf16_pad].
  - repeat first [ apply wf16_pad
                 | apply wf16_app
                 | apply Forall_nil
                 | apply Forall_cons; [reflexivity|] ].
Qed.

Lemma createComment_keeps_table COMMENTS_TABLE_NAME commentId now event
      (db : list Comment) r db' :
  CreateComment.handler tableStore COMMENTS_TABLE_NAME commentId now event db
  = (r, db') ->
  wf16 commentId -> ~ In commentId (map id db) ->
  NoDup (map id db) /\ Forall wfComment db ->
  NoDup (map id db') /\ Forall wfComment db'.
Proof.
  intros H Hid Hfresh [Hnd Hwf].
  destruct (Z.eq_dec (statusCode r) 201) as [Hs|Hs].
  - destruct (handler_201_table _ _ _ _ _ H Hs Hfresh)
      as (c & _ & Hc & Hat & -> & Hnd').
    split; [now apply Hnd'|].
    apply Forall_app. split; [exact Hwf|]. repeat constructor.
    + now rewrite Hc.
    + rewrite Hat. apply wf16_toISOString.
  - rewrite (handler_no_write _ _ _ _ _ _ H Hs). now split.
Qed.

(** A comment written is a comment read: after a 201 in the table, the
    new record is in the partition of its post. *)
Lemma createComment_then_visible COMMENTS_TABLE_NAME commentId now event
      (db : list Comment) c db' pid :
  CreateComment.handler tableStore COMMENTS_TABLE_NAME commentId now event db
  = (mkResponse 201 (CommentBody c), db') ->
  ~ In commentId (map id db) ->
  postId c = JStr pid ->
  In c (partition pid db').
Proof.
  intros H Hfresh Hpid.
  destruct (handler_201_table _ _ _ _ _ H eq_refl Hfresh)
    as (c' & Hb & _ & _ & -> & _).
  cbn [body] in Hb. inversion Hb; subst c'.
  apply (Permutation_in _ (Permutation_sym (partition_perm pid (db ++ [c])))).
  apply filter_In. split; [apply in_or_app; right; now left|].
  unfold in_post. rewrite Hpid. apply str_eqb_refl.
Qed.

(** ** The unit tests of the repository, replayed *)

Local Open Scope N_scope.

Example test_create_valid :
  createComment [(lit "postId", lit "post-456");
                 (lit "text", lit "This is a test comment")] []
  = (mkResponse 201
       (CommentBody
          (mkComment (lit "comment-789") (JStr (lit "post-456")) (lit "user-123")
                     (lit "testuser") (lit "This is a test comment")
                     (lit "2024-01-01T00:00:00.000Z"))),
     [mkComment (lit "comment-789") (JStr (lit "post-456")) (lit "user-123")
                (lit "testuser") (lit "This is a test comment")
                (lit "2024-01-01T00:00:00.000Z")]).
Proof. vm_compute. reflexivity. Qed.

Example test_create_rejections :
  createComment [(lit "postId", lit "post-456"); (lit "text", [])] []
  = (CreateComment.validationError "Comment text is required", [])
  /\ createComment [(lit "postId", lit "post-456");
                    (lit "text", [32; 32; 32; 9; 10; 32; 32])] []
     = (CreateComment.validationError
          "Comment text cannot be empty or contain only whitespace", [])
  /\ createComment [(lit "postId", lit "post-456"); (lit "text", repeat 97 281)] []
     = (CreateComment.validationError
          "Comment text cannot exceed 280 characters", [])
  /\ createComment [(lit "text", lit "This is a test comment")] []
     = (CreateComment.validationError "Post ID is required", [])
  /\ createComment [(lit "postId", []); (lit "text", lit "This is a test comment")] []
     = (CreateComment.validationError "Post ID is required", [])
  /\ CreateComment.handler tableStore testTable mockCommentId mockNow
       (CreateComment.mkEvent None (Some mockUser)) []
     = (CreateComment.validationError "Missing request body", []).
Proof. repeat split; vm_compute; reflexivity. Qed.

Example test_create_null_fields :
  CreateComment.handler tableStore testTable mockCommentId mockNow
    (CreateComment.mkEvent
       (Some (lit "{" ++ quoted "postId" ++ lit ":" ++ quoted "post-456"
                ++ lit "," ++ quoted "text" ++ lit ":null}"))
       (Some mockUser)) []
  = (CreateComment.validationError "Comment text is required", [])
  /\ CreateComment.handler tableStore testTable mockCommentId mockNow
       (CreateComment.mkEvent
          (Some (lit "{" ++ quoted "postId" ++ lit ":null,"
                   ++ quoted "text" ++ lit ":" ++ quoted "This is a test comment"
                   ++ lit "}"))
          (Some mockUser)) []
     = (CreateComment.validationError "Post ID is required", []).
Proof. split; vm_compute; reflexivity. Qed.

Example test_create_trims :
  option_map text
    (match body (fst (createComment
                        [(lit "postId", lit "post-456");
                         (lit "text", lit "  This is a test comment  ")] [])) with
     | CommentBody c => Some c
     | _ => None
     end)
  = Some (lit "This is a test comment").
Proof. vm_compute. reflexivity. Qed.

Example test_create_store_error :
  CreateComment.handler (mockSend (inl (Error "DynamoDB error"))) testTable
    mockCommentId mockNow
    (createEvent [(lit "postId", lit "post-456");
                  (lit "text", lit "This is a test comment")]) tt
  = (mkResponse 500
       (ErrorBody "InternalServerError" "Error creating comment"
                  (Some (Error "DynamoDB error"))), tt).
Proof. vm_compute. reflexivity. Qed.

Example test_get_post_id_required :
  GetComments.handler (mockSend noItems) testTable (getEvent None None None) tt
  = mkResponse 400 (ErrorBody "ValidationError" "Post ID is required" None)
  /\ GetComments.handler (mockSend noItems) testTable
       (GetComments.mkEvent None (Some (GetComments.mkQuery None None))) tt
     = mkResponse 400 (ErrorBody "ValidationError" "Post ID is required" None)
  /\ GetComments.handler (mockSend noItems) testTable
       (getEvent (Some []) None None) tt
     = mkResponse 400 (ErrorBody "ValidationError" "Post ID is required" None).
Proof. repeat split; vm_compute; reflexivity. Qed.

Example test_get_odd_parameters :
  Forall (fun q => GetComments.handler (mockSend noItems) testTable
                     (getEvent (Some (lit "post-123")) (fst q) (snd q)) tt
                   = mkResponse 200 (CommentsBody [] None))
    [(None, Some (lit "invalid-json"));
     (None, Some (lit "!@#$%^&*()"));
     (None, Some []);
     (Some (lit "not-a-number"), None);
     (Some (lit "-10"), None);
     (Some (lit "0"), None)]
  /\ GetComments.handler (mockSend noItems) testTable
       (GetComments.mkEvent (Some (GetComments.mkPath (Some (lit "post-123")))) None)
       tt
     = mkResponse 200 (CommentsBody [] None)
  /\ GetComments.handler
       (mockSend (inr (QueryCommand.mkOutput None None))) testTable
       (getEvent (Some (lit "post-123")) None None) tt
     = mkResponse 200 (CommentsBody [] None).
Proof. repeat constructor; vm_compute; reflexivity. Qed.

Example test_get_errors :
  GetComments.handler (mockSend (inl (Error "DynamoDB error"))) testTable
    (getEvent (Some (lit "post-123")) None None) tt
  = mkResponse 500
      (ErrorBody "InternalServerError" "Error retrieving comments"
                 (Some (Error "DynamoDB error")))
  /\ GetComments.handler (mockSend noItems) None
       (getEvent (Some (lit "post-123")) None None) tt
     = mkResponse 500
         (ErrorBody "InternalServerError" "Error retrieving comments"
            (Some (Error "COMMENTS_TABLE_NAME environment variable is not set"))).
Proof. split; vm_compute; reflexivity. Qed.

Example test_get_limits :
  map GetComments.parseLimit
      [None; Some (lit "1"); Some (lit "25"); Some (lit "0");
       Some (lit "not-a-number"); Some (lit "-10"); Some (lit "12.7");
       Some (lit " 7"); Some (lit "5abc"); Some (lit "0x10")]
  = [50; 1; 25; 50; 50; -10; 12; 7; 5; 16]%Z.
Proof. vm_compute. reflexivity. Qed.

(** ** Trimming *)

Lemma trimStart_app (a b : jsstring) :
  trimStart (a ++ b)
  = if forallb is_ws a then trimStart b else trimStart a ++ b.
Proof.
  induction a as [|c a IH]; [reflexivity|].
  cbn [app trimStart forallb]. destruct (is_ws c); [exact IH | reflexivity].
Qed.

Lemma trimStart_all (s : jsstring) :
  trimStart s = [] <-> forallb is_ws s = true.
Proof.
  induction s as [|c s IH]; [split; reflexivity|].
  cbn [trimStart forallb]. destruct (is_ws c); [exact IH|].
  split; discriminate.
Qed.

Lemma trimStart_head (s r : jsstring) (c : N) :
  trimStart s = c :: r -> is_ws c = false.
Proof.
  induction s as [|x s IH]; [discriminate|].
  cbn [trimStart]. destruct (is_ws x) eqn:E; [exact IH|].
  intros H; injection H as -> _; exact E.
Qed.

Lemma trimStart_keeps (s : jsstring) (c : N) :
  is_ws c = false -> trimStart (c :: s) = c :: s.
Proof. intros H; cbn [trimStart]; rewrite H; reflexivity. Qed.

Lemma trimEnd_cons (s : jsstring) (c : N) :
  is_ws c = false -> trimEnd (c :: s) = c :: trimEnd s.
Proof.
  intros H. unfold trimEnd. cbn [rev]. rewrite trimStart_app.
  rewrite (@trimStart_keeps [] c H).
  destruct (forallb is_ws (rev s)) eqn:E.
  - apply trimStart_all in E. rewrite E. reflexivity.
  - rewrite rev_app_distr. reflexivity.
Qed.

Lemma forallb_rev (f : N -> bool) (s : jsstring) :
  forallb f (rev s) = forallb f s.
Proof.
  induction s as [|c s IH]; [reflexivity|].
  cbn [rev forallb]. rewrite forallb_app, IH. cbn [forallb].
  rewrite andb_true_r. apply andb_comm.
Qed.

Lemma trim_all (s : jsstring) : trim s = [] <-> forallb is_ws s = true.
Proof.
  unfold trim, trimEnd. rewrite <- trimStart_all.
  split; intros H.
  - apply (f_equal (@rev N)) in H. rewrite rev_involutive in H. cbn [rev] in H.
    apply trimStart_all in H. rewrite forallb_rev in H.
    destruct (trimStart s) as [|c r] eqn:E; [reflexivity|].
    apply (@trimStart_head _ _ _) in E. cbn [forallb] in H. rewrite E in H. discriminate.
  - rewrite H. reflexivity.
Qed.

(** What [trim] gives begins and ends with a code unit that is not white
    space. *)
Lemma trim_ends (s : jsstring) (c : N) :
  (hd_error (trim s) = Some c -> is_ws c = false)
  /\ (hd_error (rev (trim s)) = Some c -> is_ws c = false).
Proof.
  unfold trim. split.
  - destruct (trimStart s) as [|x r] eqn:E; [discriminate|].
    pose proof (@trimStart_head _ _ _ E) as Hx. rewrite (@trimEnd_cons r x Hx).
    cbn [hd_error]. intros H; injection H as <-; exact Hx.
  - unfold trimEnd. rewrite rev_involutive.
    destruct (trimStart (rev (trimStart s))) as [|x r] eqn:E; [discriminate|].
    cbn [hd_error]. intros H; injection H as <-. exact (@trimStart_head _ _ _ E).
Qed.

Lemma trim_fixed (s : jsstring) :
  (forall c, hd_error s = Some c -> is_ws c = false) ->
  (forall c, hd_error (rev s) = Some c -> is_ws c = false) ->
  trim s = s.
Proof.
  intros Hh Hl. unfold trim.
  assert (E : trimStart s = s).
  { destruct s as [|c r]; [reflexivity|]. apply trimStart_keeps, Hh. reflexivity. }
  rewrite E. unfold trimEnd.
  assert (E' : trimStart (rev s) = rev s).
  { destruct (rev s) as [|c r]; [reflexivity|]. apply trimStart_keeps, Hl. reflexivity. }
  rewrite E'. apply rev_involutive.
Qed.

Lemma trim_trim (s : jsstring) : trim (trim s) = trim s.
Proof.
  apply trim_fixed; intros c H; exact (proj1 (trim_ends s c) H) || exact (proj2 (trim_ends s c) H).
Qed.

(** ** createComment.js: the requests the checks let through *)

Section CreateCommentEdges.
Variable store : Store.
Variable COMMENTS_TABLE_NAME : option jsstring.
Variable commentId : jsstring.
Variable now : Z.

Local Abbreviation handler :=
  (CreateComment.handler store COMMENTS_TABLE_NAME commentId now).
Local Abbreviation failure e :=
  (mkResponse 500 (ErrorBody "InternalServerError" "Error creating comment" (Some e))).

(** X1.  A [text] that is truthy but not a string (a number, [true], an
    array, an object) is not refused as invalid: [text.trim] fails, the
    answer is 500 and nothing is stored. *)
Theorem createComment_text_not_a_string event db b props p t :
  CreateComment.body event = Some b -> nonempty b = true ->
  JSON_parse b = inr (JObj props) ->
  lookup (lit "postId") props = Some p -> truthy p = true ->
  lookup (lit "text") props = Some t -> truthy t = true ->
  (forall s, t <> JStr s) ->
  handler event db = (failure TypeError, db).
Proof.
  intros Hb Hn Hp Hpid Htp Ht Htt Hs.
  unfold CreateComment.handler.
  rewrite (@handler_try_fields store COMMENTS_TABLE_NAME commentId now event db
             b (JObj props) (Some p) (Some t) Hb Hn Hp)
    by (cbn [CreateComment.destructure]; rewrite Hpid, Ht; reflexivity).
  unfold spec_firstFailure. cbn [truthy_opt]. rewrite Htp, Htt. cbn [negb].
  destruct t; try reflexivity. exfalso; eapply Hs; reflexivity.
Qed.

(** X2.  A body that is JSON but no object: [null] makes the
    destructuring fail (500); a number, a string, a boolean or an array
    has no [postId], so the answer is the 400 of a missing post id. *)
Theorem createComment_body_not_an_object event db b v :
  CreateComment.body event = Some b -> nonempty b = true ->
  JSON_parse b = inr v -> (forall props, v <> JObj props) ->
  handler event db =
  (match v with
   | JNull => failure TypeError
   | _ => CreateComment.validationError "Post ID is required"
   end, db).
Proof.
  intros Hb Hn Hp Hv.
  unfold CreateComment.handler, CreateComment.handler_try.
  rewrite Hb, Hn, Hp. cbn [negb].
  destruct v; try reflexivity. exfalso; eapply Hv; reflexivity.
Qed.

(** X3.  A request that passes every check still fails with 500, and
    without a write, when the table name is not configured (whether the
    caller is known or not), when the event carries no user, or when the
    store rejects the write; the details name the cause. *)
Theorem createComment_failures_after_validation event db b v p t :
  CreateComment.body event = Some b -> nonempty b = true ->
  JSON_parse b = inr v ->
  CreateComment.destructure v = inr (Some p, Some (JStr t)) ->
  truthy p = true -> trim t <> [] -> (length t <= 280)%nat ->
  (COMMENTS_TABLE_NAME = None \/ COMMENTS_TABLE_NAME = Some [] ->
   handler event db
   = (failure (Error "COMMENTS_TABLE_NAME environment variable is not set"), db))
  /\ (forall tn,
         COMMENTS_TABLE_NAME = Some tn -> nonempty tn = true ->
         CreateComment.user event = None ->
         handler event db = (failure TypeError, db))
  /\ (forall tn u e,
         COMMENTS_TABLE_NAME = Some tn -> nonempty tn = true ->
         CreateComment.user event = Some u ->
         sendPut store
           (PutCommand.mkInput tn
              (mkComment commentId p (CreateComment.id u)
                         (CreateComment.username u) (trim t) (toISOString now)))
           db = inl e ->
         handler event db = (failure e, db)).
Proof.
  intros Hb Hn Hp Hd Htp Htr Hlen.
  assert (Hf : spec_firstFailure (Some p) (Some (JStr t)) = None).
  { unfold spec_firstFailure. cbn [truthy_opt truthy]. rewrite Htp. cbn [negb].
    destruct t as [|c t']; [now cbn in Htr|]. cbn [negb].
    destruct (str_eqb (trim (c :: t')) []) eqn:E;
      [apply str_eqb_eq in E; contradiction|].
    replace (280 <? length (c :: t'))%nat with false
      by (symmetry; apply Nat.ltb_ge; exact Hlen).
    reflexivity. }
  unfold CreateComment.handler.
  rewrite (@handler_try_fields store COMMENTS_TABLE_NAME commentId now event db
             b v (Some p) (Some (JStr t)) Hb Hn Hp Hd), Hf.
  split; [|split].
  - intros [-> | ->]; reflexivity.
  - intros tn -> Htn Hu. rewrite Hu. destruct tn; [discriminate|reflexivity].
  - intros tn u e -> Htn Hu Hput. rewrite Hu.
    destruct tn as [|x tn]; [discriminate|]. cbv zeta. rewrite Hput. reflexivity.
Qed.

(** X4.  The text of a stored comment is not empty, begins and ends with
    a code unit that is not white space, and is its own trimmed form:
    sent again as it is, it would be stored unchanged. *)
Theorem createComment_stored_text_is_trimmed event db c db' :
  handler event db = (mkResponse 201 (CommentBody c), db') ->
  text c <> [] /\ trim (text c) = text c
  /\ (forall x, hd_error (text c) = Some x -> is_ws x = false)
  /\ (forall x, hd_error (rev (text c)) = Some x -> is_ws x = false).
Proof.
  intros H.
  destruct (@handler_201 store COMMENTS_TABLE_NAME commentId now event db _ _ H eq_refl)
    as (b & v & p & t & u & tn & _ & _ & _ & _ & _ & Htr & _ & _ & _ & _ & Hr & _).
  injection Hr as ->. cbn [text].
  split; [exact Htr|]. split; [apply trim_trim|].
  split; intros x Hx; [exact (proj1 (trim_ends t x) Hx) | exact (proj2 (trim_ends t x) Hx)].
Qed.

(** X5.  Which of the two reasons a blank text gets: the empty string is
    "required" (it is falsy); a text that is not empty is refused as
    blank exactly when every code unit of it is white space in the sense
    of [trim], which takes in the no-break space and the byte order
    mark. *)
Theorem createComment_blank_text event db b props p t :
  CreateComment.body event = Some b -> nonempty b = true ->
  JSON_parse b = inr (JObj props) ->
  lookup (lit "postId") props = Some p -> truthy p = true ->
  lookup (lit "text") props = Some (JStr t) ->
  (handler event db
   = (CreateComment.validationError "Comment text is required", db)
   <-> t = [])
  /\ (handler event db
      = (CreateComment.validationError
           "Comment text cannot be empty or contain only whitespace", db)
      <-> t <> [] /\ forallb is_ws t = true).
Proof.
  intros Hb Hn Hp Hpid Htp Ht.
  unfold CreateComment.handler.
  rewrite (@handler_try_fields store COMMENTS_TABLE_NAME commentId now event db
             b (JObj props) (Some p) (Some (JStr t)) Hb Hn Hp)
    by (cbn [CreateComment.destructure]; rewrite Hpid, Ht; reflexivity).
  unfold spec_firstFailure. cbn [truthy_opt truthy]. rewrite Htp. cbn [negb].
  destruct t as [|c t'].
  { split; split; try reflexivity; try discriminate. intros [H _]; now elim H. }
  cbn [negb]. rewrite <- trim_all.
  destruct (str_eqb (trim (c :: t')) []) eqn:E.
  { apply str_eqb_eq in E. split; split; try discriminate; try reflexivity.
    intros _; split; [discriminate | exact E]. }
  apply str_eqb_neq in E.
  split; split; try discriminate; try (intros [_ H]; contradiction).
  - destruct (280 <? length (c :: t'))%nat; [discriminate|].
    destruct COMMENTS_TABLE_NAME as [[|x tn]|]; try discriminate.
    destruct (CreateComment.user event); [|discriminate].
    cbv zeta. destruct (sendPut store _ db); discriminate.
  - destruct (280 <? length (c :: t'))%nat; [discriminate|].
    destruct COMMENTS_TABLE_NAME as [[|x tn]|]; try discriminate.
    destruct (CreateComment.user event); [|discriminate].
    cbv zeta. destruct (sendPut store _ db); discriminate.
Qed.

End CreateCommentEdges.

(** ** getComments.js: the exits and the query *)

Section GetCommentsEdges.
Variable store : Store.
Variable COMMENTS_TABLE_NAME : option jsstring.

Local Abbreviation handler := (GetComments.handler store COMMENTS_TABLE_NAME).
Local Abbreviation failure e :=
  (mkResponse 500
     (ErrorBody "InternalServerError" "Error retrieving comments" (Some e))).

(** The query string of an event, [{}] when there is none. *)
Local Abbreviation queryParams event :=
  (match GetComments.queryStringParameters event with
   | Some q => q
   | None => GetComments.mkQuery None None
   end).
Local Abbreviation queryOf tn pid event :=
  (GetComments.dbQueryParams tn pid
     (GetComments.parseLimit (GetComments.limit (queryParams event)))
     (GetComments.parseLastKey (GetComments.lastKey (queryParams event)))).

(** X6.  The table name is checked before the post id: without it the
    answer is 500 even for a request that has no post id; with it, a
    missing or empty post id gets 400.  Neither answer depends on the
    store, which is not asked. *)
Theorem getComments_checks_table_first event db :
  (COMMENTS_TABLE_NAME = None \/ COMMENTS_TABLE_NAME = Some [] ->
   handler event db
   = failure (Error "COMMENTS_TABLE_NAME environment variable is not set"))
  /\ (forall tn,
         COMMENTS_TABLE_NAME = Some tn -> nonempty tn = true ->
         GetComments.pathParameters event = None
         \/ (exists p, GetComments.pathParameters event = Some p
                       /\ (GetComments.postId p = None
                           \/ GetComments.postId p = Some [])) ->
         handler event db
         = mkResponse 400 (ErrorBody "ValidationError" "Post ID is required" None)).
Proof.
  unfold GetComments.handler, GetComments.handler_try. split.
  - intros [-> | ->]; reflexivity.
  - intros tn -> Htn H. destruct tn as [|x tn]; [discriminate|].
    destruct H as [-> | (p & -> & [-> | ->])]; reflexivity.
Qed.

(** X7.  What the store answers is what the caller gets: an error of the
    store becomes a 500 that names it, an answer without [Items] an
    empty list, and the items of an answer are returned as they came, in
    their order, none dropped or added. *)
Theorem getComments_passes_store_answer event db tn pid :
  COMMENTS_TABLE_NAME = Some tn -> nonempty tn = true ->
  GetComments.pathParameters event = Some (GetComments.mkPath (Some pid)) ->
  nonempty pid = true ->
  (forall e,
      sendQuery store (queryOf tn pid event) db = inl e ->
      handler event db = failure e)
  /\ (forall k,
         sendQuery store (queryOf tn pid event) db
         = inr (QueryCommand.mkOutput None k) ->
         handler event db
         = mkResponse 200 (CommentsBody [] (GetComments.encodeLastKey k)))
  /\ (forall items k,
         sendQuery store (queryOf tn pid event) db
         = inr (QueryCommand.mkOutput (Some items) k) ->
         handler event db
         = mkResponse 200 (CommentsBody items (GetComments.encodeLastKey k))).
Proof.
  intros -> Htn Hp Hpid.
  destruct tn as [|x tn]; [discriminate|]. destruct pid as [|y pid]; [discriminate|].
  unfold GetComments.handler, GetComments.handler_try. rewrite Hp.
  cbn [GetComments.postId].
  split; [|split]; intros; match goal with H : sendQuery _ _ _ = _ |- _ => rewrite H end;
    reflexivity.
Qed.

(** X8.  The answer carries a cursor exactly when the store named a last
    key that is not empty; the cursor is then never the empty string, so
    a client that tests it for truth goes on. *)
Theorem getComments_cursor_iff_last_key event db tn pid items k :
  COMMENTS_TABLE_NAME = Some tn -> nonempty tn = true ->
  GetComments.pathParameters event = Some (GetComments.mkPath (Some pid)) ->
  nonempty pid = true ->
  sendQuery store (queryOf tn pid event) db = inr (QueryCommand.mkOutput items k) ->
  (forall key, k = Some key -> wfKey key) ->
  exists cursor,
    handler event db
    = mkResponse 200
        (CommentsBody (match items with Some l => l | None => [] end) cursor)
    /\ (cursor = None <-> k = None \/ k = Some [])
    /\ cursor <> Some [].
Proof.
  intros -> Htn Hp Hpid Hq Hk.
  destruct tn as [|x tn]; [discriminate|]. destruct pid as [|y pid]; [discriminate|].
  exists (GetComments.encodeLastKey k). split; [|split].
  - unfold GetComments.handler, GetComments.handler_try. rewrite Hp.
    cbn [GetComments.postId]. rewrite Hq. reflexivity.
  - apply encodeLastKey_none. exact Hk.
  - destruct k as [[|kv key]|]; try discriminate.
    destruct (@cursor_of_key (kv :: key)) as (cursor & -> & Hne & _);
      [discriminate | apply Hk; reflexivity |].
    intros H; injection H as ->. now elim Hne.
Qed.

End GetCommentsEdges.

(** X9.  When a start key goes to the store: exactly when the cursor
    decodes to JSON text of an object or an array that is not empty, and
    then the parsed value goes as it is; its attributes are not looked
    at. *)
Theorem getComments_start_key_sent tn pid limit cursor v :
  QueryCommand.ExclusiveStartKey
    (GetComments.dbQueryParams tn pid limit (GetComments.parseLastKey cursor))
  = Some v
  <-> exists c decoded,
      cursor = Some c /\ decodeURIComponent c = inr decoded
      /\ JSON_parse decoded = inr v
      /\ ((exists x l, v = JObj (x :: l)) \/ (exists x l, v = JArr (x :: l))).
Proof.
  unfold GetComments.dbQueryParams. cbn [QueryCommand.ExclusiveStartKey].
  split.
  - destruct (GetComments.usableStartKey (GetComments.parseLastKey cursor)) eqn:U;
      [|discriminate].
    intros H; injection H as H.
    unfold GetComments.parseLastKey in *.
    destruct cursor as [[|c0 c]|]; try discriminate.
    destruct (decodeURIComponent (c0 :: c)) as [e|[|d0 d]] eqn:D; try discriminate.
    destruct (JSON_parse (d0 :: d)) as [e|w] eqn:P; try discriminate.
    subst w. exists (c0 :: c), (d0 :: d). repeat split; try assumption.
    destruct v as [| | | |[|x l]|[|x l]]; try discriminate; eauto.
  - intros (c & decoded & -> & D & P & Hv).
    assert (Hc : c <> []).
    { intros ->. cbn in D. injection D as <-. discriminate. }
    assert (Hd : decoded <> []).
    { intros ->. discriminate. }
    unfold GetComments.parseLastKey.
    destruct c as [|c0 c]; [contradiction|]. rewrite D.
    destruct decoded as [|d0 d]; [contradiction|]. rewrite P.
    destruct Hv as [(x & l & ->) | (x & l & ->)]; reflexivity.
Qed.

(** ** Decimal digits *)

Lemma digits_of_acc (fuel : nat) :
  forall n acc, digits_of fuel n acc = digits_of fuel n [] ++ acc.
Proof.
  induction fuel as [|fuel IH]; intros n acc; cbn [digits_of]; [reflexivity|].
  destruct (n <? 10)%Z; [reflexivity|].
  rewrite (IH _ (_ :: acc)), (IH _ [_]), <- app_assoc. reflexivity.
Qed.

Lemma digits_of_small (fuel : nat) (n : Z) :
  (n < 10)%Z -> digits_of fuel n [] = [Z.to_N (48 + n mod 10)].
Proof.
  intros H. destruct fuel; cbn [digits_of]; [reflexivity|].
  replace (n <? 10)%Z with true by (symmetry; apply Z.ltb_lt; exact H).
  reflexivity.
Qed.

Lemma digits_of_large (fuel : nat) (n : Z) :
  (10 <= n)%Z ->
  digits_of (S fuel) n []
  = digits_of fuel (n / 10) [] ++ [Z.to_N (48 + n mod 10)].
Proof.
  intros H. cbn [digits_of].
  replace (n <? 10)%Z with false by (symmetry; apply Z.ltb_ge; exact H).
  apply digits_of_acc.
Qed.

Lemma digit_val_decimal (d : Z) :
  (0 <= d < 10)%Z -> digit_val 10 (Z.to_N (48 + d)) = Some (Z.to_N d).
Proof.
  intros H. unfold digit_val.
  replace ((48 <=? Z.to_N (48 + d)) && (Z.to_N (48 + d) <=? 57)) with true
    by (symmetry; apply andb_true_intro; split; apply N.leb_le; lia).
  replace (Z.to_N (48 + d) - 48) with (Z.to_N d) by lia.
  replace (Z.to_N d <? 10) with true by (symmetry; apply N.ltb_lt; lia).
  reflexivity.
Qed.

(** The digits of [n] are read back as [n], whatever follows them. *)
Lemma digits_prefix_digits_of (fuel : nat) :
  forall n rest,
    (0 <= n < 2 ^ (Z.of_nat fuel + 1))%Z ->
    digits_prefix 10 None (digits_of fuel n [] ++ rest)
    = digits_prefix 10 (Some (Z.to_N n)) rest.
Proof.
  induction fuel as [|fuel IH]; intros n rest Hn.
  - change (2 ^ (Z.of_nat 0 + 1))%Z with 2%Z in Hn.
    rewrite digits_of_small by lia. cbn [app digits_prefix].
    rewrite Z.mod_small by lia. rewrite digit_val_decimal by lia. reflexivity.
  - destruct (Z.lt_ge_cases n 10) as [Hs | Hl].
    + rewrite digits_of_small by lia. cbn [app digits_prefix].
      rewrite Z.mod_small by lia. rewrite digit_val_decimal by lia. reflexivity.
    + rewrite digits_of_large by exact Hl. rewrite <- app_assoc.
      assert (Hq : (0 <= n / 10 < 2 ^ (Z.of_nat fuel + 1))%Z).
      { replace (Z.of_nat (S fuel) + 1)%Z with (Z.succ (Z.of_nat fuel + 1)) in Hn by lia.
        rewrite Z.pow_succ_r in Hn by lia. zarith. }
      rewrite IH by exact Hq. cbn [app digits_prefix].
      rewrite digit_val_decimal by zarith.
      do 2 f_equal. zarith.
Qed.

Lemma digits_of_head (fuel : nat) :
  forall n, (0 < n < 2 ^ (Z.of_nat fuel + 1))%Z ->
            exists c r, digits_of fuel n [] = c :: r /\ 49 <= c <= 57.
Proof.
  induction fuel as [|fuel IH]; intros n Hn.
  - change (2 ^ (Z.of_nat 0 + 1))%Z with 2%Z in Hn.
    rewrite digits_of_small by lia. eexists _, _. split; [reflexivity|].
    rewrite Z.mod_small by lia. lia.
  - destruct (Z.lt_ge_cases n 10) as [Hs | Hl].
    + rewrite digits_of_small by lia. eexists _, _. split; [reflexivity|].
      rewrite Z.mod_small by lia. lia.
    + rewrite digits_of_large by exact Hl.
      destruct (IH (n / 10)%Z) as (c & r & -> & Hc).
      { replace (Z.of_nat (S fuel) + 1)%Z with (Z.succ (Z.of_nat fuel + 1)) in Hn by lia.
        rewrite Z.pow_succ_r in Hn by lia. zarith. }
      eexists _, _. split; [reflexivity | exact Hc].
Qed.

Lemma log2_fuel (n : Z) :
  (0 < n)%Z -> (0 < n < 2 ^ (Z.of_nat (Z.to_nat (Z.log2 n)) + 1))%Z.
Proof.
  intros H. rewrite Z2Nat.id by apply Z.log2_nonneg.
  pose proof (Z.log2_spec n H) as [_ Hu].
  replace (Z.log2 n + 1)%Z with (Z.succ (Z.log2 n)) by lia. lia.
Qed.

Lemma decimal_head (n : Z) :
  (0 < n)%Z -> exists c r, decimal n = c :: r /\ 49 <= c <= 57.
Proof.
  intros H. unfold decimal.
  replace (n <? 0)%Z with false by (symmetry; apply Z.ltb_ge; lia).
  apply digits_of_head, log2_fuel, H.
Qed.

Lemma digits_prefix_decimal (n : Z) (rest : jsstring) :
  (0 <= n)%Z ->
  digits_prefix 10 None (decimal n ++ rest)
  = digits_prefix 10 (Some (Z.to_N n)) rest.
Proof.
  intros H. unfold decimal.
  replace (n <? 0)%Z with false by (symmetry; apply Z.ltb_ge; lia).
  apply digits_prefix_digits_of.
  destruct (Z.eq_dec n 0) as [-> | Hz]; [cbn; lia|].
  pose proof (@log2_fuel n). lia.
Qed.

Lemma parseInt_decimal (n : Z) (rest : jsstring) :
  (0 < n)%Z ->
  (forall c, hd_error rest = Some c -> c < 48 \/ 57 < c) ->
  parseInt (decimal n ++ rest) = Some n.
Proof.
  intros Hn Hrest.
  pose proof (@digits_prefix_decimal n rest ltac:(lia)) as Hd.
  destruct (decimal_head Hn) as (c & r & E & Hc). rewrite E in *.
  assert (Hstop : digits_prefix 10 (Some (Z.to_N n)) rest = Some (Z.to_N n)).
  { destruct rest as [|x rest]; [reflexivity|]. cbn [digits_prefix].
    replace (digit_val 10 x) with (@None N); [reflexivity|].
    specialize (Hrest x eq_refl). unfold digit_val.
    destruct ((48 <=? x) && (x <=? 57)) eqn:E1.
    { apply andb_prop in E1 as [E1 E2]. apply N.leb_le in E1, E2. lia. }
    destruct ((97 <=? x) && (x <=? 122)) eqn:E2.
    { apply andb_prop in E2 as [E2 E3]. apply N.leb_le in E2.
      replace (x - 87 <? 10) with false by (symmetry; apply N.ltb_ge; lia).
      reflexivity. }
    destruct ((65 <=? x) && (x <=? 90)) eqn:E3; [|reflexivity].
    apply andb_prop in E3 as [E3 E4]. apply N.leb_le in E3.
    replace (x - 55 <? 10) with false by (symmetry; apply N.ltb_ge; lia).
    reflexivity. }
  rewrite Hstop in Hd.
  assert (Hcases : c = 49 \/ c = 50 \/ c = 51 \/ c = 52 \/ c = 53 \/ c = 54
                   \/ c = 55 \/ c = 56 \/ c = 57) by lia.
  unfold parseInt. change ((c :: r) ++ rest) with (c :: (r ++ rest)) in *.
  repeat (destruct Hcases as [-> | Hcases]);
    try subst c; cbn [trimStart is_ws N.leb N.eqb N.compare Pos.compare
                       Pos.compare_cont andb orb Pos.eqb];
    rewrite Hd; f_equal; lia.
Qed.

(** X10.  The page size is the whole number the [limit] parameter begins
    with: text after the digits is ignored, so a limit written out
    by a client as a number is read back as that number.  The bound is
    [2^53], below which every whole number is a double. *)
Theorem getComments_limit_reads_digits (n : Z) (rest : jsstring) :
  (0 < n < 9007199254740992)%Z ->
  (forall c, hd_error rest = Some c -> c < 48 \/ 57 < c) ->
  GetComments.parseLimit (Some (decimal n ++ rest)) = n.
Proof.
  intros Hn Hrest. apply parseLimit_value; [|lia].
  apply parseInt_decimal; [lia | exact Hrest].
Qed.

(** ** common/middleware.js *)

Lemma startsWith_app (searchString s : jsstring) :
  startsWith searchString (searchString ++ s) = true.
Proof.
  induction searchString as [|c p IH]; [reflexivity|].
  cbn [app startsWith]. rewrite N.eqb_refl. exact IH.
Qed.

Lemma split_plain (separator : N) (a : jsstring) :
  ~ In separator a -> split separator a = [a].
Proof.
  induction a as [|c a IH]; intros H; [reflexivity|].
  cbn [split]. destruct (N.eqb_spec c separator) as [-> | _].
  - elim H. left. reflexivity.
  - rewrite IH by (intros Hin; apply H; right; exact Hin). reflexivity.
Qed.

Lemma split_app (separator : N) (a b : jsstring) :
  ~ In separator a -> split separator (a ++ separator :: b) = a :: split separator b.
Proof.
  induction a as [|c a IH]; intros H.
  - cbn [app split]. rewrite N.eqb_refl. reflexivity.
  - cbn [app split]. destruct (N.eqb_spec c separator) as [-> | _].
    + elim H. left. reflexivity.
    + rewrite IH by (intros Hin; apply H; right; exact Hin). reflexivity.
Qed.

Lemma split_three (a b c : jsstring) :
  ~ In 46 a -> ~ In 46 b -> ~ In 46 c ->
  split 46 (a ++ 46 :: b ++ 46 :: c) = [a; b; c].
Proof.
  intros Ha Hb Hc.
  rewrite split_app by exact Ha. rewrite split_app by exact Hb.
  rewrite split_plain by exact Hc. reflexivity.
Qed.

Section WithAuthFacts.
Variables St R : Type.
Variable handler : Middleware.Event -> Middleware.User -> St -> R * St.
Variable base64ToString : jsstring -> jsstring.
Variable USERS_TABLE : option jsstring.
Variable sendUserQuery : UserQuery.Input -> Exn + UserQuery.Output.
Variable sendGetUser : GetUserCommand.Input -> Exn + GetUserCommand.Output.

Local Abbreviation withAuth :=
  (Middleware.withAuth handler base64ToString USERS_TABLE sendUserQuery sendGetUser).
Local Abbreviation findUser := (Middleware.findUser USERS_TABLE sendUserQuery).
Local Abbreviation decode_try :=
  (Middleware.decode_try handler base64ToString USERS_TABLE sendUserQuery).
Local Abbreviation fallback_try :=
  (Middleware.fallback_try handler USERS_TABLE sendUserQuery sendGetUser).
Local Abbreviation denied message error :=
  (@inl Middleware.Unauthorized R (Middleware.mk401 message error)).
Local Abbreviation usersQuery tn username :=
  (UserQuery.mkInput tn "username-index" "username = :username"
     [(":username"%string, username)]).

(** [userResult.Items[0].id || '']. *)
Local Abbreviation idOf item :=
  (match lookup (lit "id") item with
   | Some v => if truthy v then v else JStr []
   | None => JStr []
   end).

Lemma findUser_found username user :
  findUser username = inr user <->
  exists tn item items,
    USERS_TABLE = Some tn /\ nonempty tn = true
    /\ sendUserQuery (usersQuery tn username)
       = inr (UserQuery.mkOutput (Some (item :: items)))
    /\ user = Middleware.mkUser (idOf item) username.
Proof.
  unfold Middleware.findUser. split.
  - destruct USERS_TABLE as [[|x tn]|]; try discriminate.
    destruct (sendUserQuery _) as [e|[[[|item items]|]]] eqn:Q; try discriminate.
    cbn [UserQuery.Items]. intros H; injection H as <-.
    exists (x :: tn), item, items.
    split; [reflexivity|]. split; [reflexivity|]. split; [exact Q|]. f_equal.
    unfold or_, truthy_opt. destruct (lookup (lit "id") item) as [v|]; [|reflexivity].
    destruct (truthy v); reflexivity.
  - intros (tn & item & items & -> & Htn & Q & ->).
    destruct tn as [|x tn]; [discriminate|]. rewrite Q. cbn [UserQuery.Items].
    unfold or_, truthy_opt. destruct (lookup (lit "id") item) as [v|]; [|reflexivity].
    destruct (truthy v); reflexivity.
Qed.

Lemma findUser_unset username :
  USERS_TABLE = None \/ USERS_TABLE = Some [] ->
  findUser username = inl (Error "USERS_TABLE environment variable is not set").
Proof. unfold Middleware.findUser. intros [-> | ->]; reflexivity. Qed.

Lemma decode_try_returns event token st r st' :
  decode_try event token st = inr (Some (r, st')) ->
  exists username user,
    findUser username = inr user /\ handler event user st = (r, st').
Proof.
  unfold Middleware.decode_try.
  destruct (split 46 token) as [|? [|part [|? [|]]]]; try discriminate.
  destruct (JSON_parse _) as [|payload]; [discriminate|].
  destruct (Middleware.claimedUsername payload) as [|[username|]]; try discriminate.
  destruct (truthy username); [|discriminate].
  destruct (Middleware.findUser _ _ username) as [|user] eqn:F; [discriminate|].
  intros H; injection H as H. exists username, user. split; [exact F|exact H].
Qed.

Lemma fallback_try_returns event token st r st' :
  fallback_try event token st = inr (r, st') ->
  exists username user,
    findUser username = inr user /\ handler event user st = (r, st').
Proof.
  unfold Middleware.fallback_try.
  destruct (sendGetUser _) as [|userInfo]; [discriminate|].
  match goal with |- context [Middleware.findUser _ _ ?u] =>
    destruct (Middleware.findUser USERS_TABLE sendUserQuery u) as [|user] eqn:F;
      [discriminate|]; intros H; injection H as H; exists u, user end.
  split; [exact F|exact H].
Qed.

(** What [withAuth] does once it holds a token. *)
Lemma withAuth_token event st h a :
  Middleware.headers event = Some h ->
  match Middleware.Authorization h with
  | Some (_ :: _) => Middleware.Authorization h
  | _ => Middleware.authorization h
  end = Some a ->
  nonempty a = true ->
  let token := if startsWith (lit "Bearer ") a then skipn 7 a else a in
  withAuth event st =
  match decode_try event token st with
  | inr (Some (r, st')) => (inr r, st')
  | _ =>
      match fallback_try event token st with
      | inl e => (denied "Authentication failed" (Some e), st)
      | inr (r, st') => (inr r, st')
      end
  end.
Proof.
  intros Hh Ha Hn. unfold Middleware.withAuth, Middleware.withAuth_try.
  rewrite Hh. cbv zeta. rewrite Ha. destruct a as [|c a]; [discriminate|].
  destruct (Middleware.decode_try _ _ _ _ _ _ _) as [|[[r st']|]];
    try reflexivity;
    destruct (Middleware.fallback_try _ _ _ _ _ _ _) as [|[r st']]; reflexivity.
Qed.

(** X11.  No token, no call: when neither spelling of the header holds a
    text, the answer is the 401 of a missing token; an event without
    headers gets the 401 of a failed authentication.  In both cases the
    wrapped handler is not called and the state stays as it was. *)
Theorem withAuth_without_token event st :
  (forall h,
      Middleware.headers event = Some h ->
      Middleware.Authorization h = None \/ Middleware.Authorization h = Some [] ->
      Middleware.authorization h = None \/ Middleware.authorization h = Some [] ->
      withAuth event st = (denied "Missing authorization token" None, st))
  /\ (Middleware.headers event = None ->
      withAuth event st = (denied "Authentication failed" (Some TypeError), st)).
Proof.
  unfold Middleware.withAuth, Middleware.withAuth_try. split.
  - intros h -> [-> | ->] [-> | ->]; reflexivity.
  - intros ->. reflexivity.
Qed.

Lemma withAuth_runs event st r st' :
  withAuth event st = (inr r, st') ->
  exists username user,
    findUser username = inr user /\ handler event user st = (r, st').
Proof.
  intros H. unfold Middleware.withAuth, Middleware.withAuth_try in H.
  destruct (Middleware.headers event) as [h|]; [|discriminate].
  cbv zeta in H.
  destruct (match Middleware.Authorization h with
            | Some (_ :: _) => Middleware.Authorization h
            | _ => Middleware.authorization h
            end) as [[|c a]|]; try discriminate.
  destruct (Middleware.decode_try _ _ _ _ _ _ _) as [|[[r0 st0]|]] eqn:D.
  - destruct (Middleware.fallback_try _ _ _ _ _ _ _) as [|[r1 st1]] eqn:F;
      [discriminate|]. injection H as <- <-. exact (fallback_try_returns _ _ _ F).
  - injection H as <- <-. exact (decode_try_returns _ _ _ D).
  - destruct (Middleware.fallback_try _ _ _ _ _ _ _) as [|[r1 st1]] eqn:F;
      [discriminate|]. injection H as <- <-. exact (fallback_try_returns _ _ _ F).
Qed.

(** X12.  The wrapped handler runs only for a user of the users table:
    whenever the answer is not a 401, the table is configured, its
    username index returned an item for some username, and the answer and
    the new state are those of the handler, called once on the unchanged
    event with that username and the [id] of the first item ([''] when
    the item has none). *)
Theorem withAuth_only_for_stored_users event st r st' :
  withAuth event st = (inr r, st') ->
  exists tn username item items,
    USERS_TABLE = Some tn /\ nonempty tn = true
    /\ sendUserQuery (usersQuery tn username)
       = inr (UserQuery.mkOutput (Some (item :: items)))
    /\ handler event (Middleware.mkUser (idOf item) username) st = (r, st').
Proof.
  intros H. destruct (withAuth_runs _ _ H) as (username & user & F & Hh).
  apply findUser_found in F as (tn & item & items & Ht & Hn & Q & ->).
  exists tn, username, item, items.
  split; [exact Ht|]. split; [exact Hn|]. split; [exact Q | exact Hh].
Qed.

(** X13.  A token is believed on its payload alone.  When the header is
    [Bearer] followed by three parts, the second of which decodes to an
    object that names a user of the table under [cognito:username], the
    handler is called as that user, whatever the first and the third part
    are and whatever the identity provider would say: it is not asked. *)
Theorem withAuth_trusts_token_payload event st h first part signature
        props name tn item items :
  Middleware.headers event = Some h ->
  Middleware.Authorization h
  = Some (lit "Bearer " ++ first ++ 46 :: part ++ 46 :: signature) ->
  ~ In 46 first -> ~ In 46 part -> ~ In 46 signature ->
  JSON_parse (base64ToString part) = inr (JObj props) ->
  lookup (lit "cognito:username") props = Some name -> truthy name = true ->
  USERS_TABLE = Some tn -> nonempty tn = true ->
  sendUserQuery (usersQuery tn name)
  = inr (UserQuery.mkOutput (Some (item :: items))) ->
  withAuth event st
  = (inr (fst (handler event (Middleware.mkUser (idOf item) name) st)),
     snd (handler event (Middleware.mkUser (idOf item) name) st)).
Proof.
  intros Hh Ha H1 H2 H3 Hp Hl Ht Htn Hn Q.
  assert (Hm : match Middleware.Authorization h with
               | Some (_ :: _) => Middleware.Authorization h
               | _ => Middleware.authorization h
               end = Some (lit "Bearer " ++ first ++ 46 :: part ++ 46 :: signature))
    by (rewrite Ha; reflexivity).
  rewrite (@withAuth_token event st h _ Hh Hm eq_refl).
  cbv zeta. rewrite startsWith_app.
  change (skipn 7 (lit "Bearer " ++ first ++ 46 :: part ++ 46 :: signature))
    with (first ++ 46 :: part ++ 46 :: signature).
  unfold Middleware.decode_try. rewrite split_three by assumption.
  rewrite Hp. cbn [Middleware.claimedUsername]. rewrite Hl.
  unfold or_ at 2. cbn [truthy_opt]. rewrite Ht.
  unfold or_. cbn [truthy_opt]. rewrite Ht.
  assert (F : findUser name = inr (Middleware.mkUser (idOf item) name)).
  { apply findUser_found. exists tn, item, items. repeat split; assumption. }
  rewrite F, ?Ht. destruct (handler event _ st) as [r st']. reflexivity.
Qed.

(** X14.  Without the name of the users table nobody gets through: every
    request is answered 401, whatever its token and whatever the identity
    provider says, and the wrapped handler is not called. *)
Theorem withAuth_users_table_unset event st :
  USERS_TABLE = None \/ USERS_TABLE = Some [] ->
  exists message error,
    withAuth event st = (denied message error, st).
Proof.
  intros Hu.
  destruct (withAuth event st) as [[d|r] st'] eqn:W.
  - assert (st' = st) as ->.
    { unfold Middleware.withAuth, Middleware.withAuth_try in W.
      destruct (Middleware.headers event) as [h|]; [|now injection W].
      cbv zeta in W.
      destruct (match Middleware.Authorization h with
                | Some (_ :: _) => Middleware.Authorization h
                | _ => Middleware.authorization h
                end) as [[|c a]|]; try (now injection W).
      destruct (Middleware.decode_try _ _ _ _ _ _ _) as [|[[r0 st0]|]];
        try discriminate;
        destruct (Middleware.fallback_try _ _ _ _ _ _ _) as [|[r1 st1]];
        try discriminate; now injection W. }
    destruct d as [message error]. exists message, error. reflexivity.
  - apply withAuth_runs in W. destruct W as (username & user & F & _).
    rewrite (findUser_unset username Hu) in F. discriminate.
Qed.

(** X15.  A token that is not made of three parts is left to the
    identity provider: if the provider rejects it, the answer is a 401
    that names the provider's error; if the provider knows it, the caller
    is the user the table holds under the [preferred_username]
    attribute. *)
Theorem withAuth_asks_provider event st h a :
  Middleware.headers event = Some h ->
  Middleware.Authorization h = Some a -> a <> [] ->
  let token := if startsWith (lit "Bearer ") a then skipn 7 a else a in
  length (split 46 token) <> 3%nat ->
  (forall e,
      sendGetUser (GetUserCommand.mkInput token) = inl e ->
      withAuth event st = (denied "Authentication failed" (Some e), st))
  /\ (forall info attr name tn item items,
         sendGetUser (GetUserCommand.mkInput token) = inr info ->
         find (fun attr =>
                 str_eqb (GetUserCommand.Name attr) (lit "preferred_username"))
              (GetUserCommand.UserAttributes info) = Some attr ->
         GetUserCommand.Value attr = Some name -> name <> [] ->
         USERS_TABLE = Some tn -> nonempty tn = true ->
         sendUserQuery (usersQuery tn (JStr name))
         = inr (UserQuery.mkOutput (Some (item :: items))) ->
         withAuth event st
         = (inr (fst (handler event (Middleware.mkUser (idOf item) (JStr name)) st)),
            snd (handler event (Middleware.mkUser (idOf item) (JStr name)) st))).
Proof.
  intros Hh Ha Hne token Hparts.
  assert (Hm : match Middleware.Authorization h with
               | Some (_ :: _) => Middleware.Authorization h
               | _ => Middleware.authorization h
               end = Some a)
    by (rewrite Ha; destruct a; [contradiction|reflexivity]).
  assert (Hn : nonempty a = true) by (destruct a; [contradiction|reflexivity]).
  rewrite (@withAuth_token event st h a Hh Hm Hn). cbv zeta. fold token.
  assert (D : decode_try event token st = inr None).
  { unfold Middleware.decode_try.
    destruct (split 46 token) as [|? [|? [|? [|]]]]; try reflexivity.
    now elim Hparts. }
  rewrite D. unfold Middleware.fallback_try. split.
  - intros e ->. reflexivity.
  - intros info attr name tn item items -> Hf Hv Hname Htn Hnt Q.
    rewrite Hf, Hv. destruct name as [|c name]; [contradiction|].
    assert (F : findUser (JStr (c :: name))
                = inr (Middleware.mkUser (idOf item) (JStr (c :: name)))).
    { apply findUser_found. exists tn, item, items.
      split; [exact Htn|]. split; [exact Hnt|]. split; [exact Q|reflexivity]. }
    rewrite F. destruct (handler event _ st) as [r st']. reflexivity.
Qed.

End WithAuthFacts.

(** ** components/CommentItem.tsx: reading a time stamp back *)

Local Open Scope Z_scope.

Lemma digit_of_pad (x : Z) :
  CommentItem.digit (Z.to_N (48 + x mod 10)) = Some (x mod 10).
Proof.
  unfold CommentItem.digit.
  assert (H : 0 <= x mod 10 < 10) by zarith.
  replace ((48 <=? Z.to_N (48 + x mod 10))%N && (Z.to_N (48 + x mod 10) <=? 57)%N)
    with true by (symmetry; apply andb_true_intro; split; apply N.leb_le; lia).
  f_equal. lia.
Qed.

Lemma number_app (l r : jsstring) :
  forall acc,
    CommentItem.number acc (l ++ r)
    = match CommentItem.number acc l with
      | Some v => CommentItem.number v r
      | None => None
      end.
Proof.
  induction l as [|c l IH]; intros acc; [reflexivity|].
  cbn [app CommentItem.number]. destruct (CommentItem.digit c); [apply IH|reflexivity].
Qed.

Lemma number_pad (w : nat) :
  forall n, 0 <= n < 10 ^ Z.of_nat w -> CommentItem.number 0 (pad w n) = Some n.
Proof.
  induction w as [|w IH]; intros n Hn.
  - change (10 ^ Z.of_nat 0) with 1 in Hn. cbn [pad CommentItem.number]. f_equal. lia.
  - cbn [pad]. rewrite number_app.
    replace (Z.of_nat (S w)) with (Z.succ (Z.of_nat w)) in Hn by lia.
    rewrite Z.pow_succ_r in Hn by lia.
    rewrite IH by zarith. cbn [CommentItem.number]. rewrite digit_of_pad.
    f_equal. zarith.
Qed.

(** A date of the calendar and a time of the day, written out and read
    back. *)
Lemma utcDateTime_isoFormat (y mo d h mi s ms : Z) :
  0 <= y <= 9999 -> 1 <= mo <= 12 ->
  1 <= d <= CommentItem.DaysInMonth (InLeapYear y) mo ->
  0 <= h <= 23 -> 0 <= mi <= 59 -> 0 <= s <= 59 -> 0 <= ms <= 999 ->
  CommentItem.utcDateTime (isoFormat y mo d h mi s ms)
  = Some ((DayFromYear y + CommentItem.DaysBefore (InLeapYear y) mo + d - 1)
          * msPerDay + h * 3600000 + mi * 60000 + s * 1000 + ms).
Proof.
  intros Hy Hmo Hd Hh Hmi Hs Hms.
  assert (Hd' : d <= 31).
  { pose proof (InLeapYear_range y). unfold CommentItem.DaysInMonth in Hd.
    destruct (mo =? 2); [lia|].
    destruct ((mo =? 4) || (mo =? 6) || (mo =? 9) || (mo =? 11)); lia. }
  pose proof (@number_pad 4 y ltac:(cbn; lia)) as Ey.
  pose proof (@number_pad 2 mo ltac:(cbn; lia)) as Emo.
  pose proof (@number_pad 2 d ltac:(cbn; lia)) as Ed.
  pose proof (@number_pad 2 h ltac:(cbn; lia)) as Eh.
  pose proof (@number_pad 2 mi ltac:(cbn; lia)) as Emi.
  pose proof (@number_pad 2 s ltac:(cbn; lia)) as Es.
  pose proof (@number_pad 3 ms ltac:(cbn; lia)) as Ems.
  unfold isoFormat, isoYear.
  replace ((0 <=? y) && (y <=? 9999)) with true
    by (symmetry; apply andb_true_intro; split; apply Z.leb_le; lia).
  cbn [pad app] in *. unfold CommentItem.utcDateTime. cbv beta iota.
  rewrite Ey, Emo, Ed, Eh, Emi, Es, Ems.
  replace ((1 <=? mo) && (mo <=? 12) && (1 <=? d)
           && (d <=? CommentItem.DaysInMonth (InLeapYear y) mo)
           && (h <=? 23) && (mi <=? 59) && (s <=? 59)) with true
    by (symmetry; repeat (apply andb_true_intro; split); apply Z.leb_le; lia).
  reflexivity.
Qed.

(** The month and the date [MonthDate] gives are those of the calendar,
    and they give the day of the year back. *)
Lemma MonthDate_inverse (leap diy : Z) :
  0 <= leap <= 1 -> 0 <= diy <= 364 + leap ->
  let mo := fst (MonthDate leap diy) + 1 in
  let d := snd (MonthDate leap diy) in
  1 <= mo <= 12 /\ 1 <= d <= CommentItem.DaysInMonth leap mo
  /\ CommentItem.DaysBefore leap mo + d - 1 = diy.
Proof.
  intros Hl Hd. unfold MonthDate.
  repeat match goal with
         | |- context [?a <? ?b] => destruct (Z.ltb_spec a b)
         end;
    cbv zeta; cbn [fst snd];
    unfold CommentItem.DaysInMonth, CommentItem.DaysBefore;
    repeat (match goal with
            | |- context [?a =? ?b] => destruct (Z.eqb_spec a b)
            | |- context [?a <=? ?b] => destruct (Z.leb_spec a b)
            end; try (exfalso; lia));
    cbn [orb]; lia.
Qed.

Lemma utcDateTime_toISOString (t : Z) :
  minTime <= t <= maxTime -> CommentItem.utcDateTime (toISOString t) = Some t.
Proof.
  intros Ht. unfold toISOString.
  destruct (YearFromDay_spec (Day_range Ht)) as [Hday Hy].
  pose proof (InLeapYear_range (YearFromDay (Day t))) as Hl.
  assert (Hdiy : 0 <= Day t - DayFromYear (YearFromDay (Day t))
                 <= 364 + InLeapYear (YearFromDay (Day t))).
  { unfold InLeapYear in *. lia. }
  destruct (MonthDate_inverse Hl Hdiy) as (Hmo & Hd & Hinv).
  rewrite utcDateTime_isoFormat; try assumption;
    try (unfold TimeWithinDay, msPerDay; zarith).
  f_equal. unfold TimeWithinDay, Day, msPerDay in *. zarith.
Qed.

Section RelativeTime.
Variable otherDate : jsstring -> option Z.
Variables now t : Z.
Hypothesis Ht : minTime <= t <= maxTime.

Local Abbreviation shown :=
  (CommentItem.formatRelativeTime otherDate now (toISOString t)).

Lemma Date_parse_toISOString :
  CommentItem.Date_parse otherDate (toISOString t) = Some t.
Proof.
  unfold CommentItem.Date_parse. rewrite utcDateTime_toISOString by exact Ht.
  reflexivity.
Qed.

(** The text shown for a comment, by the milliseconds since it was
    created. *)
Lemma formatRelativeTime_age :
  shown
  = let age := now - t in
    if age <? 60000 then lit "just now"
    else if age <? 3600000 then decimal (age / 60000) ++ lit "m ago"
    else if age <? 86400000 then decimal (age / 3600000) ++ lit "h ago"
    else if age <? 604800000 then decimal (age / 86400000) ++ lit "d ago"
    else if age <? 2419200000 then decimal (age / 604800000) ++ lit "w ago"
    else if age <? 31104000000
         then decimal (age / 86400000 / 30) ++ lit "mo ago"
    else decimal (age / 86400000 / 365) ++ lit "y ago".
Proof.
  unfold CommentItem.formatRelativeTime. rewrite Date_parse_toISOString.
  cbv zeta.
  repeat (match goal with
          | |- context [?a <? ?b] => destruct (Z.ltb_spec a b)
          end; try (exfalso; zarith));
    try reflexivity; do 2 f_equal; zarith.
Qed.

End RelativeTime.

(** X16.  The time stamp the writer stores is read back by the comment
    item as the same instant, and the text shown depends on the age of
    the comment alone: under a minute (or a date in the future) "just
    now", then whole minutes, hours, days, weeks up to 27 days, months of
    30 days up to 359 days, years of 365 days. *)
Theorem formatRelativeTime_by_age otherDate now t :
  minTime <= t <= maxTime -> minTime <= now <= maxTime ->
  CommentItem.Date_parse otherDate (toISOString t) = Some t
  /\ CommentItem.formatRelativeTime otherDate now (toISOString t)
     = let age := now - t in
       if age <? 60000 then lit "just now"
       else if age <? 3600000 then decimal (age / 60000) ++ lit "m ago"
       else if age <? 86400000 then decimal (age / 3600000) ++ lit "h ago"
       else if age <? 604800000 then decimal (age / 86400000) ++ lit "d ago"
       else if age <? 2419200000 then decimal (age / 604800000) ++ lit "w ago"
       else if age <? 31104000000
            then decimal (age / 86400000 / 30) ++ lit "mo ago"
       else decimal (age / 86400000 / 365) ++ lit "y ago".
Proof.
  intros Ht _. split;
    [apply Date_parse_toISOString | apply formatRelativeTime_age]; exact Ht.
Qed.

(** X17.  The count shown is zero in two gaps: a comment of 28 or 29
    days is "0mo ago" (four weeks are over and a month of 30 days is
    not), one of 360 to 364 days "0y ago".  Outside the gaps a comment
    of a minute or more is shown with a count of at least one. *)
Theorem formatRelativeTime_zero_counts otherDate now t :
  minTime <= t <= maxTime -> minTime <= now <= maxTime ->
  let days := (now - t) / 86400000 in
  (28 <= days < 30 ->
   CommentItem.formatRelativeTime otherDate now (toISOString t) = lit "0mo ago")
  /\ (360 <= days < 365 ->
      CommentItem.formatRelativeTime otherDate now (toISOString t) = lit "0y ago")
  /\ (60000 <= now - t -> ~ 28 <= days < 30 -> ~ 360 <= days < 365 ->
      exists n unit,
        1 <= n /\ In unit ["m"; "h"; "d"; "w"; "mo"; "y"]%string
        /\ CommentItem.formatRelativeTime otherDate now (toISOString t)
           = decimal n ++ lit unit ++ lit " ago").
Proof.
  intros Ht _. cbv zeta. rewrite (formatRelativeTime_age otherDate now Ht).
  cbv zeta. split; [|split].
  - intros H.
    repeat (match goal with
            | |- context [?a <? ?b] => destruct (Z.ltb_spec a b)
            end; try (exfalso; zarith)).
    replace ((now - t) / 86400000 / 30) with 0 by zarith. reflexivity.
  - intros H.
    repeat (match goal with
            | |- context [?a <? ?b] => destruct (Z.ltb_spec a b)
            end; try (exfalso; zarith)).
    replace ((now - t) / 86400000 / 365) with 0 by zarith. reflexivity.
  - intros H1 H2 H3.
    repeat (match goal with
            | |- context [?a <? ?b] => destruct (Z.ltb_spec a b)
            end; try (exfalso; zarith)).
    + exists ((now - t) / 60000), "m"%string.
      split; [zarith|]. split; [cbn; tauto | reflexivity].
    + exists ((now - t) / 3600000), "h"%string.
      split; [zarith|]. split; [cbn; tauto | reflexivity].
    + exists ((now - t) / 86400000), "d"%string.
      split; [zarith|]. split; [cbn; tauto | reflexivity].
    + exists ((now - t) / 604800000), "w"%string.
      split; [zarith|]. split; [cbn; tauto | reflexivity].
    + exists ((now - t) / 86400000 / 30), "mo"%string.
      split; [zarith|]. split; [cbn; tauto | reflexivity].
    + exists ((now - t) / 86400000 / 365), "y"%string.
      split; [zarith|]. split; [cbn; tauto | reflexivity].
Qed.

Local Open Scope N_scope.

(** ** The front end and the writer *)

Lemma client_body_fields (postId text : jsstring) :
  wf16 postId -> wf16 text ->
  JSON_parse (JSON_stringify [(lit "postId", postId); (lit "text", text)])
  = inr (JObj [(lit "postId", JStr postId); (lit "text", JStr text)]).
Proof.
  intros Hp Ht. apply parse_stringify. split.
  - cbn [map fst]. repeat constructor.
    + intros [H | []]. discriminate H.
    + intros [].
  - repeat constructor; cbn [fst snd]; try assumption;
      apply wf16b_wf16; reflexivity.
Qed.

Section ClientAndServer.
Variable store : Store.
Variable COMMENTS_TABLE_NAME : option jsstring.
Variable commentId : jsstring.
Variable now : Z.
Variable API_URL : jsstring.

(** X18.  The form and the writer draw the same line.  For a post id
    that is not empty, a text that leaves the button disabled would be
    refused by the writer with a 400 if it were sent, and a text that
    enables it is never refused as invalid: sent as the API sends it, it
    is stored trimmed as soon as the table, the caller and the store
    allow. *)
Theorem commentInput_agrees_with_server postId text token submitting error user db :
  wf16 postId -> wf16 text -> postId <> [] ->
  let s := CommentInput.mkState text submitting error in
  let request := Api.createCommentRequest API_URL postId text token in
  let answer :=
    CreateComment.handler store COMMENTS_TABLE_NAME commentId now
      (CreateComment.mkEvent (Api.body request) user) db in
  (CommentInput.isValid s = false ->
   exists msg, answer = (CreateComment.validationError msg, db))
  /\ (CommentInput.isValid s = true ->
      statusCode (fst answer) <> 400%Z
      /\ forall tn u db',
          COMMENTS_TABLE_NAME = Some tn -> nonempty tn = true ->
          user = Some u ->
          sendPut store
            (PutCommand.mkInput tn
               (mkComment commentId (JStr postId) (CreateComment.id u)
                          (CreateComment.username u) (trim text)
                          (toISOString now))) db = inr db' ->
          answer
          = (mkResponse 201
               (CommentBody
                  (mkComment commentId (JStr postId) (CreateComment.id u)
                             (CreateComment.username u) (trim text)
                             (toISOString now))), db')).
Proof.
  intros Hp Ht Hne. cbv zeta.
  unfold Api.createCommentRequest. cbn [Api.body].
  unfold CreateComment.handler.
  rewrite (@handler_try_fields store COMMENTS_TABLE_NAME commentId now
             (CreateComment.mkEvent
                (Some (JSON_stringify [(lit "postId", postId); (lit "text", text)]))
                user) db
             _ _ (Some (JStr postId)) (Some (JStr text))
             eq_refl eq_refl (client_body_fields Hp Ht) eq_refl).
  unfold spec_firstFailure, CommentInput.isValid, CommentInput.MAX_COMMENT_LENGTH.
  cbn [truthy_opt truthy CommentInput.text CreateComment.user].
  destruct postId as [|p0 postId]; [contradiction|]. cbn [negb].
  destruct text as [|c text].
  { split; [eexists; reflexivity | discriminate]. }
  cbn [negb].
  destruct (str_eqb (trim (c :: text)) []) eqn:E.
  { apply str_eqb_eq in E. rewrite E. split; [eexists; reflexivity | discriminate]. }
  apply str_eqb_neq in E.
  replace (0 <? length (trim (c :: text)))%nat with true
    by (symmetry; apply Nat.ltb_lt; destruct (trim (c :: text)); [contradiction|cbn; lia]).
  cbn [andb].
  destruct (Nat.ltb_spec 280 (length (c :: text))) as [Hl | Hl].
  { replace (Z.of_nat (length (c :: text)) <=? 280)%Z with false
      by (symmetry; apply Z.leb_gt; lia).
    split; [eexists; reflexivity | discriminate]. }
  replace (Z.of_nat (length (c :: text)) <=? 280)%Z with true
    by (symmetry; apply Z.leb_le; lia).
  split; [discriminate|]. intros _. split.
  - destruct COMMENTS_TABLE_NAME as [[|x tn]|]; try (cbn; discriminate).
    destruct user; [|cbn; discriminate].
    cbv zeta. destruct (sendPut store _ db); cbn; discriminate.
  - intros tn u db' -> Htn -> Hput. destruct tn as [|x tn]; [discriminate|].
    cbv zeta. rewrite Hput. reflexivity.
Qed.

End ClientAndServer.

Lemma handleSubmit_calls_api postId createComment s tk :
  CommentInput.isValid s = true -> tk <> [] ->
  CommentInput.handleSubmit postId (Some tk) createComment s
  = match createComment postId (CommentInput.text s) tk with
    | inr newComment => (CommentInput.mkState [] false None, Some newComment)
    | inl err =>
        (CommentInput.mkState (CommentInput.text s) false
                              (Some (CommentInput.MessageOf err)), None)
    end.
Proof.
  unfold CommentInput.isValid, CommentInput.handleSubmit. intros Hv Htk.
  apply andb_prop in Hv as [Ht Hl]. apply Nat.ltb_lt in Ht.
  destruct (trim (CommentInput.text s)) as [|c r]; [cbn in Ht; lia|].
  cbn [nonempty negb].
  replace (CommentInput.MAX_COMMENT_LENGTH <? Z.of_nat (length (CommentInput.text s)))%Z
    with false by (symmetry; apply Z.ltb_ge; apply Z.leb_le; exact Hl).
  destruct tk as [|x tk]; [contradiction|]. reflexivity.
Qed.

(** X19.  [handleSubmit] calls the API exactly when the button is
    enabled by the text and a token is at hand.  Otherwise nothing is
    sent, whatever the API would do, and the text stays in the box under
    a notice of the component; after a call the box is emptied and the
    new comment handed on if the API answered, and the text is kept under
    the message of the failure if it threw. *)
Theorem handleSubmit_sends_only_valid_text postId token createComment s :
  (CommentInput.isValid s = false \/ token = None \/ token = Some [] ->
   exists notice,
     forall api,
       CommentInput.handleSubmit postId token api s
       = (CommentInput.mkState (CommentInput.text s) (CommentInput.submitting s)
                               (Some (CommentInput.Fixed notice)), None))
  /\ (forall tk,
         CommentInput.isValid s = true -> token = Some tk -> tk <> [] ->
         CommentInput.handleSubmit postId token createComment s
         = match createComment postId (CommentInput.text s) tk with
           | inr newComment => (CommentInput.mkState [] false None, Some newComment)
           | inl err =>
               (CommentInput.mkState (CommentInput.text s) false
                                     (Some (CommentInput.MessageOf err)), None)
           end).
Proof.
  split.
  - unfold CommentInput.handleSubmit, CommentInput.isValid,
      CommentInput.MAX_COMMENT_LENGTH.
    destruct (trim (CommentInput.text s)) as [|c r] eqn:E; cbn [nonempty negb length].
    { intros _; eexists; intros api; reflexivity. }
    replace (0 <? S (length r))%nat with true by (symmetry; apply Nat.ltb_lt; lia).
    cbn [andb].
    destruct (Z.ltb_spec 280 (Z.of_nat (length (CommentInput.text s)))) as [Hl | Hl].
    { intros _; eexists; intros api; reflexivity. }
    replace (Z.of_nat (length (CommentInput.text s)) <=? 280)%Z with true
      by (symmetry; apply Z.leb_le; lia).
    intros [H | [-> | ->]]; [discriminate | |]; eexists; intros api; reflexivity.
  - intros tk Hv -> Htk. apply handleSubmit_calls_api; assumption.
Qed.

(** ** The front end and the reader *)

Lemma hex_upper_safe (n : N) : n < 16 -> uri_safe (hex_upper n) = true.
Proof.
  intros H.
  assert (Hc : In n [0; 1; 2; 3; 4; 5; 6; 7; 8; 9; 10; 11; 12; 13; 14; 15])
    by (cbn [In]; lia).
  cbn [In] in Hc.
  repeat (destruct Hc as [<- | Hc]; [reflexivity|]). contradiction.
Qed.

Lemma pct_safe (b : N) : b < 256 -> forallb uri_safe (pct b) = true.
Proof.
  intros H. unfold pct. cbn [forallb].
  rewrite !hex_upper_safe by arith. reflexivity.
Qed.

Lemma pct_utf8_safe (cp : N) : cp < 1114112 -> forallb uri_safe (pct_utf8 cp) = true.
Proof.
  intros H. unfold pct_utf8. pose proof (utf8_octets H) as Ho.
  induction Ho as [|b bs Hb _ IH]; [reflexivity|].
  cbn [flat_map]. rewrite forallb_app, pct_safe, IH by assumption. reflexivity.
Qed.

(** What [encodeURIComponent] writes is made of the characters it leaves
    alone and of percent signs. *)
Lemma encode_go_safe (n : nat) :
  forall s e, (length s <= n)%nat -> wf16 s -> encode_go s = Some e ->
              forallb uri_safe e = true.
Proof.
  induction n as [|n IH]; intros s e Hlen Hwf He.
  - destruct s; [|cbn in Hlen; lia]. injection He as <-. reflexivity.
  - destruct s as [|c s]; [injection He as <-; reflexivity|].
    cbn [encode_go] in He. cbn [length] in Hlen.
    inversion Hwf as [|? ? Hc Hwf']; subst.
    destruct (uri_unreserved c) eqn:U.
    { destruct (encode_go s) as [e'|] eqn:E'; [|discriminate]. injection He as <-.
      cbn [forallb]. unfold uri_safe at 1. rewrite U. cbn [orb andb].
      apply (IH s e'); [lia | assumption | assumption]. }
    destruct (is_low c) eqn:L; [discriminate|].
    destruct (is_high c) eqn:Hi.
    { destruct s as [|d s]; [discriminate|].
      destruct (is_low d) eqn:Ld; [|discriminate].
      destruct (encode_go s) as [e'|] eqn:E'; [|discriminate]. injection He as <-.
      inversion Hwf' as [|? ? Hd Hwf'']; subst.
      rewrite forallb_app, pct_utf8_safe by (apply pair_cp_range; assumption).
      cbn [andb]. apply (IH s e'); [cbn [length] in Hlen; lia | assumption | assumption]. }
    destruct (encode_go s) as [e'|] eqn:E'; [|discriminate]. injection He as <-.
    rewrite forallb_app, pct_utf8_safe by lia.
    cbn [andb]. apply (IH s e'); [lia | assumption | assumption].
Qed.

Lemma uri_safe_ascii (c : N) : uri_safe c = true -> c < 128.
Proof.
  unfold uri_safe, uri_unreserved, is_alnum, is_digit. intros H.
  repeat (apply orb_prop in H; destruct H as [H | H]);
    try (apply andb_prop in H; destruct H as [_ H]; apply N.leb_le in H; lia);
    apply N.eqb_eq in H; lia.
Qed.

Lemma safe_text (e : jsstring) :
  forallb uri_safe e = true -> wf16 e /\ Forall plain e.
Proof.
  intros H. rewrite forallb_forall in H. split; apply Forall_forall; intros c Hc;
    pose proof (uri_safe_ascii c (H c Hc)).
  - lia.
  - apply plain_small. lia.
Qed.

(** X20.  A cursor survives the way back to the reader.  The API escapes
    the cursor once more for the query string; what it writes holds
    nothing but unreserved characters and percent signs, so it cannot end
    the parameter; unescaped once it is the cursor again, which the
    reader decodes to the key it stands for.  The page size, a whole
    number below [2^53], travels as decimal digits and is read back as
    the same number. *)
Theorem getComments_request_carries_cursor API_URL postId token n k :
  (0 < n < 9007199254740992)%Z -> k <> [] -> wfKey k ->
  exists cursor e,
    GetComments.encodeLastKey (Some k) = Some cursor
    /\ Api.getCommentsRequest API_URL postId token (Some n) (Some cursor)
       = inr (Api.mkRequest
                ((API_URL ++ lit "/posts/" ++ postId ++ lit "/comments?limit="
                          ++ decimal n) ++ lit "&lastKey=" ++ e)
                "GET" None (lit "Bearer " ++ token) None)
    /\ forallb uri_safe e = true
    /\ decodeURIComponent e = inr cursor
    /\ GetComments.parseLastKey (Some cursor) = key_value k
    /\ GetComments.parseLimit (Some (decimal n)) = n.
Proof.
  intros Hn Hk Hwf.
  destruct (cursor_of_key Hk Hwf) as (cursor & Hc & Hne & _ & Hparse).
  assert (Hsafe : forallb uri_safe cursor = true).
  { unfold GetComments.encodeLastKey in Hc. destruct k as [|p k]; [contradiction|].
    unfold encodeURIComponent in Hc.
    destruct (encode_go (JSON_stringify (p :: k))) as [e0|] eqn:E0; [|discriminate].
    injection Hc as <-.
    apply (@encode_go_safe (length (JSON_stringify (p :: k))) _ _ (Nat.le_refl _)
             (wf16_JSON_stringify (proj2 Hwf)) E0). }
  destruct (safe_text _ Hsafe) as [Hw16 Hplain].
  destruct (encode_go cursor) as [e|] eqn:E.
  2:{ exfalso. apply (@encode_plain_app cursor [] Hplain); [discriminate|].
      rewrite app_nil_r. exact E. }
  exists cursor, e. split; [exact Hc|]. split.
  - unfold Api.getCommentsRequest. destruct cursor as [|c0 cursor]; [contradiction|].
    unfold encodeURIComponent. rewrite E. reflexivity.
  - split; [apply (@encode_go_safe (length cursor) cursor e (Nat.le_refl _) Hw16 E)|].
    split; [apply decode_encode; [exact Hw16 | unfold encodeURIComponent; rewrite E; reflexivity]|].
    split; [exact Hparse|].
    apply parseLimit_value; [|lia].
    rewrite <- (app_nil_r (decimal n)). apply parseInt_decimal; [lia|].
    intros c Hc0. discriminate Hc0.
Qed.

(** X21.  What the form does with the answer to a text it sends.  An
    answer in the range 200 to 299 whose body is JSON empties the box and
    hands the body on as the new comment.  Everything else keeps the text
    in the box under a message: the [message] of the body when the
    answer has one that is truthy, "API error:" and the status when the
    body cannot be read or holds an object without one, and the error of
    [fetch] when no answer came. *)
Theorem commentInput_keeps_draft_unless_2xx API_URL fetch postId tk s :
  CommentInput.isValid s = true -> tk <> [] ->
  let request := Api.createCommentRequest API_URL postId (CommentInput.text s) tk in
  let after :=
    CommentInput.handleSubmit postId (Some tk) (Api.createComment API_URL fetch) s in
  let kept failure :=
    (CommentInput.mkState (CommentInput.text s) false
                          (Some (CommentInput.MessageOf failure)), @None JsValue) in
  (forall response v,
      fetch request = inr response -> Api.ok response = true ->
      Api.json response = inr v ->
      after = (CommentInput.mkState [] false None, Some v))
  /\ (forall response props m,
         fetch request = inr response -> Api.ok response = false ->
         Api.json response = inr (JObj props) ->
         lookup (lit "message") props = Some m -> truthy m = true ->
         after = kept (Api.ErrorOf m))
  /\ (forall response,
         fetch request = inr response -> Api.ok response = false ->
         (exists e, Api.json response = inl e)
         \/ (exists props, Api.json response = inr (JObj props)
                           /\ lookup (lit "message") props = None) ->
         after = kept (Api.ErrorOf
                         (JStr (lit "API error: " ++ decimal (Api.status response)))))
  /\ (forall e, fetch request = inl e -> after = kept (Api.Thrown e)).
Proof.
  intros Hv Htk. cbv zeta.
  rewrite (@handleSubmit_calls_api postId (Api.createComment API_URL fetch) s tk
             Hv Htk).
  unfold Api.createComment.
  split; [|split; [|split]].
  - intros response v -> Hok Hj. unfold Api.handleResponse. rewrite Hok, Hj.
    reflexivity.
  - intros response props m -> Hok Hj Hl Ht. unfold Api.handleResponse.
    rewrite Hok, Hj, Hl. unfold or_. cbn [negb truthy_opt]. rewrite Ht. reflexivity.
  - intros response -> Hok [[e Hj] | (props & Hj & Hl)]; unfold Api.handleResponse;
      rewrite Hok, Hj; cbn [negb]; [|rewrite Hl]; reflexivity.
  - intros e ->. reflexivity.
Qed.

(** ** The properties above on sample requests *)

Lemma createComment_text_not_a_string_witness :
  CreateComment.handler tableStore testTable mockCommentId mockNow
    (CreateComment.mkEvent
       (Some (lit "{" ++ quoted "postId" ++ lit ":" ++ quoted "post-456"
                  ++ lit "," ++ quoted "text" ++ lit ":123}"))
       (Some mockUser)) []
  = (mkResponse 500
       (ErrorBody "InternalServerError" "Error creating comment" (Some TypeError)),
     []).
Proof.
  eapply (@createComment_text_not_a_string tableStore testTable mockCommentId mockNow).
  - reflexivity.
  - reflexivity.
  - vm_compute. reflexivity.
  - reflexivity.
  - reflexivity.
  - reflexivity.
  - reflexivity.
  - intros s H. discriminate H.
Defined.

Lemma createComment_body_not_an_object_witness :
  CreateComment.handler tableStore testTable mockCommentId mockNow
    (CreateComment.mkEvent (Some (lit "null")) (Some mockUser)) []
  = (mkResponse 500
       (ErrorBody "InternalServerError" "Error creating comment" (Some TypeError)),
     [])
  /\ CreateComment.handler tableStore testTable mockCommentId mockNow
       (CreateComment.mkEvent (Some (lit "[1]")) (Some mockUser)) []
     = (CreateComment.validationError "Post ID is required", []).
Proof.
  split.
  - apply (@createComment_body_not_an_object tableStore testTable mockCommentId
             mockNow _ [] (lit "null") JNull);
      [reflexivity | reflexivity | reflexivity | intros props H; discriminate H].
  - apply (@createComment_body_not_an_object tableStore testTable mockCommentId
             mockNow _ [] (lit "[1]") (JArr [JNum (mkNum false 1 0)]));
      [reflexivity | reflexivity | reflexivity | intros props H; discriminate H].
Defined.

Lemma createComment_failures_after_validation_witness :
  CreateComment.handler tableStore None mockCommentId mockNow
    (createEvent [(lit "postId", lit "post-456"); (lit "text", lit "Test comment")]) []
  = (mkResponse 500
       (ErrorBody "InternalServerError" "Error creating comment"
          (Some (Error "COMMENTS_TABLE_NAME environment variable is not set"))),
     []).
Proof.
  refine (proj1 (@createComment_failures_after_validation tableStore None
                   mockCommentId mockNow
                   (createEvent [(lit "postId", lit "post-456");
                                 (lit "text", lit "Test comment")]) []
                   (JSON_stringify [(lit "postId", lit "post-456");
                                    (lit "text", lit "Test comment")])
                   (JObj [(lit "postId", JStr (lit "post-456"));
                          (lit "text", JStr (lit "Test comment"))])
                   (JStr (lit "post-456")) (lit "Test comment")
                   eq_refl eq_refl _ eq_refl eq_refl _ _) (or_introl eq_refl)).
  - vm_compute. reflexivity.
  - vm_compute. discriminate.
  - vm_compute. lia.
Defined.

Lemma createComment_stored_text_is_trimmed_witness :
  trim (lit "Test comment") = lit "Test comment".
Proof.
  refine (proj1 (proj2 (@createComment_stored_text_is_trimmed tableStore testTable
                          mockCommentId mockNow
                          (createEvent [(lit "postId", lit "post-456");
                                        (lit "text", lit "  Test comment  ")])
                          [] (mkComment mockCommentId (JStr (lit "post-456"))
                                        (lit "user-123") (lit "testuser")
                                        (lit "Test comment")
                                        (lit "2024-01-01T00:00:00.000Z"))
                          _ _))).
  vm_compute. reflexivity.
Defined.

Lemma createComment_blank_text_witness :
  createComment [(lit "postId", lit "post-456"); (lit "text", [32; 160; 65279])] []
  = (CreateComment.validationError
       "Comment text cannot be empty or contain only whitespace", []).
Proof.
  refine (proj2 (proj2 (@createComment_blank_text tableStore testTable mockCommentId
                          mockNow
                          (createEvent [(lit "postId", lit "post-456");
                                        (lit "text", [32; 160; 65279])]) []
                          (JSON_stringify [(lit "postId", lit "post-456");
                                           (lit "text", [32; 160; 65279])])
                          [(lit "postId", JStr (lit "post-456"));
                           (lit "text", JStr [32; 160; 65279])]
                          (JStr (lit "post-456")) [32; 160; 65279]
                          eq_refl eq_refl _ eq_refl eq_refl eq_refl))
                (conj _ eq_refl)).
  - vm_compute. reflexivity.
  - discriminate.
Defined.

Lemma getComments_checks_table_first_witness :
  GetComments.handler (mockSend noItems) None (getEvent None None None) tt
  = mkResponse 500
      (ErrorBody "InternalServerError" "Error retrieving comments"
         (Some (Error "COMMENTS_TABLE_NAME environment variable is not set"))).
Proof.
  exact (proj1 (@getComments_checks_table_first (mockSend noItems) None
                  (getEvent None None None) tt) (or_introl eq_refl)).
Defined.

Lemma getComments_passes_store_answer_witness :
  GetComments.handler (mockSend (inl StorageError)) testTable
    (getEvent (Some (lit "post-123")) None None) tt
  = mkResponse 500
      (ErrorBody "InternalServerError" "Error retrieving comments"
         (Some StorageError)).
Proof.
  exact (proj1 (@getComments_passes_store_answer (mockSend (inl StorageError))
                  testTable (getEvent (Some (lit "post-123")) None None) tt
                  (lit "TestCommentsTable") (lit "post-123")
                  eq_refl eq_refl eq_refl eq_refl) StorageError eq_refl).
Defined.

Lemma getComments_cursor_iff_last_key_witness :
  exists cursor,
    GetComments.handler
      (mockSend (inr (QueryCommand.mkOutput (Some [testComment (lit "post-123") 0])
                        (Some [(lit "id", lit "comment-000")]))))
      testTable (getEvent (Some (lit "post-123")) (Some (lit "1")) None) tt
    = mkResponse 200 (CommentsBody [testComment (lit "post-123") 0] cursor)
    /\ (cursor = None
        <-> Some [(lit "id", lit "comment-000")] = None
            \/ Some [(lit "id", lit "comment-000")] = Some [])
    /\ cursor <> Some [].
Proof.
  refine (@getComments_cursor_iff_last_key
            (mockSend (inr (QueryCommand.mkOutput
                              (Some [testComment (lit "post-123") 0])
                              (Some [(lit "id", lit "comment-000")]))))
            testTable
            (getEvent (Some (lit "post-123")) (Some (lit "1")) None) tt
            (lit "TestCommentsTable") (lit "post-123")
            (Some [testComment (lit "post-123") 0])
            (Some [(lit "id", lit "comment-000")])
            eq_refl eq_refl eq_refl eq_refl eq_refl _).
  intros key H. injection H as <-. split.
  - repeat constructor. intros [].
  - repeat constructor; apply wf16b_wf16; reflexivity.
Defined.

Lemma getComments_limit_reads_digits_witness :
  GetComments.parseLimit (Some (decimal 10 ++ lit "abc")) = 10%Z.
Proof.
  apply getComments_limit_reads_digits; [lia|].
  intros c H. injection H as <-. right. reflexivity.
Defined.

Lemma withAuth_without_token_witness :
  wrappedHandler userFound (inl TypeError) (authEvent []) []
  = (inl (Middleware.mk401 "Missing authorization token" None), []).
Proof.
  refine (proj1 (@withAuth_without_token _ _ mockHandler asciiBase64 usersTable
                   (fun _ => userFound) (fun _ => inl TypeError)
                   (authEvent []) [])
                (Middleware.mkHeaders (Some []) None) eq_refl
                (or_intror eq_refl) (or_introl eq_refl)).
Defined.

Lemma withAuth_only_for_stored_users_witness :
  exists tn username item items,
    usersTable = Some tn /\ nonempty tn = true
    /\ userFound = inr (UserQuery.mkOutput (Some (item :: items)))
    /\ mockHandler (authEvent (lit "Bearer " ++ mockToken))
         (Middleware.mkUser
            match lookup (lit "id") item with
            | Some v => if truthy v then v else JStr []
            | None => JStr []
            end username) []
       = (200%Z, [(authEvent (lit "Bearer " ++ mockToken),
                   Middleware.mkUser (JStr (lit "user-123")) (JStr (lit "testuser")))]).
Proof.
  refine (@withAuth_only_for_stored_users _ _ mockHandler asciiBase64 usersTable
            (fun _ => userFound) (fun _ => inl TypeError)
            (authEvent (lit "Bearer " ++ mockToken)) [] 200%Z
            [(authEvent (lit "Bearer " ++ mockToken),
              Middleware.mkUser (JStr (lit "user-123")) (JStr (lit "testuser")))] _).
  vm_compute. reflexivity.
Defined.

Lemma withAuth_trusts_token_payload_witness :
  wrappedHandler userFound (inl (Error "Invalid Access Token"))
    (authEvent (lit "Bearer header."
                    ++ lit "eyJjb2duaXRvOnVzZXJuYW1lIjoidGVzdHVzZXIifQ=="
                    ++ lit ".forged")) []
  = (inr 200%Z,
     [(authEvent (lit "Bearer header."
                      ++ lit "eyJjb2duaXRvOnVzZXJuYW1lIjoidGVzdHVzZXIifQ=="
                      ++ lit ".forged"),
       Middleware.mkUser (JStr (lit "user-123")) (JStr (lit "testuser")))]).
Proof.
  refine (@withAuth_trusts_token_payload _ _ mockHandler asciiBase64 usersTable
            (fun _ => userFound) (fun _ => inl (Error "Invalid Access Token"))
            (authEvent (lit "Bearer header."
                            ++ lit "eyJjb2duaXRvOnVzZXJuYW1lIjoidGVzdHVzZXIifQ=="
                            ++ lit ".forged")) []
            (Middleware.mkHeaders
               (Some (lit "Bearer header."
                          ++ lit "eyJjb2duaXRvOnVzZXJuYW1lIjoidGVzdHVzZXIifQ=="
                          ++ lit ".forged")) None)
            (lit "header") (lit "eyJjb2duaXRvOnVzZXJuYW1lIjoidGVzdHVzZXIifQ==")
            (lit "forged")
            [(lit "cognito:username", JStr (lit "testuser"))]
            (JStr (lit "testuser")) (lit "TestUsersTable") mockUserItem []
            eq_refl eq_refl _ _ _ _ eq_refl eq_refl eq_refl eq_refl eq_refl).
  - vm_compute. intuition discriminate.
  - vm_compute. intuition discriminate.
  - vm_compute. intuition discriminate.
  - vm_compute. reflexivity.
Defined.

Lemma withAuth_users_table_unset_witness :
  exists message error,
    Middleware.withAuth mockHandler asciiBase64 None (fun _ => userFound)
      (fun _ => inl TypeError) (authEvent (lit "Bearer " ++ mockToken)) []
    = (inl (Middleware.mk401 message error), []).
Proof.
  exact (@withAuth_users_table_unset _ _ mockHandler asciiBase64 None
           (fun _ => userFound) (fun _ => inl TypeError)
           (authEvent (lit "Bearer " ++ mockToken)) [] (or_introl eq_refl)).
Defined.

Lemma withAuth_asks_provider_witness :
  wrappedHandler userFound (inl TypeError) (authEvent (lit "Bearer abc.def")) []
  = (inl (Middleware.mk401 "Authentication failed" (Some TypeError)), []).
Proof.
  refine (proj1 (@withAuth_asks_provider _ _ mockHandler asciiBase64 usersTable
                   (fun _ => userFound) (fun _ => inl TypeError)
                   (authEvent (lit "Bearer abc.def")) []
                   (Middleware.mkHeaders (Some (lit "Bearer abc.def")) None)
                   (lit "Bearer abc.def") eq_refl eq_refl _ _) TypeError eq_refl).
  - discriminate.
  - vm_compute. discriminate.
Defined.

Lemma formatRelativeTime_by_age_witness :
  CommentItem.Date_parse (fun _ => None) (toISOString mockNow) = Some mockNow
  /\ CommentItem.formatRelativeTime (fun _ => None) (mockNow + 10800000)
       (toISOString mockNow) = lit "3h ago".
Proof.
  refine (@formatRelativeTime_by_age (fun _ => None) (mockNow + 10800000)%Z mockNow
            _ _); vm_compute; split; discriminate.
Defined.

Lemma formatRelativeTime_zero_counts_witness :
  CommentItem.formatRelativeTime (fun _ => None) (mockNow + 29 * 86400000)
    (toISOString mockNow) = lit "0mo ago".
Proof.
  refine (proj1 (@formatRelativeTime_zero_counts (fun _ => None)
                   (mockNow + 29 * 86400000)%Z mockNow _ _) _);
    vm_compute; split; discriminate || reflexivity.
Defined.

Lemma commentInput_agrees_with_server_witness :
  CreateComment.handler tableStore testTable mockCommentId mockNow
    (CreateComment.mkEvent
       (Api.body (Api.createCommentRequest [] (lit "post-456") (repeat 97 281) []))
       (Some mockUser)) []
  = (CreateComment.validationError "Comment text cannot exceed 280 characters", []).
Proof.
  destruct (proj1 (@commentInput_agrees_with_server tableStore testTable mockCommentId
                     mockNow [] (lit "post-456") (repeat 97 281) [] false None
                     (Some mockUser) []
                     ltac:(apply wf16b_wf16; reflexivity)
                     ltac:(apply wf16b_wf16; reflexivity)
                     ltac:(discriminate)) eq_refl) as [msg H].
  rewrite H. vm_compute in H. injection H as <-. reflexivity.
Defined.

Lemma handleSubmit_sends_only_valid_text_witness :
  exists notice,
    forall api,
      CommentInput.handleSubmit (lit "post-456") (Some (lit "token")) api
        (CommentInput.mkState (lit "   ") false None)
      = (CommentInput.mkState (lit "   ") false (Some (CommentInput.Fixed notice)),
         None).
Proof.
  exact (proj1 (@handleSubmit_sends_only_valid_text (lit "post-456")
                  (Some (lit "token")) (fun _ _ _ => inl (Api.Thrown TypeError))
                  (CommentInput.mkState (lit "   ") false None))
               (or_introl eq_refl)).
Defined.

Lemma getComments_request_carries_cursor_witness :
  exists cursor e,
    GetComments.encodeLastKey (Some [(lit "id", lit "comment-005")]) = Some cursor
    /\ Api.getCommentsRequest [] (lit "post-123") (lit "token") (Some 5%Z) (Some cursor)
       = inr (Api.mkRequest
                (([] ++ lit "/posts/" ++ lit "post-123" ++ lit "/comments?limit="
                     ++ decimal 5) ++ lit "&lastKey=" ++ e)
                "GET" None (lit "Bearer " ++ lit "token") None)
    /\ forallb uri_safe e = true
    /\ decodeURIComponent e = inr cursor
    /\ GetComments.parseLastKey (Some cursor)
       = key_value [(lit "id", lit "comment-005")]
    /\ GetComments.parseLimit (Some (decimal 5)) = 5%Z.
Proof.
  refine (@getComments_request_carries_cursor [] (lit "post-123") (lit "token") 5%Z
            [(lit "id", lit "comment-005")] _ _ _).
  - lia.
  - discriminate.
  - split.
    + repeat constructor. intros [].
    + repeat constructor; apply wf16b_wf16; reflexivity.
Defined.

Lemma commentInput_keeps_draft_unless_2xx_witness :
  CommentInput.handleSubmit (lit "post-456") (Some (lit "token"))
    (Api.createComment [] (fun _ => inr (Api.mkHttp 500 (inl SyntaxError))))
    (CommentInput.mkState (lit "Test comment") false None)
  = (CommentInput.mkState (lit "Test comment") false
       (Some (CommentInput.MessageOf
                (Api.ErrorOf (JStr (lit "API error: " ++ decimal 500))))), None).
Proof.
  refine (proj1 (proj2 (proj2 (@commentInput_keeps_draft_unless_2xx []
            (fun _ => inr (Api.mkHttp 500 (inl SyntaxError)))
            (lit "post-456") (lit "token")
            (CommentInput.mkState (lit "Test comment") false None) eq_refl _)))
            (Api.mkHttp 500 (inl SyntaxError)) eq_refl eq_refl
            (or_introl (ex_intro _ SyntaxError eq_refl))).
  discriminate.
Defined.

(** ** The tests of the middleware, replayed *)

Example test_withAuth_rejections :
  fst (wrappedHandler userFound (inl TypeError)
         (Middleware.mkEvent (Some (Middleware.mkHeaders None None)) None) [])
  = inl (Middleware.mk401 "Missing authorization token" None)
  /\ fst (wrappedHandler userFound (inl TypeError) (authEvent []) [])
     = inl (Middleware.mk401 "Missing authorization token" None)
  /\ wrappedHandler userFound (inl TypeError)
       (authEvent (lit "Bearer invalid-token")) []
     = (inl (Middleware.mk401 "Authentication failed" (Some TypeError)), [])
  /\ snd (wrappedHandler userFound (inl TypeError)
            (authEvent (lit "Bearer header.!!!invalid!!!.signature")) []) = []
  /\ snd (wrappedHandler (inr (UserQuery.mkOutput (Some []))) (inl TypeError)
            (authEvent (lit "Bearer " ++ mockToken)) []) = []
  /\ snd (wrappedHandler (inl StorageError) (inl TypeError)
            (authEvent (lit "Bearer " ++ mockToken)) []) = []
  /\ snd (wrappedHandler userFound (inl TypeError)
            (authEvent (lit "Bearer header.eyJzdWIiOiJzb21lLXN1Yi1pZCJ9.signature"))
            []) = [].
Proof. vm_compute. repeat split. Qed.

Example test_withAuth_accepts :
  fst (wrappedHandler userFound (inl TypeError)
         (authEvent (lit "Bearer " ++ mockToken)) []) = inr 200%Z
  /\ map snd (snd (wrappedHandler userFound (inl TypeError)
                     (authEvent (lit "Bearer " ++ mockToken)) []))
     = [Middleware.mkUser (JStr (lit "user-123")) (JStr (lit "testuser"))]
  /\ map snd (snd (wrappedHandler userFound (inl TypeError) (authEvent mockToken) []))
     = [Middleware.mkUser (JStr (lit "user-123")) (JStr (lit "testuser"))]
  /\ map snd (snd (wrappedHandler userFound (inl TypeError)
                     (authEvent (lit "Bearer header.eyJ1c2VybmFtZSI6InRlc3R1c2VyIn0=.signature"))
                     []))
     = [Middleware.mkUser (JStr (lit "user-123")) (JStr (lit "testuser"))].
Proof. vm_compute. repeat split. Qed.
